(** * binlogsync.Canal: metadata cache, position tracker and lifecycle

    A shallow embedding of the MySQL binlog replication client (package
    [binlogsync], type [Canal]) and of the table registry it uses (package
    [ddl], type [Tables], file [sql/ddl/tables.go]), together with the
    functions of package [dml] that expand place holders, extract named
    arguments and interpolate arguments into a statement.

    Go pointers to a shared object are modelled by explicit state passing:
    every method takes the receiver and returns its new value.  A call to a
    collaborator whose code lives outside the two files (the SQL server, the
    configuration sink, the logger, the wait group) is modelled by a record
    that holds the collaborator's answers together with a log of the calls
    it received, so that "how often was it called" is a statement about the
    log.  Where several goroutines call one method, each runs the method
    statement by statement under a schedule, with the locks of the source. *)

From Stdlib Require Import ZArith Lia Ascii String Sorted.
From Stdlib.Strings Require Import Byte.
From stdpp Require Import gmap strings list.

Local Open Scope string_scope.
Local Open Scope Z_scope.

(** ** The [errors] package (github.com/corestoreio/errors)

    Only the error kind matters to the callers.  [WithStack] attaches a stack
    trace and keeps kind and message. *)
Module errors.

Inductive Kind : Type :=
| NoKind | NotFound | NotSupported | NotValid | Mismatch | Fatal.

#[export] Instance Kind_eq_dec : EqDecision Kind.
Proof. solve_decision. Defined.

Record error : Type := Newf { kind : Kind; message : string }.

#[export] Instance error_eq_dec : EqDecision error.
Proof. solve_decision. Defined.

Definition WithStack (e : error) : error := e.

Definition Is (e : error) (k : Kind) : bool := bool_decide (kind e = k).

End errors.
Import errors.

(** A Go call that returns [(T, error)]: a value, an error, or a panic (a
    nil pointer dereference).  A call that returns only [error] is a
    [result unit], with [Ok tt] for the nil error. *)
Inductive result (A : Type) : Type :=
| Ok (a : A)
| Fail (e : error)
| Panicked.
Arguments Ok {A} a.
Arguments Fail {A} e.
Arguments Panicked {A}.

(** Methods mutate their receiver and may stop early with an error; what
    they had written by then stays written.  [M S A] is such a computation
    over a state [S]. *)
Definition M (S A : Type) : Type := S -> result A * S.

Definition ret {S A} (a : A) : M S A := fun s => (Ok a, s).
Definition fail {S A} (e : error) : M S A := fun s => (Fail e, s).
Definition panic {S A} : M S A := fun s => (Panicked, s).
Definition bind {S A B} (m : M S A) (k : A -> M S B) : M S B :=
  fun s => match m s with
           | (Ok a, s') => k a s'
           | (Fail e, s') => (Fail e, s')
           | (Panicked, s') => (Panicked, s')
           end.
Definition get {S} : M S S := fun s => (Ok s, s).
Definition put {S} (s : S) : M S unit := fun _ => (Ok tt, s).
Definition modify {S} (f : S -> S) : M S unit := fun s => (Ok tt, f s).

(** [catch m] runs [m] and hands its error to the caller as a value, the way
    [if err := f(); err != nil] does. *)
Definition catch {S A} (m : M S A) : M S (error + A) :=
  fun s => match m s with
           | (Ok a, s') => (Ok (inr a), s')
           | (Fail e, s') => (Ok (inl e), s')
           | (Panicked, s') => (Panicked, s')
           end.

(** [zoom getter setter m] runs a computation on a part of the state. *)
Definition zoom {S T A} (getter : S -> T) (setter : T -> S -> S) (m : M T A) : M S A :=
  fun s => let (r, t) := m (getter s) in (r, setter t s).

Notation "'let*' x ':=' m 'in' k" := (bind m (fun x => k))
  (at level 10, x name, m at level 100, k at level 200).
Notation "m ;;; k" := (bind m (fun _ => k))
  (at level 200, right associativity).

(** ** [time]: instants and durations in nanoseconds

    A [Time] is the number of nanoseconds since the zero [time.Time]; a
    [Duration] is an int64 count of nanoseconds, and [Sub] saturates. *)
Module time.

Definition Time : Type := Z.
Definition Duration : Type := Z.

Definition minDuration : Duration := - 2 ^ 63.
Definition maxDuration : Duration := 2 ^ 63 - 1.
Definition Millisecond : Duration := 1000000.
Definition Second : Duration := 1000000000.

Definition zero : Time := 0.

Definition Sub (t u : Time) : Duration :=
  let d := t - u in
  if d <? minDuration then minDuration
  else if maxDuration <? d then maxDuration
  else d.

End time.

(** ** Strings: the helpers of Go's [strings] package that the code calls *)
Module strings.

Definition HasPrefix (s p : string) : bool := String.prefix p s.

Fixpoint Contains (s sub : string) : bool :=
  String.prefix sub s ||
  match s with
  | EmptyString => false
  | String _ s' => Contains s' sub
  end.

Definition toLower (a : ascii) : ascii :=
  let n := Ascii.N_of_ascii a in
  if ((65 <=? n) && (n <=? 90))%N then Ascii.ascii_of_N (n + 32) else a.

Fixpoint ToLower (s : string) : string :=
  match s with
  | EmptyString => EmptyString
  | String a s' => String (toLower a) (ToLower s')
  end.

(** [strings.EqualFold] on ASCII text: equality up to letter case. *)
Definition EqualFold (s t : string) : bool :=
  bool_decide (ToLower s = ToLower t).

(** [%q] of [fmt]: the text between double quotes (escapes are not
    modelled). *)
Definition quote (s : string) : string :=
  let q := String (Ascii.ascii_of_nat 34) EmptyString in
  q +:+ s +:+ q.

End strings.

(** ** Package [ddl]: tables, columns and server variables *)
Module ddl.

Definition PrefixView : string := "view_".

(** Modelled from the spec: the declaration of [MasterStatus] is not among
    the source files.  The spec gives it a binlog file name, a byte offset
    (unsigned) and, optionally, a GTID set. *)
Record MasterStatus : Type := {
  File : string;
  Position : N;
  ExecutedGTIDSet : string
}.

(** Modelled from the spec: the declaration of [Column] is not among the
    source files.  The spec gives a column a name, a type, its nullability
    and its key flags; [Tables.Validate] reads the first three. *)
Record Column : Type := {
  Field : string;
  ColumnType : string;
  Null : string;
  Key : string
}.

(** Modelled from the spec: the declaration of [Table] is not among the
    source files.  The fields are the ones [tables.go] reads and writes; the
    spec lists the same attributes for a cache entry. *)
Record Table : Type := {
  Schema : string;
  Name : string;
  Columns : list Column;
  CreateSyntax : string;
  IsView : bool
}.

#[export] Instance MasterStatus_eq_dec : EqDecision MasterStatus.
Proof. solve_decision. Defined.
#[export] Instance Column_eq_dec : EqDecision Column.
Proof. solve_decision. Defined.
#[export] Instance Table_eq_dec : EqDecision Table.
Proof. solve_decision. Defined.

(** Modelled from the spec: [NewTable] is not among the source files.  A
    new entry has its name and nothing else. *)
Definition NewTable (tableName : string) : Table :=
  {| Schema := ""; Name := tableName; Columns := []; CreateSyntax := "";
     IsView := false |}.

(** Modelled from the spec: [Table.update] is not among the source files.
    It refreshes what a table derives from its columns; the record above
    keeps no derived field, so nothing changes. *)
Definition update (t : Table) : Table := t.

Definition setSchemaColumns (schema : string) (cols : list Column) (t : Table) : Table :=
  {| Schema := schema; Name := Name t; Columns := cols;
     CreateSyntax := CreateSyntax t; IsView := IsView t |}.

Definition setCreateSyntax (stmt : string) (t : Table) : Table :=
  {| Schema := Schema t; Name := Name t; Columns := Columns t;
     CreateSyntax := stmt; IsView := IsView t |}.

Definition setView (isView : bool) (stmt : string) (t : Table) : Table :=
  {| Schema := Schema t; Name := Name t; Columns := Columns t;
     CreateSyntax := stmt; IsView := isView |}.

(** Server variables as loaded by [SHOW VARIABLES LIKE name]. *)
Record Variables : Type := { Data : gmap string string }.

(** Modelled from the spec: [Variables.EqualFold] is not among the source
    files.  It compares the loaded value of a variable with the expected
    text, letter case ignored; a variable that was not loaded reads as the
    empty string. *)
Definition EqualFold (v : Variables) (key expected : string) : bool :=
  strings.EqualFold (default "" (Data v !! key)) expected.

(** *** The SQL connection

    What the server answers, and the statements it has been sent so far
    (oldest first). *)
Inductive Query : Type :=
| QShowCreateTable (name : string)
| QLoadColumns (names : list string)
| QCreate (name stmt : string)
| QShowMasterStatus
| QShowVariables (name : string).

Record DB : Type := {
  showCreateTable : string -> error + string;
  informationSchemaColumns : list string -> error + gmap string (list Column);
  execCreate : string -> string -> option error;
  showMasterStatus : error + MasterStatus;
  showVariables : string -> error + gmap string string;
  closeError : option error;
  queries : list Query;
  closes : nat
}.

Definition logQuery (q : Query) (db : DB) : DB :=
  {| showCreateTable := showCreateTable db;
     informationSchemaColumns := informationSchemaColumns db;
     execCreate := execCreate db;
     showMasterStatus := showMasterStatus db;
     showVariables := showVariables db;
     closeError := closeError db;
     queries := (queries db ++ [q])%list;
     closes := closes db |}.

Definition logClose (db : DB) : DB :=
  {| showCreateTable := showCreateTable db;
     informationSchemaColumns := informationSchemaColumns db;
     execCreate := execCreate db;
     showMasterStatus := showMasterStatus db;
     showVariables := showVariables db;
     closeError := closeError db;
     queries := queries db;
     closes := S (closes db) |}.

(** The number of column loads the server has executed. *)
Definition isLoad (q : Query) : bool :=
  match q with QLoadColumns _ => true | _ => false end.
Definition loads (db : DB) : nat := length (filter (fun q => isLoad q = true) (queries db)).

(** [Tables]: the registry.  [tm] maps a table name to the table; the mutex
    [mu] serialises the methods and has no state of its own here. *)
Record Tables : Type := {
  Tables_Schema : string;
  tm : gmap string Table
}.

Definition setTm (m : gmap string Table) (t : Tables) : Tables :=
  {| Tables_Schema := Tables_Schema t; tm := m |}.

Definition setSchema (schema : string) (t : Tables) : Tables :=
  {| Tables_Schema := schema; tm := tm t |}.

(** The registry together with the connection its options talk to. *)
Definition St : Type := Tables * DB.

Definition onTables (f : Tables -> Tables) : M St unit :=
  modify (fun s => (f (fst s), snd s)).
Definition send (q : Query) : M St unit :=
  modify (fun s => (fst s, logQuery q (snd s))).
Definition answer {A} (f : DB -> error + A) : M St A :=
  fun s => match f (snd s) with
           | inl e => (Fail e, s)
           | inr a => (Ok a, s)
           end.
Definition check (e : option error) : M St unit :=
  match e with
  | Some e => fail e
  | None => ret tt
  end.

(** [return errors.WithStack(err)] around a call. *)
Definition withStack {S A} (m : M S A) : M S A :=
  fun s => match m s with
           | (Fail e, s') => (Fail (WithStack e), s')
           | r => r
           end.

Record TableOption : Type := {
  sortOrder : nat;
  fn : M St unit
}.

Definition isCreateStmt (idName stmt : string) : bool :=
  negb (bool_decide (stmt = "")) && strings.HasPrefix stmt "CREATE " &&
  strings.Contains stmt idName.

Definition errTableNotFound (name : string) : error :=
  Newf NotFound ("[ddl] Table " +:+ strings.quote name +:+ " not found or not yet added.").

Section WithIdentifiers.

(** [dml.IsValidIdentifier] is not among the source files: any function
    from names to an optional error. *)
Variable IsValidIdentifier : string -> option error.

(** Modelled from the spec: [Table.loadCreateSyntax] is not among the
    source files.  It is the CREATE-statement introspection of the load: one
    statement to the server, whose answer becomes the CREATE syntax of the
    table and whose error is returned.  [db] tells whether the handle is
    non-nil. *)
Definition loadCreateSyntax (db : bool) (name : string) : M St unit :=
  if db then
    send (QShowCreateTable name) ;;;
    let* stmt := answer (fun c => showCreateTable c name) in
    onTables (fun t => setTm (alter (setCreateSyntax stmt) name (tm t)) t)
  else ret tt.

(** Modelled from the spec: [Table.Create] is not among the source files.
    It executes the CREATE statement and returns the server's error. *)
Definition Create (db : bool) (name stmt : string) : M St unit :=
  if db then
    send (QCreate name stmt) ;;;
    let* e := answer (fun c => inr (execCreate c name stmt)) in
    check e
  else panic.

(** Modelled from the spec: [LoadColumns] is not among the source files.
    It is the metadata query of the load: one query for the columns of the
    named tables. *)
Definition LoadColumns (names : list string) : M St (gmap string (list Column)) :=
  send (QLoadColumns names) ;;;
  answer (fun c => informationSchemaColumns c names).

(** The [for i := 0; i < lenIDCS; i = i + 2] loop of [WithCreateTable]:
    [t] is the entry of [tvName] in the map from the moment it is stored. *)
Fixpoint createEach (db : bool) (identifierCreateSyntax tvNames : list string)
  : M St (list string) :=
  match identifierCreateSyntax with
  | tvName :: tvCreate :: rest =>
      withStack (check (IsValidIdentifier tvName)) ;;;
      let tvNames := (tvNames ++ [tvName])%list in
      onTables (fun t => setTm (<[tvName := NewTable tvName]> (tm t)) t) ;;;
      (if isCreateStmt tvName tvCreate then
         onTables (fun t =>
           setTm (alter (setView (strings.Contains tvCreate " VIEW " ||
                                  strings.HasPrefix tvName PrefixView) tvCreate)
                        tvName (tm t)) t) ;;;
         withStack (Create db tvName tvCreate)
       else ret tt) ;;;
      withStack (loadCreateSyntax db tvName) ;;;
      createEach db rest tvNames
  | _ => ret tvNames
  end.

Definition WithCreateTable (db : bool) (identifierCreateSyntax : list string) : TableOption :=
  {| sortOrder := 5;
     fn :=
       let lenIDCS := length identifierCreateSyntax in
       if (lenIDCS mod 2 =? 1)%nat then
         fail (Newf NotValid "[ddl] WithCreateTable expects a balanced slice")
       else
         let* tvNames := createEach db identifierCreateSyntax [] in
         if db then
           let* tc := withStack (LoadColumns tvNames) in
           onTables (fun t =>
             foldl (fun acc n =>
                      setTm (alter (fun tbl => update (setSchemaColumns (Tables_Schema acc)
                                                         (default [] (tc !! n)) tbl))
                                   n (tm acc)) acc)
                   t tvNames)
         else ret tt |}.

End WithIdentifiers.

(** [sort.SliceStable] by [sortOrder]. *)
Fixpoint insertOption (o : TableOption) (l : list TableOption) : list TableOption :=
  match l with
  | [] => [o]
  | x :: r => if (sortOrder o <=? sortOrder x)%nat then o :: x :: r
              else x :: insertOption o r
  end.
Definition sortStable (opts : list TableOption) : list TableOption :=
  foldr insertOption [] opts.

Fixpoint applyOptions (opts : list TableOption) : M St unit :=
  match opts with
  | [] => ret tt
  | to :: r => withStack (fn to) ;;; applyOptions r
  end.

(** [Tables.Options].  The closing loop copies [tm.DB] into every table; the
    tables of this model carry no connection of their own. *)
Definition Options (opts : list TableOption) : M St unit :=
  applyOptions (sortStable opts).

(** [Tables.Table]. *)
Definition Tables_Table (name : string) (t : Tables) : error + Table :=
  match tm t !! name with
  | Some tbl => inr tbl
  | None => inl (errTableNotFound name)
  end.

(** [Tables.DeleteFromCache] and [Tables.DeleteAllFromCache]. *)
Definition DeleteFromCache (tableNames : list string) (t : Tables) : Tables :=
  setTm (foldl (fun m tn => delete tn m) (tm t) tableNames) t.

Definition DeleteAllFromCache (t : Tables) : Tables := setTm ∅ t.

(** [NewTables()] without options. *)
Definition MustNewTables : Tables := {| Tables_Schema := ""; tm := ∅ |}.

(** [Tables.Len]. *)
Definition Len (t : Tables) : nat := size (tm t).

(** The names a [range] over the map yields.  Go leaves the order of such a
    loop unspecified; the order of [map_to_list] stands for it. *)
Definition rangeTables (t : Tables) : list (string * Table) := map_to_list (tm t).
Definition rangeNames (t : Tables) : list string := (rangeTables t).*1.

(** [Tables.Tables]. *)
Definition Tables_Tables (ret : list string) (t : Tables) : list string :=
  if (size (tm t) =? 0)%nat then ret
  else foldl (fun ret tn => (ret ++ [tn])%list) ret (rangeNames t).

(** The loop [for idx, c := range tbl.Columns] of [Validate]; indexing
    [dbTblCols] out of range panics.  The messages keep the constant text
    and the names, not the formatted numbers. *)
Fixpoint validateColumns (tn : string) (idx : nat) (columns dbTblCols : list Column)
  : M St unit :=
  match columns with
  | [] => ret tt
  | c :: r =>
      match dbTblCols !! idx with
      | None => panic
      | Some dbCol =>
          if negb (bool_decide (Field c = Field dbCol)) then
            fail (Newf Mismatch ("[ddl] Table " +:+ strings.quote tn +:+ " with column name " +:+
                                 strings.quote (Field c) +:+
                                 " does not match database column name " +:+
                                 strings.quote (Field dbCol)))
          else if negb (bool_decide (ColumnType c = ColumnType dbCol)) then
            fail (Newf Mismatch ("[ddl] Table " +:+ strings.quote tn +:+ " with Go column name " +:+
                                 strings.quote (Field c) +:+
                                 " does not match MySQL column type. MySQL: " +:+
                                 strings.quote (ColumnType dbCol) +:+ " Go: " +:+
                                 strings.quote (ColumnType c) +:+ "."))
          else if negb (bool_decide (Null c = Null dbCol)) then
            fail (Newf Mismatch ("[ddl] Table " +:+ strings.quote tn +:+ " with column name " +:+
                                 strings.quote (Field c) +:+
                                 " does not match MySQL null types. MySQL: " +:+
                                 strings.quote (Null dbCol) +:+ " Go: " +:+
                                 strings.quote (Null c)))
          else validateColumns tn (S idx) r dbTblCols
      end
  end.

(** The loop [for tn, tbl := range tm.tm] of [Validate]. *)
Fixpoint validateTables (entries : list (string * Table)) (tMap : gmap string (list Column))
  : M St unit :=
  match entries with
  | [] => ret tt
  | (tn, tbl) :: r =>
      match tMap !! tn with
      | None =>
          fail (Newf NotFound ("[ddl] Table " +:+ strings.quote tn +:+ " not found in database."))
      | Some dbTblCols =>
          if (length dbTblCols <? length (Columns tbl))%nat then
            fail (Newf Mismatch ("[ddl] Table " +:+ strings.quote tn +:+
                                 " has more columns than its object in the database."))
          else
            validateColumns tn 0 (Columns tbl) dbTblCols ;;;
            validateTables r tMap
      end
  end.

(** [Tables.Validate]; the connection of the state is [tm.DB]. *)
Definition Validate : M St unit :=
  let* s := get in
  let tblNames := rangeNames (fst s) in
  let* tMap := withStack (LoadColumns tblNames) in
  if negb (size tMap =? size (tm (fst s)))%nat then
    fail (Newf Mismatch "[ddl] Tables count does not match table count in database.")
  else validateTables (rangeTables (fst s)) tMap.

(** What [Validate] compares of a column of the registry and the column
    of the database at the same index. *)
Definition sameColumn (c dbCol : Column) : Prop :=
  Field c = Field dbCol /\ ColumnType c = ColumnType dbCol /\ Null c = Null dbCol.

(** The columns of the registry are a prefix of the columns of the
    database, as far as [sameColumn] looks. *)
Definition columnsAgree (columns dbTblCols : list Column) : Prop :=
  forall idx c, columns !! idx = Some c ->
    exists dbCol, dbTblCols !! idx = Some dbCol /\ sameColumn c dbCol.

(** The arguments of [WithCreateTable] that load the named tables without
    creating them: every name with an empty CREATE statement. *)
Definition loadOnly (names : list string) : list string :=
  flat_map (fun n => [n; ""]) names.

(** [Tables.Upsert].  The listener buckets that it merges are not part of
    the record [Table]; the error it returns is always nil. *)
Definition setName (name : string) (t : Table) : Table :=
  {| Schema := Schema t; Name := name; Columns := Columns t;
     CreateSyntax := CreateSyntax t; IsView := IsView t |}.

Definition Upsert (tNew : Table) (t : Tables) : Tables :=
  match tm t !! Name tNew with
  | None => setTm (<[Name tNew := tNew]> (tm t)) t
  | Some tOld =>
      let tNew := if bool_decide (Schema tNew = "")
                  then setSchemaColumns (Schema tOld) (Columns tNew) tNew else tNew in
      let tNew := if bool_decide (Name tNew = "") then setName (Name tOld) tNew else tNew in
      let tNew := if (length (Columns tNew) =? 0)%nat
                  then setSchemaColumns (Schema tNew) (Columns tOld) tNew else tNew in
      setTm (<[Name tNew := update tNew]> (tm t)) t
  end.

End ddl.

(** ** Collaborators of the client *)

(** [mysql.Config] (github.com/go-sql-driver/mysql): the parsed DSN.
    [Params] is a Go map and may be nil. *)
Module mysql.
Record Config : Type := {
  User : string;
  Passwd : string;
  Net : string;
  Addr : string;
  DBName : string;
  Params : option (gmap string string)
}.
Definition setParams (p : option (gmap string string)) (c : Config) : Config :=
  {| User := User c; Passwd := Passwd c; Net := Net c; Addr := Addr c;
     DBName := DBName c; Params := p |}.
Definition zero : Config :=
  {| User := ""; Passwd := ""; Net := ""; Addr := ""; DBName := ""; Params := None |}.
End mysql.

(** [myreplicator.BinlogSyncer]: the replication connection, known here by
    the configuration it was built from. *)
Module myreplicator.
Record BinlogSyncerConfig : Type := {
  ServerID : Z;   (* uint32 *)
  Flavor : string;
  Host : string;
  Port : Z;       (* uint16 *)
  User : string;
  Password : string
}.
Record BinlogSyncer : Type := NewBinlogSyncer { cfg : BinlogSyncerConfig }.
End myreplicator.

(** [config.Setter]: the sink for the master position.  [setResult] is what
    the sink answers to a [Set], given the calls it has received before;
    [calls] records every [Set] with its outcome, oldest first. *)
Module config.
Record SetCall : Type := {
  path : string;
  value : list byte;
  stored : bool
}.
Record Setter : Type := {
  setResult : list SetCall -> string -> list byte -> option error;
  calls : list SetCall
}.
Definition Setter_Set (s : Setter) (p : string) (v : list byte) : option error * Setter :=
  let r := setResult s (calls s) p v in
  (r, {| setResult := setResult s;
         calls := (calls s ++ [{| path := p; value := v;
                                  stored := bool_decide (r = None) |}])%list |}).
Definition writes (s : Setter) : nat := length (calls s).
Definition storedWrites (s : Setter) : nat :=
  length (filter (fun k => stored k = true) (calls s)).
End config.

(** [log.Logger]: two levels, and the lines written so far. *)
Module log.
Inductive Level : Type := LDebug | LInfo.
Record Logger : Type := {
  IsDebug : bool;
  IsInfo : bool;
  entries : list (Level * string)
}.
Definition write (l : Level) (msg : string) (lg : Logger) : Logger :=
  {| IsDebug := IsDebug lg; IsInfo := IsInfo lg;
     entries := (entries lg ++ [(l, msg)])%list |}.
Definition BlackHole : Logger := {| IsDebug := false; IsInfo := false; entries := [] |}.
End log.

(** Modelled from the spec: [dml.ConnPool] is not among the source files.
    The pool owns one connection [DB] and remembers the DSN it was opened
    with; [Close] closes the connection and returns its error. *)
Module dml.
Record ConnPool : Type := {
  DB : ddl.DB;
  poolDSN : string
}.
Definition setDB (d : ddl.DB) (p : ConnPool) : ConnPool :=
  {| DB := d; poolDSN := poolDSN p |}.
Definition Close (p : ConnPool) : option error * ConnPool :=
  (ddl.closeError (DB p), setDB (ddl.logClose (DB p)) p).
End dml.

(** [sync.WaitGroup]: [pending] counts the workers added and not yet done.
    A worker of the client ends once the syncer is closed, so [Wait], which
    [Close] calls after closing the syncer, returns with no worker left;
    [waits] counts the calls of [Wait] that returned. *)
Module sync.
Record WaitGroup : Type := {
  pending : nat;
  waits : nat
}.
Definition Add (n : nat) (w : WaitGroup) : WaitGroup :=
  {| pending := (pending w + n)%nat; waits := waits w |}.
Definition Wait (w : WaitGroup) : WaitGroup :=
  {| pending := 0%nat; waits := S (waits w) |}.
Definition zero : WaitGroup := {| pending := 0%nat; waits := 0%nat |}.
End sync.

(** ** Package [dml]: place holders and named arguments

    The functions of the interpolation file that work on the bytes of a
    statement.  A rune is an int32, here a [Z]; a Go string and a byte slice
    are both a [list byte].  An argument is represented by the number that
    its method [len] returns. *)
Module interpolate.

Definition placeHolderRune : Z := 63.
Definition placeHolderByte : byte := x3f.

(** [namedArgStartByte] is declared in another file of the package; it is
    the colon that the comments of [extractReplaceNamedArgs] and
    [isNamedArg] speak of. *)
Definition namedArgStartByte : byte := x3a.

(** The rune of an ASCII byte. *)
Definition runeOf (b : byte) : Z := Z.of_N (Byte.to_N b).

(** A byte below 0x80 is a rune of its own. *)
Definition isASCII (b : byte) : bool := (Byte.to_N b <? 128)%N.

(** An ASCII byte that is neither the single quote nor the colon. *)
Definition plainByte (b : byte) : Prop :=
  isASCII b = true /\ b <> x27 /\ b <> namedArgStartByte.

(** An ASCII byte that [writeInterpolate] copies: no place holder, no
    quote of any kind, no opening bracket. *)
Definition literalByte (b : byte) : Prop :=
  isASCII b = true /\ b <> placeHolderByte /\
  b <> x60 /\ b <> x27 /\ b <> x22 /\ b <> x5b.

(** [strings.Count(sql, placeHolderStr)] for the one-byte place holder. *)
Fixpoint Count (sql : list byte) : nat :=
  match sql with
  | [] => 0
  | b :: r => ((if Byte.eqb b placeHolderByte then 1 else 0) + Count r)%nat
  end.

(** [bytes.IndexByte]; [None] is -1. *)
Fixpoint IndexByte (s : list byte) (c : byte) : option nat :=
  match s with
  | [] => None
  | b :: r => if Byte.eqb b c then Some 0%nat
              else match IndexByte r c with
                   | Some i => Some (S i)
                   | None => None
                   end
  end.

(** [s[lo:hi]]; a slice expression out of range panics, which is [None]. *)
Definition slice (s : list byte) (lo hi : nat) : option (list byte) :=
  if ((lo <=? hi) && (hi <=? length s))%nat then Some (take (hi - lo) (drop lo s))
  else None.

(** [isEmoji]. *)
Definition isEmoji (r : Z) : bool :=
  (0x1F600 <=? r) && (r <=? 0x1F64F) ||
  (0x1F680 <=? r) && (r <=? 0x1F6FF) ||
  (0x2600 <=? r) && (r <=? 0x26FF) ||
  (0x2700 <=? r) && (r <=? 0x27BF) ||
  (0xFE00 <=? r) && (r <=? 0xFE0F) ||
  (65024 <=? r) && (r <=? 65039) ||
  (0x1F900 <=? r) && (r <=? 0x1F9FF) ||
  (8400 <=? r) && (r <=? 8447) ||
  (0x1F300 <=? r) && (r <=? 0x1F5FF).

(** The part of [expandPlaceHolders] that writes one group of place
    holders. *)
Definition writeReps (reps : nat) (buf : list byte) : list byte :=
  let buf := if (1 <? reps)%nat then (buf ++ [x28])%list else buf in
  let buf := foldl (fun buf r =>
                      let buf := (buf ++ [placeHolderByte])%list in
                      if (r <? reps - 1)%nat then (buf ++ [x2c])%list else buf)
                   buf (seq 0 reps) in
  if (1 <? reps)%nat then (buf ++ [x29])%list else buf.

Section WithUnicode.

(** [utf8.DecodeRune], [unicode.IsLetter], [unicode.IsDigit] and the bytes
    that [WriteRune] appends belong to the Go library. *)
Variable DecodeRune : list byte -> Z * nat.
Variable IsLetter IsDigit : Z -> bool.
Variable EncodeRune : Z -> list byte.

(** An [argument] and what its method [writeTo] appends to the buffer, or
    its error; [dialect.EscapeIdent] and the bytes it appends.  Neither is
    among the source files. *)
Variable argument : Type.
Variable writeTo : argument -> list byte -> error + list byte.
Variable EscapeIdent : list byte -> list byte.

(** The loop of [expandPlaceHolders].  [fuel] bounds the number of rounds;
    [None] is a loop that has not finished within them. *)
Fixpoint expandLoop (fuel : nat) (sql : list byte) (args : list nat) (pos i : nat)
    (buf : list byte) : option (result (list byte)) :=
  if (pos <? length sql)%nat then
    match fuel with
    | O => None
    | S fuel =>
        let (r, w) := DecodeRune (drop pos sql) in
        let pos := (pos + w)%nat in
        if r =? placeHolderRune then
          let buf := match args !! i with
                     | Some reps => writeReps reps buf
                     | None => buf
                     end in
          expandLoop fuel sql args pos (S i) buf
        else
          match slice sql (pos - w) pos with
          | Some s => expandLoop fuel sql args pos i (buf ++ s)%list
          | None => Some Panicked
          end
    end
  else Some (Ok buf).

(** [expandPlaceHolders].  Every round moves [pos] by the width of a rune,
    which is at least one byte unless nothing is left: [len(sql)] rounds
    are enough. *)
Definition expandPlaceHolders (buf sql : list byte) (args : list nat)
  : option (result (list byte)) :=
  expandLoop (length sql) sql args 0 0 buf.

(** [ExpandPlaceHolders]; [args] may be nil. *)
Definition ExpandPlaceHolders (sql : list byte) (args : option (list nat))
  : option (result (list byte)) :=
  let a := match args with Some a => a | None => [] end in
  let phCount := Count sql in
  let want := length a in
  if negb (phCount =? want)%nat || (want =? 0)%nat then
    Some (Fail (Newf Mismatch
                  "[dml] ExpandPlaceHolders: Number of ? do not match the number of repetitions"))
  else expandPlaceHolders [] sql a.

(** [isNotNamedArgSeperator]. *)
Definition isNotNamedArgSeperator (r : Z) : bool :=
  negb (IsLetter r) && negb (isEmoji r) && negb (IsDigit r) && negb (r =? 46).

(** A byte that may stand in the name of a named argument. *)
Definition nameByte (b : byte) : Prop :=
  plainByte b /\ isNotNamedArgSeperator (runeOf b) = false.

(** The variables of the loop of [extractReplaceNamedArgs]. *)
Record extractState : Type := {
  newSQL : list byte;
  nameBuf : list byte;
  foundColon : bool;
  quoteStart : bool;
  qualifiedColumns : list (list byte);
  found : bool
}.

(** The [switch] of [extractReplaceNamedArgs] for the rune [r]; [nameBuf]
    is the buffer [buf] of the source. *)
Definition extractStep (r : Z) (st : extractState) : extractState :=
  if (r =? 39) && negb (quoteStart st) then
    {| newSQL := (newSQL st ++ EncodeRune r)%list; nameBuf := nameBuf st;
       foundColon := foundColon st; quoteStart := true;
       qualifiedColumns := qualifiedColumns st; found := found st |}
  else if quoteStart st then
    {| newSQL := (newSQL st ++ EncodeRune r)%list; nameBuf := nameBuf st;
       foundColon := foundColon st; quoteStart := quoteStart st;
       qualifiedColumns := qualifiedColumns st; found := found st |}
  else if (r =? 39) && quoteStart st then
    {| newSQL := (newSQL st ++ EncodeRune r)%list; nameBuf := nameBuf st;
       foundColon := foundColon st; quoteStart := false;
       qualifiedColumns := qualifiedColumns st; found := found st |}
  else if r =? runeOf namedArgStartByte then
    {| newSQL := (newSQL st ++ [placeHolderByte])%list;
       nameBuf := (nameBuf st ++ [namedArgStartByte])%list;
       foundColon := true; quoteStart := quoteStart st;
       qualifiedColumns := qualifiedColumns st; found := found st |}
  else if isNotNamedArgSeperator r && foundColon st then
    let named := (1 <? length (nameBuf st))%nat in
    {| newSQL := (newSQL st ++ EncodeRune r)%list; nameBuf := [];
       foundColon := false; quoteStart := quoteStart st;
       qualifiedColumns := if named then (qualifiedColumns st ++ [nameBuf st])%list
                           else qualifiedColumns st;
       found := if named then true else found st |}
  else if foundColon st then
    {| newSQL := newSQL st; nameBuf := (nameBuf st ++ EncodeRune r)%list;
       foundColon := foundColon st; quoteStart := quoteStart st;
       qualifiedColumns := qualifiedColumns st; found := found st |}
  else
    {| newSQL := (newSQL st ++ EncodeRune r)%list; nameBuf := nameBuf st;
       foundColon := foundColon st; quoteStart := quoteStart st;
       qualifiedColumns := qualifiedColumns st; found := found st |}.

Fixpoint extractLoop (fuel : nat) (sql : list byte) (pos : nat) (st : extractState)
  : option extractState :=
  if (pos <? length sql)%nat then
    match fuel with
    | O => None
    | S fuel =>
        let (r, w) := DecodeRune (drop pos sql) in
        extractLoop fuel sql (pos + w)%nat (extractStep r st)
    end
  else Some st.

(** [extractReplaceNamedArgs]: the new statement, the names and [found].
    The buffer taken from the pool is empty. *)
Definition extractReplaceNamedArgs (sql : list byte) (qualifiedColumns0 : list (list byte))
  : option (list byte * list (list byte) * bool) :=
  match IndexByte sql namedArgStartByte with
  | None => Some (sql, qualifiedColumns0, false)
  | Some _ =>
      let st0 := {| newSQL := []; nameBuf := []; foundColon := false; quoteStart := false;
                    qualifiedColumns := qualifiedColumns0; found := false |} in
      match extractLoop (length sql) sql 0 st0 with
      | Some st => Some (newSQL st, qualifiedColumns st, found st)
      | None => None
      end
  end.

(** [strings.IndexRune] for a rune below 0x80, the only kind it is called
    with here: the library searches the byte. *)
Definition IndexRune (s : list byte) (r : Z) : option nat :=
  match Byte.of_N (Z.to_N r) with
  | Some c => IndexByte s c
  | None => None
  end.

(** The loop of [writeInterpolate] and of its copy [writeInterpolateBytes].
    An index of -1 is [None]: [pos += p + 1] then leaves [pos] as it is, and
    [sql[pos : pos+w]] is out of range. *)
Fixpoint interpolateLoop (fuel : nat) (sql : list byte) (args : list argument)
    (pos phCounter : nat) (buf : list byte) : option (result (list byte)) :=
  if (pos <? length sql)%nat then
    match fuel with
    | O => None
    | S fuel =>
        let (r, w) := DecodeRune (drop pos sql) in
        let pos := (pos + w)%nat in
        let argCount := length args in
        if (r =? placeHolderRune) && (0 <? argCount)%nat then
          match args !! phCounter with
          | Some a =>
              match writeTo a buf with
              | inl err => Some (Fail (WithStack err))
              | inr buf => interpolateLoop fuel sql args pos (S phCounter) buf
              end
          | None => interpolateLoop fuel sql args pos (S phCounter) buf
          end
        else if (r =? 96) || (r =? 39) || (r =? 34) then
          let p := IndexRune (drop pos sql) r in
          let r := if r =? 34 then 39 else r in
          let buf := (buf ++ EncodeRune r)%list in
          match p with
          | Some p =>
              match slice sql pos (pos + p) with
              | Some s =>
                  interpolateLoop fuel sql args (pos + p + 1)%nat phCounter
                    (buf ++ s ++ EncodeRune r)%list
              | None => Some Panicked
              end
          | None => interpolateLoop fuel sql args pos phCounter buf
          end
        else if r =? 91 then
          match IndexRune (drop pos sql) 93 with
          | Some w =>
              match slice sql pos (pos + w) with
              | Some col =>
                  interpolateLoop fuel sql args (pos + w + 1)%nat phCounter
                    (buf ++ EscapeIdent col)%list
              | None => Some Panicked
              end
          | None => Some Panicked
          end
        else
          match slice sql (pos - w) pos with
          | Some s => interpolateLoop fuel sql args pos phCounter (buf ++ s)%list
          | None => Some Panicked
          end
    end
  else Some (Ok buf).

(** [writeInterpolate]: the buffer after the call, or the error. *)
Definition writeInterpolate (buf sql : list byte) (args : list argument)
  : option (result (list byte)) :=
  let phCount := Count sql in
  let argCount := length args in
  if (0 <? argCount)%nat && negb (phCount =? argCount)%nat then
    Some (Fail (Newf Mismatch
                  "[dml] Number of place holders vs number of arguments do not match."))
  else interpolateLoop (length sql) sql args 0 0 buf.

(** The arguments written in turn, each followed by the text behind its
    place holder; the first error ends it. *)
Fixpoint writeAll (pairs : list (argument * list byte)) (buf : list byte)
  : result (list byte) :=
  match pairs with
  | [] => Ok buf
  | (a, seg) :: r =>
      match writeTo a buf with
      | inl err => Fail (WithStack err)
      | inr buf => writeAll r (buf ++ seg)%list
      end
  end.

(** The loop [for _, r := range placeHolder] of [isNamedArg]: [Some false]
    when it returns early. *)
Fixpoint rangeNamed (fuel : nat) (placeHolder : list byte) : option bool :=
  match placeHolder with
  | [] => Some true
  | _ :: _ =>
      match fuel with
      | O => None
      | S fuel =>
          let (r, w) := DecodeRune placeHolder in
          if isNotNamedArgSeperator r then Some false
          else rangeNamed fuel (drop w placeHolder)
      end
  end.

(** [isNamedArg]; [namedArgStartStr] is the colon as a string, of length
    one, so the prefix test looks at the first byte. *)
Definition isNamedArg (placeHolder : list byte) : option bool :=
  let placeHolder :=
    match placeHolder with
    | b :: r => if Byte.eqb b namedArgStartByte then r else placeHolder
    | [] => placeHolder
    end in
  rangeNamed (length placeHolder) placeHolder.

End WithUnicode.

(** What [expandPlaceHolders] amounts to byte by byte: the [i]-th place
    holder becomes the group of its argument, every other byte is kept. *)
Fixpoint expanded (sql : list byte) (args : list nat) (i : nat) : list byte :=
  match sql with
  | [] => []
  | b :: r =>
      if Byte.eqb b placeHolderByte then
        (match args !! i with Some reps => writeReps reps [] | None => [] end
         ++ expanded r args (S i))%list
      else b :: expanded r args i
  end.

End interpolate.

(** ** Sample collaborators

    Concrete helpers, servers and sinks on which the statements below are
    run. *)
Module sample.

(** Text helpers. *)
Fixpoint cutFirst (sep : ascii) (s : string) : option (string * string) :=
  match s with
  | EmptyString => None
  | String a r =>
      if bool_decide (a = sep) then Some (EmptyString, r)
      else match cutFirst sep r with
           | Some (x, y) => Some (String a x, y)
           | None => None
           end
  end.

Fixpoint cutLast (sep : ascii) (s : string) : option (string * string) :=
  match s with
  | EmptyString => None
  | String a r =>
      match cutLast sep r with
      | Some (x, y) => Some (String a x, y)
      | None => if bool_decide (a = sep) then Some (EmptyString, r) else None
      end
  end.

Fixpoint splitOn (sep : ascii) (s : string) : list string :=
  match s with
  | EmptyString => [EmptyString]
  | String a r =>
      if bool_decide (a = sep) then EmptyString :: splitOn sep r
      else match splitOn sep r with
           | x :: l => String a x :: l
           | [] => [String a EmptyString]
           end
  end.

Definition digit (a : ascii) : option N :=
  let n := Ascii.N_of_ascii a in
  if ((48 <=? n) && (n <=? 57))%N then Some (n - 48)%N else None.

Fixpoint parseDigits (s : string) (acc : N) : option N :=
  match s with
  | EmptyString => Some acc
  | String a r =>
      match digit a with
      | Some d => parseDigits r (10 * acc + d)%N
      | None => None
      end
  end.

(** Decimal text to a number; anything else reads as zero. *)
Definition ToUint (s : string) : N :=
  match s with
  | EmptyString => 0%N
  | _ => default 0%N (parseDigits s 0%N)
  end.
Definition ToInt (s : string) : Z :=
  match s with
  | String "-" r => - Z.of_N (ToUint r)
  | _ => Z.of_N (ToUint s)
  end.

Definition IsValidIdentifier (name : string) : option error :=
  if bool_decide (name = "") then Some (Newf NotValid "[dml] Incorrect identifier. Too long or empty")
  else None.

(** The file name followed by the offset in eight little-endian bytes. *)
Fixpoint littleEndian (n : nat) (x : N) : list byte :=
  match n with
  | O => []
  | S n' => default x00 (Byte.of_N (x mod 256)%N) :: littleEndian n' (x / 256)%N
  end.
Definition WriteTo (ms : ddl.MasterStatus) : list byte :=
  (list_byte_of_string (ddl.File ms) ++ littleEndian 8 (ddl.Position ms))%list.

(** [user:password@net(addr)/dbname?k=v&k=v], every parameter kept in
    [Params]. *)
Definition parseParams (s : string) : gmap string string :=
  foldl (fun m kv => match cutFirst "=" kv with
                     | Some (k, v) => <[k := v]> m
                     | None => m
                     end) ∅ (splitOn "&" s).

Definition dropLast (s : string) : string :=
  String.substring 0 (String.length s - 1) s.

Definition ParseDSN (dsn : string) : error + mysql.Config :=
  match cutLast "/" dsn with
  | None => inl (Newf NoKind "invalid DSN: missing the slash separating the database name")
  | Some (front, back) =>
      let (dbname, params) :=
        match cutFirst "?" back with
        | Some (d, q) => (d, Some (parseParams q))
        | None => (back, None)
        end in
      let (userpass, netaddr) :=
        match cutLast "@" front with
        | Some (u, n) => (u, n)
        | None => (EmptyString, front)
        end in
      let (user, pass) :=
        match cutFirst ":" userpass with
        | Some (u, w) => (u, w)
        | None => (userpass, EmptyString)
        end in
      let (net, addr) :=
        match cutFirst "(" netaddr with
        | Some (n, a) => (n, dropLast a)
        | None => (netaddr, EmptyString)
        end in
      inr {| mysql.User := user; mysql.Passwd := pass; mysql.Net := net;
             mysql.Addr := addr; mysql.DBName := dbname; mysql.Params := params |}
  end.

Definition FormatDSN (c : mysql.Config) : string :=
  let params :=
    match mysql.Params c with
    | Some m =>
        foldl (fun acc kv => acc +:+ (if bool_decide (acc = "") then "?" else "&")
                                 +:+ fst kv +:+ "=" +:+ snd kv)
              "" (map_to_list m)
    | None => ""
    end in
  mysql.User c +:+ ":" +:+ mysql.Passwd c +:+ "@" +:+ mysql.Net c +:+
  "(" +:+ mysql.Addr c +:+ ")/" +:+ mysql.DBName c +:+ params.

Definition SplitHostPort (addr : string) : error + string * string :=
  match cutLast ":" addr with
  | Some hp => inr hp
  | None => inl (Newf NoKind "missing port in address")
  end.

(** A server with one table [t], ROW format and the FULL row image. *)
Definition columnsOfT : list ddl.Column :=
  [ {| ddl.Field := "id"; ddl.ColumnType := "int(10) unsigned"; ddl.Null := "NO"; ddl.Key := "PRI" |};
    {| ddl.Field := "name"; ddl.ColumnType := "varchar(64)"; ddl.Null := "YES"; ddl.Key := "" |} ].

Definition unknownTable : error := Newf NoKind "Error 1146: Table doesn't exist".
Definition connectionLost : error := Newf NoKind "invalid connection".
Definition sinkDown : error := Newf Fatal "sink unavailable".

Definition server : ddl.DB :=
  {| ddl.showCreateTable := fun n =>
       if bool_decide (n = "t") then inr "CREATE TABLE `t` (`id` int(10) unsigned NOT NULL, `name` varchar(64))"
       else inl unknownTable;
     ddl.informationSchemaColumns := fun names =>
       inr (if bool_decide ("t" ∈ names) then {[ "t" := columnsOfT ]} else ∅);
     ddl.execCreate := fun _ _ => None;
     ddl.showMasterStatus :=
       inr {| ddl.File := "bin.000009"; ddl.Position := 1234%N; ddl.ExecutedGTIDSet := "" |};
     ddl.showVariables := fun n =>
       inr (if bool_decide (n = "binlog_format") then {[ "binlog_format" := "ROW" ]}
            else if bool_decide (n = "binlog_row_image") then {[ "binlog_row_image" := "FULL" ]}
            else ∅);
     ddl.closeError := None;
     ddl.queries := [];
     ddl.closes := 0%nat |}.

(** The same server, but loading columns fails. *)
Definition serverLosingConnection : ddl.DB :=
  {| ddl.showCreateTable := ddl.showCreateTable server;
     ddl.informationSchemaColumns := fun _ => inl connectionLost;
     ddl.execCreate := ddl.execCreate server;
     ddl.showMasterStatus := ddl.showMasterStatus server;
     ddl.showVariables := ddl.showVariables server;
     ddl.closeError := Some connectionLost;
     ddl.queries := [];
     ddl.closes := 0%nat |}.

Definition Dial (dsn : string) : error + ddl.DB := inr server.

(** The table [t] as loaded from [server]. *)
Definition tableT : ddl.Table :=
  {| ddl.Schema := ""; ddl.Name := "t"; ddl.Columns := columnsOfT;
     ddl.CreateSyntax := "CREATE TABLE `t` (`id` int(10) unsigned NOT NULL, `name` varchar(64))";
     ddl.IsView := false |}.

Definition goodSink : config.Setter :=
  {| config.setResult := fun _ _ _ => None; config.calls := [] |}.
Definition failingSink : config.Setter :=
  {| config.setResult := fun _ _ _ => Some sinkDown; config.calls := [] |}.

(** The DSN of the scenario and what [mysql.ParseDSN] makes of it. *)
Definition scenarioDSN : string :=
  "user:pass@tcp(host:3306)/shop?BinlogStartFile=bin.000005&BinlogStartPosition=4&BinlogSlaveId=101".
Definition scenarioParams : gmap string string :=
  <["BinlogStartFile" := "bin.000005"]>
    (<["BinlogStartPosition" := "4"]> (<["BinlogSlaveId" := "101"]> ∅)).
Definition scenarioConfig : mysql.Config :=
  {| mysql.User := "user"; mysql.Passwd := "pass"; mysql.Net := "tcp";
     mysql.Addr := "host:3306"; mysql.DBName := "shop";
     mysql.Params := Some scenarioParams |}.

(** The configuration of the scenario at another address. *)
Definition configAt (addr : string) : mysql.Config :=
  {| mysql.User := "user"; mysql.Passwd := "pass"; mysql.Net := "tcp";
     mysql.Addr := addr; mysql.DBName := "shop";
     mysql.Params := Some scenarioParams |}.

(** An instant of the year 2026, in nanoseconds since the zero time. *)
Definition T0 : time.Time := 63900000000 * time.Second.

(** Ten saves, ten milliseconds apart. *)
Definition tenSaves : list (string * N * time.Time) :=
  map (fun i => ("bin.000001", (4 + 100 * N.of_nat i)%N,
                 T0 + Z.of_nat i * 10 * time.Millisecond)) (seq 0 10).

(** Two goroutines taking turns. *)
Definition raceSchedule : list nat := concat (replicate 12 [0%nat; 1%nat]).

(** Two goroutines: the second enters the group while the call of the first
    is in flight. *)
Definition joinSchedule : list nat := [0; 1; 0; 1; 0; 0; 1]%nat.

(** Two goroutines: the second misses the cache first, and enters the group
    only after the first has handed over its result. *)
Definition lateSchedule : list nat := [1; 0; 0; 0; 0; 1; 1; 1]%nat.

(** [utf8.DecodeRune] as the Go library defines it: the rune and its width,
    [RuneError] with width 1 for a sequence that is not UTF-8, and width 0
    for no bytes at all. *)
Definition RuneError : Z := 65533.

Definition between (lo hi : N) (b : byte) : bool :=
  ((lo <=? Byte.to_N b) && (Byte.to_N b <=? hi))%N.

Definition DecodeRune (p : list byte) : Z * nat :=
  match p with
  | [] => (RuneError, 0%nat)
  | b0 :: p1 =>
      let n0 := Byte.to_N b0 in
      if (n0 <? 128)%N then (Z.of_N n0, 1%nat)
      else if between 194 223 b0 then
        match p1 with
        | b1 :: _ =>
            if between 128 191 b1
            then (Z.of_N ((n0 mod 32) * 64 + Byte.to_N b1 mod 64), 2%nat)
            else (RuneError, 1%nat)
        | _ => (RuneError, 1%nat)
        end
      else if between 224 239 b0 then
        match p1 with
        | b1 :: b2 :: _ =>
            let lo := if (n0 =? 224)%N then 160%N else 128%N in
            let hi := if (n0 =? 237)%N then 159%N else 191%N in
            if between lo hi b1 && between 128 191 b2
            then (Z.of_N ((n0 mod 16) * 4096 + (Byte.to_N b1 mod 64) * 64 +
                          Byte.to_N b2 mod 64), 3%nat)
            else (RuneError, 1%nat)
        | _ => (RuneError, 1%nat)
        end
      else if between 240 244 b0 then
        match p1 with
        | b1 :: b2 :: b3 :: _ =>
            let lo := if (n0 =? 240)%N then 144%N else 128%N in
            let hi := if (n0 =? 244)%N then 143%N else 191%N in
            if between lo hi b1 && between 128 191 b2 && between 128 191 b3
            then (Z.of_N ((n0 mod 8) * 262144 + (Byte.to_N b1 mod 64) * 4096 +
                          (Byte.to_N b2 mod 64) * 64 + Byte.to_N b3 mod 64), 4%nat)
            else (RuneError, 1%nat)
        | _ => (RuneError, 1%nat)
        end
      else (RuneError, 1%nat)
  end.

(** The bytes that [WriteRune] appends: the UTF-8 encoding of the rune. *)
Definition byteOf (n : N) : byte := default x00 (Byte.of_N n).

Definition EncodeRune (r : Z) : list byte :=
  let n := Z.to_N r in
  if (r <? 0) || (1114111 <? r) || ((55296 <=? r) && (r <=? 57343)) then [xef; xbf; xbd]
  else if (n <? 128)%N then [byteOf n]
  else if (n <? 2048)%N then [byteOf (192 + n / 64); byteOf (128 + n mod 64)]
  else if (n <? 65536)%N then
    [byteOf (224 + n / 4096); byteOf (128 + (n / 64) mod 64); byteOf (128 + n mod 64)]
  else
    [byteOf (240 + n / 262144); byteOf (128 + (n / 4096) mod 64);
     byteOf (128 + (n / 64) mod 64); byteOf (128 + n mod 64)].

(** [unicode.IsLetter] and [unicode.IsDigit] on ASCII; the runes outside
    ASCII are left out. *)
Definition IsLetter (r : Z) : bool :=
  (65 <=? r) && (r <=? 90) || (97 <=? r) && (r <=? 122).
Definition IsDigit (r : Z) : bool := (48 <=? r) && (r <=? 57).

(** An argument that knows the bytes it writes, or the error it fails
    with; identifiers are quoted with backticks. *)
Definition argument : Type := (list byte + error)%type.
Definition writeTo (a : argument) (buf : list byte) : error + list byte :=
  match a with
  | inl text => inr (buf ++ text)%list
  | inr err => inl err
  end.
Definition EscapeIdent (col : list byte) : list byte := (x60 :: col ++ [x60])%list.

End sample.

(** ** Package [binlogsync]: the client *)
Module binlogsync.
Import ddl.

Definition MySQLFlavor : string := "mysql".
Definition MariaDBFlavor : string := "mariadb".

Definition ConfigPathBackendPosition : string := "sql/binlogsync/master_position".

Definition customMySQLParams : list string :=
  ["BinlogStartFile"; "BinlogStartPosition"; "BinlogSlaveId"; "flavor"].

(** The [Canal] struct.  [mclose], [masterMu] and [rsMu] are locks without a
    state of their own in a sequential run; [syncerCloses] counts the calls
    of [syncer.Close], which the struct forgets when it sets [syncer] to
    nil.  [dbcp] and [syncer] are pointers and may be nil. *)
Record Canal : Type := {
  dsn : mysql.Config;
  canalParams : gmap string string;
  cfgBackend : option config.Setter;
  masterStatus : MasterStatus;
  masterLastSaveTime : time.Time;
  syncer : option myreplicator.BinlogSyncer;
  syncerCloses : nat;
  dbcp : option dml.ConnPool;
  tables : Tables;
  closed : Z;   (* int32 *)
  log : log.Logger;
  wg : sync.WaitGroup
}.

Definition zeroMasterStatus : MasterStatus :=
  {| File := ""; Position := 0%N; ExecutedGTIDSet := "" |}.

(** [new(Canal)]. *)
Definition newCanal : Canal :=
  {| dsn := mysql.zero; canalParams := ∅; cfgBackend := None;
     masterStatus := zeroMasterStatus; masterLastSaveTime := time.zero;
     syncer := None; syncerCloses := 0%nat; dbcp := None;
     tables := {| Tables_Schema := ""; tm := ∅ |}; closed := 0;
     log := log.BlackHole; wg := sync.zero |}.

Definition set_dsn (x : mysql.Config) (c : Canal) : Canal :=
  {| dsn := x; canalParams := canalParams c; cfgBackend := cfgBackend c;
     masterStatus := masterStatus c; masterLastSaveTime := masterLastSaveTime c;
     syncer := syncer c; syncerCloses := syncerCloses c; dbcp := dbcp c;
     tables := tables c; closed := closed c; log := log c; wg := wg c |}.
Definition set_canalParams (x : gmap string string) (c : Canal) : Canal :=
  {| dsn := dsn c; canalParams := x; cfgBackend := cfgBackend c;
     masterStatus := masterStatus c; masterLastSaveTime := masterLastSaveTime c;
     syncer := syncer c; syncerCloses := syncerCloses c; dbcp := dbcp c;
     tables := tables c; closed := closed c; log := log c; wg := wg c |}.
Definition set_cfgBackend (x : option config.Setter) (c : Canal) : Canal :=
  {| dsn := dsn c; canalParams := canalParams c; cfgBackend := x;
     masterStatus := masterStatus c; masterLastSaveTime := masterLastSaveTime c;
     syncer := syncer c; syncerCloses := syncerCloses c; dbcp := dbcp c;
     tables := tables c; closed := closed c; log := log c; wg := wg c |}.
Definition set_masterStatus (x : MasterStatus) (c : Canal) : Canal :=
  {| dsn := dsn c; canalParams := canalParams c; cfgBackend := cfgBackend c;
     masterStatus := x; masterLastSaveTime := masterLastSaveTime c;
     syncer := syncer c; syncerCloses := syncerCloses c; dbcp := dbcp c;
     tables := tables c; closed := closed c; log := log c; wg := wg c |}.
Definition set_masterLastSaveTime (x : time.Time) (c : Canal) : Canal :=
  {| dsn := dsn c; canalParams := canalParams c; cfgBackend := cfgBackend c;
     masterStatus := masterStatus c; masterLastSaveTime := x;
     syncer := syncer c; syncerCloses := syncerCloses c; dbcp := dbcp c;
     tables := tables c; closed := closed c; log := log c; wg := wg c |}.
Definition set_syncer (x : option myreplicator.BinlogSyncer) (n : nat) (c : Canal) : Canal :=
  {| dsn := dsn c; canalParams := canalParams c; cfgBackend := cfgBackend c;
     masterStatus := masterStatus c; masterLastSaveTime := masterLastSaveTime c;
     syncer := x; syncerCloses := n; dbcp := dbcp c;
     tables := tables c; closed := closed c; log := log c; wg := wg c |}.
Definition set_dbcp (x : option dml.ConnPool) (c : Canal) : Canal :=
  {| dsn := dsn c; canalParams := canalParams c; cfgBackend := cfgBackend c;
     masterStatus := masterStatus c; masterLastSaveTime := masterLastSaveTime c;
     syncer := syncer c; syncerCloses := syncerCloses c; dbcp := x;
     tables := tables c; closed := closed c; log := log c; wg := wg c |}.
Definition set_tables (x : Tables) (c : Canal) : Canal :=
  {| dsn := dsn c; canalParams := canalParams c; cfgBackend := cfgBackend c;
     masterStatus := masterStatus c; masterLastSaveTime := masterLastSaveTime c;
     syncer := syncer c; syncerCloses := syncerCloses c; dbcp := dbcp c;
     tables := x; closed := closed c; log := log c; wg := wg c |}.
Definition set_closed (x : Z) (c : Canal) : Canal :=
  {| dsn := dsn c; canalParams := canalParams c; cfgBackend := cfgBackend c;
     masterStatus := masterStatus c; masterLastSaveTime := masterLastSaveTime c;
     syncer := syncer c; syncerCloses := syncerCloses c; dbcp := dbcp c;
     tables := tables c; closed := x; log := log c; wg := wg c |}.
Definition set_log (x : log.Logger) (c : Canal) : Canal :=
  {| dsn := dsn c; canalParams := canalParams c; cfgBackend := cfgBackend c;
     masterStatus := masterStatus c; masterLastSaveTime := masterLastSaveTime c;
     syncer := syncer c; syncerCloses := syncerCloses c; dbcp := dbcp c;
     tables := tables c; closed := closed c; log := x; wg := wg c |}.
Definition set_wg (x : sync.WaitGroup) (c : Canal) : Canal :=
  {| dsn := dsn c; canalParams := canalParams c; cfgBackend := cfgBackend c;
     masterStatus := masterStatus c; masterLastSaveTime := masterLastSaveTime c;
     syncer := syncer c; syncerCloses := syncerCloses c; dbcp := dbcp c;
     tables := tables c; closed := closed c; log := log c; wg := x |}.

Definition setFilePosition (f : string) (p : N) (ms : MasterStatus) : MasterStatus :=
  {| File := f; Position := p; ExecutedGTIDSet := ExecutedGTIDSet ms |}.
Definition setFile (f : string) (ms : MasterStatus) : MasterStatus :=
  {| File := f; Position := Position ms; ExecutedGTIDSet := ExecutedGTIDSet ms |}.
Definition setPosition (p : N) (ms : MasterStatus) : MasterStatus :=
  {| File := File ms; Position := p; ExecutedGTIDSet := ExecutedGTIDSet ms |}.

(** [Option]: a function that configures the client or fails. *)
Definition Option : Type := M Canal unit.

Definition logDebug (msg : string) : M Canal unit :=
  modify (fun c => set_log (log.write log.LDebug msg (log c)) c).
Definition logInfo (msg : string) : M Canal unit :=
  modify (fun c => set_log (log.write log.LInfo msg (log c)) c).

(** A statement sent over the pool of the client, with the server's
    answer; a nil pool panics. *)
Definition onPool {A} (m : M St A) : M Canal A :=
  fun c => match dbcp c with
           | None => (Panicked, c)
           | Some p =>
               let (r, s) := m (tables c, dml.DB p) in
               (r, set_tables (fst s) (set_dbcp (Some (dml.setDB (snd s) p)) c))
           end.

Definition flavor (c : Canal) : string :=
  let f := match canalParams c !! "flavor" with
           | Some v => if bool_decide (v = "") then "" else v
           | None => ""
           end in
  let f := if bool_decide (f = "") then MySQLFlavor else f in
  if bool_decide (f = MariaDBFlavor) then MariaDBFlavor else MySQLFlavor.

Definition isClosed (c : Canal) : bool := closed c =? 1.

(** [WithConfigurationSetter] and [WithLogger]. *)
Definition WithConfigurationSetter (s : option config.Setter) : Option :=
  modify (set_cfgBackend s).
Definition WithLogger (l : log.Logger) : Option :=
  modify (set_log l).

(** [Start]: one more worker in the wait group. *)
Definition Start : M Canal unit :=
  modify (fun c => set_wg (sync.Add 1 (wg c)) c).

(** [SyncedPosition]. *)
Definition SyncedPosition (c : Canal) : MasterStatus := masterStatus c.

(** [Close].  [mclose] is held from the first line to the return. *)
Definition Close : M Canal unit :=
  let* c := get in
  if isClosed c then ret tt
  else
    modify (set_closed 1) ;;;
    (match syncer c with
     | Some _ => modify (fun c => set_syncer None (S (syncerCloses c)) c)
     | None => ret tt
     end) ;;;
    let* c := get in
    match dbcp c with
    | None => panic
    | Some p =>
        let (e, p') := dml.Close p in
        modify (set_dbcp (Some p')) ;;;
        match e with
        | Some err => fail (WithStack err)
        | None => modify (fun c => set_wg (sync.Wait (wg c)) c)
        end
    end.

(** *** [Close] called from several goroutines

    Each goroutine runs the body of [Close] statement by statement; [mclose]
    is the mutex, held by at most one of them.  A goroutine that asks for a
    held mutex does not move. *)
Inductive pc : Type :=
| AtLock                      (* c.mclose.Lock() *)
| AtCheck                     (* if c.isClosed() { return nil } *)
| AtStore                     (* atomic.StoreInt32(c.closed, 1) *)
| AtSyncer                    (* if c.syncer != nil { c.syncer.Close(); c.syncer = nil } *)
| AtPool                      (* if err := c.dbcp.Close(); err != nil { return err } *)
| AtWait                      (* c.wg.Wait() *)
| AtUnlock (r : result unit)  (* the deferred c.mclose.Unlock() *)
| Returned (r : result unit).

Definition closeSyncer (c : Canal) : Canal :=
  match syncer c with
  | Some _ => set_syncer None (S (syncerCloses c)) c
  | None => c
  end.

(** One statement of the body, the mutex held. *)
Definition closeStep (p : pc) (c : Canal) : pc * Canal :=
  match p with
  | AtCheck => if isClosed c then (AtUnlock (Ok tt), c) else (AtStore, c)
  | AtStore => (AtSyncer, set_closed 1 c)
  | AtSyncer => (AtPool, closeSyncer c)
  | AtPool =>
      match dbcp c with
      | None => (AtUnlock Panicked, c)
      | Some pool =>
          let (e, pool') := dml.Close pool in
          match e with
          | Some err => (AtUnlock (Fail (WithStack err)), set_dbcp (Some pool') c)
          | None => (AtWait, set_dbcp (Some pool') c)
          end
      end
  | AtWait => (AtUnlock (Ok tt), set_wg (sync.Wait (wg c)) c)
  | _ => (p, c)
  end.

Record World : Type := {
  canal : Canal;
  mclose : option nat;
  goroutines : list pc
}.

Definition step (i : nat) (w : World) : World :=
  match goroutines w !! i with
  | Some AtLock =>
      match mclose w with
      | None => {| canal := canal w; mclose := Some i;
                   goroutines := <[i := AtCheck]> (goroutines w) |}
      | Some _ => w
      end
  | Some (AtUnlock r) =>
      {| canal := canal w; mclose := None;
         goroutines := <[i := Returned r]> (goroutines w) |}
  | Some (Returned _) | None => w
  | Some p =>
      let (p', c') := closeStep p (canal w) in
      {| canal := c'; mclose := mclose w; goroutines := <[i := p']> (goroutines w) |}
  end.

Definition run (schedule : list nat) (w : World) : World :=
  foldl (fun w i => step i w) w schedule.

Definition start (n : nat) (c : Canal) : World :=
  {| canal := c; mclose := None; goroutines := replicate n AtLock |}.

Definition allReturned (w : World) : Prop :=
  Forall (fun p => exists r, p = Returned r) (goroutines w).

(** What the rest of the body does from a statement on. *)
Definition finishWait (c : Canal) : result unit * Canal :=
  (Ok tt, set_wg (sync.Wait (wg c)) c).
Definition finishPool (c : Canal) : result unit * Canal :=
  match dbcp c with
  | None => (Panicked, c)
  | Some pool =>
      match fst (dml.Close pool) with
      | Some err => (Fail (WithStack err), set_dbcp (Some (snd (dml.Close pool))) c)
      | None => finishWait (set_dbcp (Some (snd (dml.Close pool))) c)
      end
  end.
Definition finishSyncer (c : Canal) : result unit * Canal := finishPool (closeSyncer c).
Definition finishStore (c : Canal) : result unit * Canal := finishSyncer (set_closed 1 c).
Definition finishCheck (c : Canal) : result unit * Canal :=
  if isClosed c then (Ok tt, c) else finishStore c.
Definition finish (p : pc) (c : Canal) : result unit * Canal :=
  match p with
  | AtCheck => finishCheck c
  | AtStore => finishStore c
  | AtSyncer => finishSyncer c
  | AtPool => finishPool c
  | AtWait => finishWait c
  | AtUnlock r => (r, c)
  | _ => (Ok tt, c)
  end.

Definition inBody (p : pc) : Prop :=
  match p with
  | AtLock | Returned _ => False
  | _ => True
  end.

(** The calls that reached the collaborators of a client. *)
Definition poolCloses (c : Canal) : nat :=
  match dbcp c with Some p => closes (dml.DB p) | None => 0%nat end.

(** The invariant of the goroutines that run [Close] on a client that
    started as [c0]: [win] is the goroutine that went through the body
    first, once it has returned. *)
Definition waiting (win : option nat) (p : pc) : Prop :=
  p = AtLock \/ (is_Some win /\ p = Returned (Ok tt)).

Definition Inv (c0 : Canal) (w : World) : Prop :=
  exists win : option nat,
    (forall k, win = Some k -> goroutines w !! k = Some (Returned (fst (Close c0)))) /\
    match mclose w with
    | None =>
        canal w = match win with None => c0 | Some _ => snd (Close c0) end /\
        forall j q, goroutines w !! j = Some q -> win <> Some j -> waiting win q
    | Some i =>
        win <> Some i /\
        exists p, goroutines w !! i = Some p /\ inBody p /\
                  finish p (canal w) =
                    match win with None => Close c0 | Some _ => (Ok tt, snd (Close c0)) end /\
                  forall j q, goroutines w !! j = Some q -> j <> i -> win <> Some j ->
                              waiting win q
    end.

(** [ClearTableCache]: the body is a comment. *)
Definition ClearTableCache (db table : string) : M Canal unit := ret tt.

(** Modelled from the spec: [singleflight.Group.Do] is not among the source
    files.  With no other call in flight for the key, [Do] runs the function
    and returns its result. *)
Definition singleflight_Do {A} (key : string) (fn : M Canal A) : M Canal A := fn.

Definition loadVariable (varName : string) : M Canal Variables :=
  let* data := withStack (onPool (send (QShowVariables varName) ;;;
                                  answer (fun d => showVariables d varName))) in
  ret {| Data := data |}.

(** [CheckBinlogRowImage]. *)
Definition CheckBinlogRowImage (image : string) : M Canal unit :=
  let varName := "binlog_row_image" in
  let* c := get in
  if bool_decide (flavor c = MySQLFlavor) then
    let* v := loadVariable varName in
    if EqualFold v varName image then
      fail (Newf NotSupported "[binlogsync] MySQL uses another binlog row image than we want")
    else ret tt
  else ret tt.

Definition withCheckBinlogRowFormat : Option :=
  let varName := "binlog_format" in
  let* v := loadVariable varName in
  if negb (EqualFold v varName "ROW") then
    fail (Newf NotSupported "[binlogsync] binlog variable must have the configured ROW format")
  else ret tt.

(** Sample clients. *)
Definition withSink (s : config.Setter) : Canal := set_cfgBackend (Some s) newCanal.
Definition onServer (d : DB) : Canal :=
  set_dbcp (Some {| dml.DB := d; dml.poolDSN := "" |}) newCanal.

(** A client with a syncer and one running worker. *)
Definition streaming (d : DB) : Canal :=
  snd (Start (set_syncer
                (Some (myreplicator.NewBinlogSyncer
                         {| myreplicator.ServerID := 100; myreplicator.Flavor := MySQLFlavor;
                            myreplicator.Host := "host"; myreplicator.Port := 3306;
                            myreplicator.User := "user"; myreplicator.Password := "pass" |}))
                0%nat (onServer d))).

Section WithHelpers.

(** Functions of other packages that are not among the source files. *)
Variable WriteTo : MasterStatus -> list byte.          (* MasterStatus.WriteTo *)
Variable IsValidIdentifier : string -> option error.    (* dml.IsValidIdentifier *)
Variable ToUint : string -> N.                          (* conv.ToUint *)
Variable ToInt : string -> Z.                           (* conv.ToInt *)
Variable ParseDSN : string -> error + mysql.Config.     (* mysql.ParseDSN *)
Variable FormatDSN : mysql.Config -> string.            (* Config.FormatDSN *)
Variable SplitHostPort : string -> error + string * string. (* net.SplitHostPort *)
Variable Dial : string -> error + DB.   (* open a connection for a DSN and ping *)

(** [masterSave]; [now] is what [time.Now()] returns. *)
Definition masterSave (fileName : string) (pos : N) (now : time.Time) : M Canal unit :=
  modify (fun c => set_masterStatus (setFilePosition fileName pos (masterStatus c)) c) ;;;
  let* c := get in
  if time.Sub now (masterLastSaveTime c) <? time.Second then ret tt
  else
    match cfgBackend c with
    | None =>
        (if log.IsDebug (log c)
         then logDebug "[binlogsync] Warning: Master Status cannot be saved because config.Setter is nil"
         else ret tt)
    | Some s =>
        let buf := WriteTo (masterStatus c) in
        let (e, s') := config.Setter_Set s ConfigPathBackendPosition buf in
        modify (set_cfgBackend (Some s')) ;;;
        match e with
        | Some err =>
            (if log.IsInfo (log c)
             then logInfo "[binlogsync] Failed to store Master Status"
             else ret tt) ;;;
            fail (WithStack err)
        | None => modify (set_masterLastSaveTime now)
        end
    end.

(** The function that [FindTable] hands to [singleflight.Group.Do]. *)
Definition loadTable (tableName : string) : M Canal Table :=
  withStack (onPool (Options [WithCreateTable IsValidIdentifier true [tableName; ""]])) ;;;
  let* c := get in
  match Tables_Table tableName (tables c) with
  | inl err => fail (WithStack err)
  | inr t => ret t
  end.

(** [FindTable]. *)
Definition FindTable (tableName : string) : M Canal Table :=
  let* c := get in
  match Tables_Table tableName (tables c) with
  | inr t => ret t
  | inl err =>
      if negb (Is err NotFound) then fail (WithStack err)
      else withStack (singleflight_Do tableName (loadTable tableName))
  end.

(** *** [FindTable] called from several goroutines

    [singleflight.Group] is not among the source files.  The spec
    describes the textbook pattern: the key is the table name, a call
    that finds a call for its key in flight waits for it and gets its result,
    a call that finds none runs the function itself, and the result is
    broadcast, not kept for later calls.

    A goroutine takes these steps: the lookup in the map (under the read
    lock of [Tables]); the entry into [Do] (under the mutex of the group),
    where it joins the call in flight or starts its own; for the one that
    started it, the function (the write lock of [Tables] is held while the
    option runs) and then the hand-over of the result, which removes the key
    from the group; for the others, the wait for that result. *)
Inductive fpc : Type :=
| FLookup                                  (* t, err := c.tables.Table(tableName) *)
| FDo                                      (* c.tableSFG.Do(tableName, ...) *)
| FLeading (call : nat)                    (* fn() of the call it started *)
| FPublishing (call : nat) (r : result Table)  (* hand over the result, forget the key *)
| FWaiting (call : nat)                    (* wait for the call in flight *)
| FReturned (r : result Table).

(** [if err != nil { return dt, errors.WithStack(err) }; return val, nil]. *)
Definition afterDo (r : result Table) : result Table :=
  match r with
  | Fail e => Fail (WithStack e)
  | _ => r
  end.

Record Racing : Type := {
  client : Canal;
  inflight : option nat;                    (* the call of the key in the group *)
  flights : list (option (result Table));   (* the calls started so far, with their results *)
  callers : list fpc
}.

(** Modelled from the spec: the steps [FDo], [FPublishing] and [FWaiting]
    stand for [singleflight.Group.Do], which is not among the source files;
    [FLookup] and [FLeading] are the code of [FindTable]. *)
Definition fstep (t : string) (i : nat) (w : Racing) : Racing :=
  match callers w !! i with
  | Some FLookup =>
      let q := match Tables_Table t (tables (client w)) with
               | inr tbl => FReturned (Ok tbl)
               | inl err => if negb (Is err NotFound) then FReturned (Fail (WithStack err))
                            else FDo
               end in
      {| client := client w; inflight := inflight w; flights := flights w;
         callers := <[i := q]> (callers w) |}
  | Some FDo =>
      match inflight w with
      | Some k =>
          {| client := client w; inflight := inflight w; flights := flights w;
             callers := <[i := FWaiting k]> (callers w) |}
      | None =>
          {| client := client w; inflight := Some (length (flights w));
             flights := (flights w ++ [None])%list;
             callers := <[i := FLeading (length (flights w))]> (callers w) |}
      end
  | Some (FLeading k) =>
      let (r, c') := loadTable t (client w) in
      {| client := c'; inflight := inflight w; flights := flights w;
         callers := <[i := FPublishing k r]> (callers w) |}
  | Some (FPublishing k r) =>
      {| client := client w; inflight := None;
         flights := <[k := Some r]> (flights w);
         callers := <[i := FReturned (afterDo r)]> (callers w) |}
  | Some (FWaiting k) =>
      match flights w !! k with
      | Some (Some r) =>
          {| client := client w; inflight := inflight w; flights := flights w;
             callers := <[i := FReturned (afterDo r)]> (callers w) |}
      | _ => w
      end
  | Some (FReturned _) | None => w
  end.

Definition frun (t : string) (schedule : list nat) (w : Racing) : Racing :=
  foldl (fun w i => fstep t i w) w schedule.

Definition fstart (n : nat) (c : Canal) : Racing :=
  {| client := c; inflight := None; flights := []; callers := replicate n FLookup |}.

Definition allFound (w : Racing) : Prop :=
  Forall (fun q => exists r, q = FReturned r) (callers w).

(** A goroutine that runs, or has run, the function of its own call. *)
Definition leading (q : fpc) : Prop :=
  match q with
  | FLeading _ | FPublishing _ _ => True
  | _ => False
  end.

Definition past (q : fpc) : nat :=
  match q with
  | FPublishing _ _ | FReturned _ => 1%nat
  | _ => 0%nat
  end.

(** A goroutine that has started a call and not yet run its function. *)
Definition starting (q : fpc) : nat :=
  match q with
  | FLeading _ => 1%nat
  | _ => 0%nat
  end.

(** [WithMySQL]. *)
Definition WithMySQL : Option :=
  let* c := get in
  match Dial (FormatDSN (dsn c)) with
  | inl err => fail (WithStack err)
  | inr d => modify (set_dbcp (Some {| dml.DB := d; dml.poolDSN := FormatDSN (dsn c) |}))
  end.

Definition withUpdateBinlogStart : Option :=
  let* ms := withStack (onPool (send QShowMasterStatus ;;;
                                answer (fun d => showMasterStatus d))) in
  modify (set_masterStatus ms) ;;;
  let* c := get in
  (match canalParams c !! "BinlogStartFile" with
   | Some v => if bool_decide (v = "") then ret tt
               else modify (fun c => set_masterStatus (setFile v (masterStatus c)) c)
   | None => ret tt
   end) ;;;
  (match canalParams c !! "BinlogStartPosition" with
   | Some v => if bool_decide (v = "") then ret tt
               else
                 let hasPos := ToUint v in
                 if (4 <=? hasPos)%N
                 then modify (fun c => set_masterStatus (setPosition hasPos (masterStatus c)) c)
                 else ret tt
   | None => ret tt
   end).

Definition Wrapf (e : error) (msg : string) : error :=
  Newf (kind e) (msg +:+ ": " +:+ message e).

Definition withPrepareSyncer : Option :=
  let* c := get in
  match SplitHostPort (mysql.Addr (dsn c)) with
  | inl err => fail (Wrapf err "[binlogsync] withPrepareSyncer SplitHostPort")
  | inr (host, port) =>
      let blSlaveID :=
        match canalParams c !! "BinlogSlaveId" with
        | Some v => if bool_decide (v = "") then 100 else ToInt v
        | None => 100
        end in
      let cfg := {| myreplicator.ServerID := blSlaveID mod 2 ^ 32;
                    myreplicator.Flavor := flavor c;
                    myreplicator.Host := host;
                    myreplicator.Port := ToInt port mod 2 ^ 16;
                    myreplicator.User := mysql.User (dsn c);
                    myreplicator.Password := mysql.Passwd (dsn c) |} in
      modify (fun c => set_syncer (Some (myreplicator.NewBinlogSyncer cfg)) (syncerCloses c) c)
  end.

(** The loop of [NewCanal] over [customMySQLParams]. *)
Definition moveParam (p : string) (st : gmap string string * gmap string string)
  : gmap string string * gmap string string :=
  let (params, own) := st in
  match params !! p with
  | Some v => if bool_decide (v = "") then st
              else (delete p params, <[p := v]> own)
  | None => st
  end.

Definition stripParams (c : Canal) : Canal :=
  match mysql.Params (dsn c) with
  | None => c
  | Some params =>
      let (params', own) := foldl (fun st p => moveParam p st) (params, ∅) customMySQLParams in
      set_canalParams own (set_dsn (mysql.setParams (Some params') (dsn c)) c)
  end.

Fixpoint applyOpts (opts : list Option) : M Canal unit :=
  match opts with
  | [] => ret tt
  | opt :: r => withStack opt ;;; applyOpts r
  end.

(** [NewCanal]. *)
Definition NewCanal (dsn : string) (db : Option) (opts : list Option) : result Canal :=
  match ParseDSN dsn with
  | inl err => Fail (WithStack err)
  | inr pDSN =>
      let c := set_closed 0 (set_dsn pDSN newCanal) in
      let c := stripParams c in
      let c := set_tables (setSchema (mysql.DBName (binlogsync.dsn c)) MustNewTables) c in
      let c := set_log log.BlackHole c in
      let opts2 := ([db] ++ opts ++
                    [withUpdateBinlogStart; withPrepareSyncer; withCheckBinlogRowFormat])%list in
      match applyOpts opts2 c with
      | (Ok _, c') => Ok c'
      | (Fail e, _) => Fail e
      | (Panicked, _) => Panicked
      end
  end.

(** A sequence of [Save] calls whose caller goes on after an error. *)
Fixpoint saveAll (saves : list (string * N * time.Time)) (c : Canal) : Canal :=
  match saves with
  | [] => c
  | (f, p, now) :: r => saveAll r (snd (masterSave f p now c))
  end.

(** What the sink of a client has received. *)
Definition sinkWrites (c : Canal) : nat :=
  match cfgBackend c with Some s => config.writes s | None => 0%nat end.
Definition sinkStored (c : Canal) : nat :=
  match cfgBackend c with Some s => config.storedWrites s | None => 0%nat end.
Definition neverFails (s : config.Setter) : Prop :=
  forall h p v, config.setResult s h p v = None.

(** The number of column loads the server behind the pool has executed. *)
Definition loadCount (c : Canal) : nat :=
  match dbcp c with Some p => loads (dml.DB p) | None => 0%nat end.

(** The master status after [withUpdateBinlogStart]: the status of the
    server, with the file and the offset of the parameters laid over it. *)
Definition seededStatus (params : gmap string string) (ms : MasterStatus) : MasterStatus :=
  let ms1 := match params !! "BinlogStartFile" with
             | Some v => if bool_decide (v = "") then ms else setFile v ms
             | None => ms
             end in
  match params !! "BinlogStartPosition" with
  | Some v => if bool_decide (v = "") then ms1
              else if (4 <=? ToUint v)%N then setPosition (ToUint v) ms1 else ms1
  | None => ms1
  end.

(** The client that [NewCanal] hands to its options. *)
Definition prepared (pDSN : mysql.Config) : Canal :=
  let c := set_closed 0 (set_dsn pDSN newCanal) in
  let c := stripParams c in
  let c := set_tables (setSchema (mysql.DBName (dsn c)) MustNewTables) c in
  set_log log.BlackHole c.

(** *** The invariant of racing [FindTable] calls *)

(** The table as loaded. *)
Definition loadedOf (t : string) (c0 : Canal) (stmt : string)
    (tc : gmap string (list Column)) : Table :=
  update (setSchemaColumns (Tables_Schema (tables c0)) (default [] (tc !! t))
            (setCreateSyntax stmt (NewTable t))).

(** The client still talks to a server with these answers. *)
Definition goodOf (t : string) (c0 : Canal) (stmt : string)
    (tc : gmap string (list Column)) (x : Canal) : Prop :=
  exists pool, dbcp x = Some pool /\
    showCreateTable (dml.DB pool) t = inr stmt /\
    informationSchemaColumns (dml.DB pool) [t] = inr tc /\
    Tables_Schema (tables x) = Tables_Schema (tables c0).

(** What the invariant asks of one goroutine. *)
Definition callerOkOf (t : string) (c0 : Canal) (stmt : string)
    (tc : gmap string (list Column)) (w : Racing) (q : fpc) : Prop :=
  match q with
  | FLeading k => inflight w = Some k
  | FPublishing k r =>
      inflight w = Some k /\ r = Ok (loadedOf t c0 stmt tc) /\ (loadCount c0 < loadCount (client w))%nat
  | FReturned r => r = Ok (loadedOf t c0 stmt tc) /\ (loadCount c0 < loadCount (client w))%nat
  | _ => True
  end.

Definition FInvOf (t : string) (c0 : Canal) (stmt : string)
    (tc : gmap string (list Column)) (w : Racing) : Prop :=
  goodOf t c0 stmt tc (client w) /\
  (loadCount c0 <= loadCount (client w))%nat /\
  (tm (tables (client w)) !! t = None \/
   tm (tables (client w)) !! t = Some (loadedOf t c0 stmt tc) /\ (loadCount c0 < loadCount (client w))%nat) /\
  (forall k r, flights w !! k = Some (Some r) ->
               r = Ok (loadedOf t c0 stmt tc) /\ (loadCount c0 < loadCount (client w))%nat) /\
  (forall j q, callers w !! j = Some q -> callerOkOf t c0 stmt tc w q) /\
  (forall j j' q q', callers w !! j = Some q -> callers w !! j' = Some q' ->
                     leading q -> leading q' -> j = j') /\
  (loadCount (client w) <= loadCount c0 + sum_list (past <$> callers w))%nat /\
  (loadCount (client w) + sum_list (starting <$> callers w) =
   loadCount c0 + length (flights w))%nat.

(** ** Properties *)

Ltac mrun :=
  cbv beta delta [bind ret fail panic modify get put catch withStack logDebug logInfo
                  singleflight_Do check send answer onTables] iota.

(** *** The position tracker *)

Lemma Sub_lt_Second (t u : time.Time) :
  time.Sub t u < time.Second <-> t - u < time.Second.
Proof.
  unfold time.Sub, time.minDuration, time.maxDuration, time.Second.
  destruct (Z.ltb_spec (t - u) (- 2 ^ 63)); [lia|].
  destruct (Z.ltb_spec (2 ^ 63 - 1) (t - u)); lia.
Qed.

(** [masterSave] writes the coordinates before anything else, and nothing
    after that touches them. *)
Lemma masterSave_masterStatus f p now c :
  masterStatus (snd (masterSave f p now c)) = setFilePosition f p (masterStatus c).
Proof.
  unfold masterSave. mrun. cbn.
  destruct (_ <? _); [reflexivity|].
  destruct (cfgBackend c) as [s|]; cbn.
  - destruct (config.setResult s _ _ _); cbn.
    + destruct (log.IsInfo _); reflexivity.
    + reflexivity.
  - destruct (log.IsDebug _); reflexivity.
Qed.

(** C5: after [Save(f, p)], whatever the sink and the throttle did,
    [SyncedPosition()] has file name [f] and offset [p]. *)
Theorem SyncedPosition_after_masterSave (f : string) (p : N) (now : time.Time) (c : Canal) :
  let c' := snd (masterSave f p now c) in
  File (SyncedPosition c') = f /\ Position (SyncedPosition c') = p.
Proof.
  cbn zeta. unfold SyncedPosition. rewrite masterSave_masterStatus. split; reflexivity.
Qed.

(** The three ways through [masterSave]. *)
Lemma masterSave_skipped f p now c :
  time.Sub now (masterLastSaveTime c) < time.Second ->
  masterSave f p now c =
    (Ok tt, set_masterStatus (setFilePosition f p (masterStatus c)) c).
Proof.
  intros H. unfold masterSave. mrun. cbn.
  destruct (Z.ltb_spec (time.Sub now (masterLastSaveTime c)) time.Second); [reflexivity|lia].
Qed.

Lemma masterSave_stored f p now c s :
  time.Second <= time.Sub now (masterLastSaveTime c) ->
  cfgBackend c = Some s ->
  let c1 := set_masterStatus (setFilePosition f p (masterStatus c)) c in
  let buf := WriteTo (masterStatus c1) in
  config.setResult s (config.calls s) ConfigPathBackendPosition buf = None ->
  masterSave f p now c =
    (Ok tt, set_masterLastSaveTime now
              (set_cfgBackend (Some (snd (config.Setter_Set s ConfigPathBackendPosition buf))) c1)).
Proof.
  intros H Hs c1 buf Hr. subst c1 buf. cbn in Hr.
  unfold masterSave, config.Setter_Set. mrun. cbn.
  destruct (Z.ltb_spec (time.Sub now (masterLastSaveTime c)) time.Second); [lia|].
  rewrite Hs. cbn. rewrite Hr. reflexivity.
Qed.

Lemma masterSave_failed f p now c s err :
  time.Second <= time.Sub now (masterLastSaveTime c) ->
  cfgBackend c = Some s ->
  let c1 := set_masterStatus (setFilePosition f p (masterStatus c)) c in
  let buf := WriteTo (masterStatus c1) in
  config.setResult s (config.calls s) ConfigPathBackendPosition buf = Some err ->
  masterSave f p now c =
    (Fail (WithStack err),
     let c2 := set_cfgBackend (Some (snd (config.Setter_Set s ConfigPathBackendPosition buf))) c1 in
     if log.IsInfo (log c)
     then set_log (log.write log.LInfo "[binlogsync] Failed to store Master Status" (log c)) c2
     else c2).
Proof.
  intros H Hs c1 buf Hr. subst c1 buf. cbn in Hr.
  unfold masterSave, config.Setter_Set. mrun. cbn.
  destruct (Z.ltb_spec (time.Sub now (masterLastSaveTime c)) time.Second); [lia|].
  rewrite Hs. cbn. rewrite Hr. cbn.
  destruct (log.IsInfo (log c)); reflexivity.
Qed.

Lemma masterSave_no_sink f p now c :
  cfgBackend c = None ->
  cfgBackend (snd (masterSave f p now c)) = None /\ fst (masterSave f p now c) = Ok tt.
Proof.
  intros Hs. unfold masterSave. mrun. cbn.
  destruct (_ <? _); cbn; [auto|].
  rewrite Hs. destruct (log.IsDebug _); cbn; auto.
Qed.

(** One [Save] with a sink: it is skipped, or the one [Set] it makes fails
    and the time of the last save stays, or it is stored and the time of
    the last save becomes [now]. *)
Lemma masterSave_cases f p now c s :
  cfgBackend c = Some s ->
  let c' := snd (masterSave f p now c) in
  (time.Sub now (masterLastSaveTime c) < time.Second /\
   cfgBackend c' = Some s /\ masterLastSaveTime c' = masterLastSaveTime c)
  \/
  (time.Second <= time.Sub now (masterLastSaveTime c) /\
   exists k, cfgBackend c' =
               Some {| config.setResult := config.setResult s;
                       config.calls := (config.calls s ++ [k])%list |} /\
             (config.stored k = false /\ masterLastSaveTime c' = masterLastSaveTime c \/
              config.stored k = true /\ masterLastSaveTime c' = now)).
Proof.
  intros Hs c'. subst c'.
  destruct (Z.lt_ge_cases (time.Sub now (masterLastSaveTime c)) time.Second) as [Hlt|Hge].
  - left. rewrite masterSave_skipped by assumption. cbn. auto.
  - right. split; [assumption|].
    destruct (config.setResult s (config.calls s) ConfigPathBackendPosition
                (WriteTo (masterStatus (set_masterStatus (setFilePosition f p (masterStatus c)) c))))
      as [err|] eqn:Hr.
    + rewrite (masterSave_failed f p now c s err Hge Hs Hr).
      unfold config.Setter_Set. cbn in *. rewrite Hr. cbn.
      eexists. split.
      * destruct (log.IsInfo (log c)); reflexivity.
      * left. split; [reflexivity|]. destruct (log.IsInfo (log c)); reflexivity.
    + rewrite (masterSave_stored f p now c s Hge Hs Hr).
      unfold config.Setter_Set. cbn in *. rewrite Hr. cbn.
      eexists. split; [reflexivity|]. right. split; reflexivity.
Qed.

(** While every [Save] comes less than a second after the last stored
    write, the sink is left alone. *)
Lemma saveAll_quiet saves : forall c,
  Forall (fun x => snd x - masterLastSaveTime c < time.Second) saves ->
  cfgBackend (saveAll saves c) = cfgBackend c /\
  masterLastSaveTime (saveAll saves c) = masterLastSaveTime c.
Proof.
  induction saves as [|[[f p] now] r IH]; intros c H; [split; reflexivity|].
  apply Forall_cons in H as [H1 H2]. cbn in H1. cbn [saveAll].
  rewrite masterSave_skipped by (apply Sub_lt_Second; assumption). cbn [snd].
  destruct (IH (set_masterStatus (setFilePosition f p (masterStatus c)) c)) as [E1 E2].
  - exact H2.
  - rewrite E1, E2. split; reflexivity.
Qed.

Lemma storedWrites_snoc r l k :
  config.storedWrites {| config.setResult := r; config.calls := (l ++ [k])%list |} =
  (config.storedWrites {| config.setResult := r; config.calls := l |} +
   if config.stored k then 1 else 0)%nat.
Proof.
  unfold config.storedWrites. cbn. rewrite filter_app, length_app.
  destruct (config.stored k) eqn:E.
  - rewrite filter_cons_True by assumption. reflexivity.
  - rewrite filter_cons_False by congruence. reflexivity.
Qed.

Lemma writes_snoc r l k :
  config.writes {| config.setResult := r; config.calls := (l ++ [k])%list |} =
  S (config.writes {| config.setResult := r; config.calls := l |}).
Proof. unfold config.writes. cbn. rewrite length_app. cbn. lia. Qed.

(** Saves that all fall into a window shorter than a second store at most
    one write. *)
Lemma saveAll_window_stored (t0 : time.Time) (w : time.Duration) saves :
  w < time.Second ->
  Forall (fun x => t0 <= snd x <= t0 + w) saves ->
  forall c, (sinkStored (saveAll saves c) <= S (sinkStored c))%nat.
Proof.
  intros Hw. induction saves as [|[[f p] now] r IH]; intros H c; [cbn; lia|].
  apply Forall_cons in H as [H1 H2]. cbn in H1. cbn [saveAll].
  destruct (cfgBackend c) as [s|] eqn:Hs.
  - destruct (masterSave_cases f p now c s Hs) as [(_ & E & _)|(_ & k & E & [[Hk _]|[Hk Ht]])].
    + etransitivity; [apply (IH H2)|]. unfold sinkStored. rewrite E, Hs. lia.
    + etransitivity; [apply (IH H2)|]. unfold sinkStored. rewrite E, Hs.
      rewrite storedWrites_snoc, Hk. destruct s; cbn. lia.
    + destruct (saveAll_quiet r (snd (masterSave f p now c))) as [E1 _].
      * rewrite Ht. eapply Forall_impl; [exact H2|]. cbn. intros x Hx. lia.
      * unfold sinkStored. rewrite E1, E, Hs, storedWrites_snoc, Hk. destruct s; cbn. lia.
  - etransitivity; [apply (IH H2)|].
    destruct (masterSave_no_sink f p now c Hs) as [E _].
    unfold sinkStored. rewrite E, Hs. lia.
Qed.

(** With a sink that does not fail, they make at most one [Set] call. *)
Lemma saveAll_window_writes (t0 : time.Time) (w : time.Duration) saves :
  w < time.Second ->
  Forall (fun x => t0 <= snd x <= t0 + w) saves ->
  forall c s, cfgBackend c = Some s -> neverFails s ->
  (sinkWrites (saveAll saves c) <= S (sinkWrites c))%nat.
Proof.
  intros Hw. induction saves as [|[[f p] now] r IH]; intros H c s Hs Hnf; [cbn; lia|].
  apply Forall_cons in H as [H1 H2]. cbn in H1. cbn [saveAll].
  destruct (masterSave_cases f p now c s Hs) as [(_ & E & _)|(Hge & k & E & Hk)].
  - etransitivity; [apply (IH H2 _ s E Hnf)|]. unfold sinkWrites. rewrite E, Hs. lia.
  - rewrite (masterSave_stored f p now c s Hge Hs (Hnf _ _ _)) in *. cbn [snd] in *.
    destruct (saveAll_quiet r
      (set_masterLastSaveTime now
         (set_cfgBackend
            (Some (snd (config.Setter_Set s ConfigPathBackendPosition
               (WriteTo (masterStatus (set_masterStatus (setFilePosition f p (masterStatus c)) c))))))
            (set_masterStatus (setFilePosition f p (masterStatus c)) c)))) as [E1 _].
    + cbn. eapply Forall_impl; [exact H2|]. cbn. intros x Hx. lia.
    + unfold sinkWrites. rewrite E1, Hs. cbn. unfold config.writes. cbn.
      rewrite length_app. cbn. lia.
Qed.

(** C4, as amended: with a sink configured, a [Save] that comes less than a
    second after the last stored write only updates the coordinates and
    makes no [Set] call; a [Save] that comes a second or more after it makes
    exactly one [Set] call; the time of the last save moves to [now] exactly
    when that call is stored.  Hence saves within 100ms store at most one
    write, and make at most one [Set] call when the sink does not fail. *)
Theorem masterSave_throttle (c : Canal) (s : config.Setter) (f : string) (p : N)
    (now t0 : time.Time) (saves : list (string * N * time.Time)) :
  cfgBackend c = Some s ->
  Forall (fun x => t0 <= snd x <= t0 + 100 * time.Millisecond) saves ->
  let c' := snd (masterSave f p now c) in
  (time.Sub now (masterLastSaveTime c) < time.Second ->
   masterSave f p now c =
     (Ok tt, set_masterStatus (setFilePosition f p (masterStatus c)) c)) /\
  (time.Second <= time.Sub now (masterLastSaveTime c) ->
   sinkWrites c' = S (sinkWrites c)) /\
  (sinkStored c' = S (sinkStored c) /\ masterLastSaveTime c' = now \/
   sinkStored c' = sinkStored c /\ masterLastSaveTime c' = masterLastSaveTime c) /\
  (sinkStored (saveAll saves c) <= S (sinkStored c))%nat /\
  (neverFails s -> (sinkWrites (saveAll saves c) <= S (sinkWrites c))%nat).
Proof.
  intros Hs Hwin c'. subst c'.
  split; [apply masterSave_skipped|].
  split; [|split; [|split]].
  - intros Hge.
    destruct (masterSave_cases f p now c s Hs) as [(Hlt & _)|(_ & k & E & _)]; [lia|].
    unfold sinkWrites. rewrite E, Hs. destruct s; apply writes_snoc.
  - destruct (masterSave_cases f p now c s Hs) as [(_ & E & Ht)|(_ & k & E & [[Hk Ht]|[Hk Ht]])].
    + right. unfold sinkStored. rewrite E, Hs. auto.
    + right. unfold sinkStored. rewrite E, Hs, storedWrites_snoc, Hk.
      destruct s; cbn. split; [lia|assumption].
    + left. unfold sinkStored. rewrite E, Hs, storedWrites_snoc, Hk.
      destruct s; cbn. split; [lia|assumption].
  - apply (saveAll_window_stored t0 (100 * time.Millisecond)); [reflexivity|assumption].
  - intros Hnf.
    apply (saveAll_window_writes t0 (100 * time.Millisecond) saves) with (s := s);
      [reflexivity|assumption..].
Qed.

(** C8, as amended: when the [Set] of the sink fails during [Save], the
    error is returned to the caller of [Save], wrapped by [WithStack], and
    logged when the logger has the info level; the coordinates hold the
    saved file and offset, and the time of the last save stays. *)
Theorem masterSave_sink_error (c : Canal) (s : config.Setter) (f : string) (p : N)
    (now : time.Time) (err : error) :
  cfgBackend c = Some s ->
  time.Second <= time.Sub now (masterLastSaveTime c) ->
  config.setResult s (config.calls s) ConfigPathBackendPosition
    (WriteTo (setFilePosition f p (masterStatus c))) = Some err ->
  let c' := snd (masterSave f p now c) in
  fst (masterSave f p now c) = Fail (WithStack err) /\
  File (SyncedPosition c') = f /\ Position (SyncedPosition c') = p /\
  log.entries (log c') =
    (if log.IsInfo (log c)
     then (log.entries (log c) ++ [(log.LInfo, "[binlogsync] Failed to store Master Status")])%list
     else log.entries (log c)) /\
  masterLastSaveTime c' = masterLastSaveTime c.
Proof.
  intros Hs Hge Hr c'. subst c'.
  rewrite (masterSave_failed f p now c s err Hge Hs Hr). cbn [fst snd].
  split; [reflexivity|].
  destruct (log.IsInfo (log c)); cbn; auto.
Qed.

(** *** The table cache *)

Lemma isCreateStmt_empty idName : isCreateStmt idName "" = false.
Proof. reflexivity. Qed.

(** What the option [WithCreateTable(ctx, db, t, "")] does to the registry
    and the connection. *)
Lemma WithCreateTable_single (t : string) (tbls : Tables) (db : DB) :
  fn (WithCreateTable IsValidIdentifier true [t; ""]) (tbls, db) =
  match IsValidIdentifier t with
  | Some e => (Fail e, (tbls, db))
  | None =>
      let tbls1 := setTm (<[t := NewTable t]> (tm tbls)) tbls in
      let db1 := logQuery (QShowCreateTable t) db in
      match showCreateTable db t with
      | inl e => (Fail e, (tbls1, db1))
      | inr stmt =>
          let tbls2 := setTm (alter (setCreateSyntax stmt) t (tm tbls1)) tbls1 in
          let db2 := logQuery (QLoadColumns [t]) db1 in
          match informationSchemaColumns db [t] with
          | inl e => (Fail e, (tbls2, db2))
          | inr tc =>
              (Ok tt,
               (setTm (alter (fun tbl => update (setSchemaColumns (Tables_Schema tbls)
                                                   (default [] (tc !! t)) tbl))
                             t (tm tbls2)) tbls2, db2))
          end
      end
  end.
Proof.
  unfold WithCreateTable, createEach, loadCreateSyntax, LoadColumns. cbn [fn length].
  rewrite isCreateStmt_empty. mrun. cbn.
  destruct (IsValidIdentifier t) as [e|]; cbn; [reflexivity|].
  destruct (showCreateTable db t) as [e|stmt]; cbn; [reflexivity|].
  destruct (informationSchemaColumns db [t]) as [e|tc]; cbn; reflexivity.
Qed.

Lemma FindTable_hit (t : string) (c : Canal) (tbl : Table) :
  tm (tables c) !! t = Some tbl -> FindTable t c = (Ok tbl, c).
Proof.
  intros H. unfold FindTable, Tables_Table. mrun. rewrite H. reflexivity.
Qed.

(** The function of [Do] runs the option on the pool, then reads the
    map. *)
Lemma loadTable_run (t : string) (c : Canal) (p : dml.ConnPool) :
  dbcp c = Some p ->
  loadTable t c =
  let (r, s) := fn (WithCreateTable IsValidIdentifier true [t; ""]) (tables c, dml.DB p) in
  let c' := set_tables (fst s) (set_dbcp (Some (dml.setDB (snd s) p)) c) in
  match r with
  | Ok _ => match tm (fst s) !! t with
            | Some tbl => (Ok tbl, c')
            | None => (Fail (errTableNotFound t), c')
            end
  | Fail e => (Fail e, c')
  | Panicked => (Panicked, c')
  end.
Proof.
  intros Hp.
  remember (WithCreateTable IsValidIdentifier true [t; ""]) as opt.
  unfold loadTable, Tables_Table, Options, onPool. rewrite <- Heqopt. mrun.
  cbn [negb sortStable foldr insertOption applyOptions]. mrun. rewrite Hp.
  destruct (fn opt (tables c, dml.DB p)) as [[u|e|] s];
    cbn [fst snd tables set_tables]; try reflexivity.
  destruct (tm s.1 !! t); reflexivity.
Qed.

(** A miss goes through [Do]. *)
Lemma FindTable_miss (t : string) (c : Canal) :
  tm (tables c) !! t = None -> FindTable t c = loadTable t c.
Proof.
  intros Hmiss. unfold FindTable, Tables_Table. mrun.
  rewrite Hmiss. change (Is (errTableNotFound t) NotFound) with true. cbn [negb].
  destruct (loadTable t c) as [[tbl|e|] c']; reflexivity.
Qed.

Lemma loads_logQuery q db :
  loads (logQuery q db) = (loads db + if isLoad q then 1 else 0)%nat.
Proof.
  unfold loads. cbn. rewrite filter_app, length_app.
  destruct (isLoad q) eqn:E.
  - rewrite filter_cons_True by assumption. reflexivity.
  - rewrite filter_cons_False by congruence. reflexivity.
Qed.

(** A miss whose load succeeds sends one column load and caches the
    table. *)
Lemma FindTable_miss_loads (t : string) (c : Canal) (p : dml.ConnPool) stmt tc :
  tm (tables c) !! t = None -> dbcp c = Some p ->
  IsValidIdentifier t = None ->
  showCreateTable (dml.DB p) t = inr stmt ->
  informationSchemaColumns (dml.DB p) [t] = inr tc ->
  let tbl := update (setSchemaColumns (Tables_Schema (tables c)) (default [] (tc !! t))
                       (setCreateSyntax stmt (NewTable t))) in
  let c' := snd (FindTable t c) in
  fst (FindTable t c) = Ok tbl /\
  tm (tables c') !! t = Some tbl /\
  loadCount c' = S (loadCount c).
Proof.
  intros Hmiss Hp Hv Hs Hl tbl c'. subst c'.
  rewrite (FindTable_miss t c Hmiss), (loadTable_run t c p Hp), WithCreateTable_single, Hv, Hs, Hl.
  cbn [fst snd tm setTm]. rewrite !lookup_alter_eq, lookup_insert_eq.
  cbn [fmap option_fmap option_map fst snd tables set_tables tm setTm].
  rewrite !lookup_alter_eq, lookup_insert_eq. cbn [fmap option_fmap option_map].
  split; [reflexivity|]. split; [reflexivity|].
  unfold loadCount. rewrite Hp. cbn [dbcp set_tables set_dbcp dml.DB dml.setDB].
  rewrite !loads_logQuery. cbn [isLoad]. lia.
Qed.

(** The sibling [Tables.DeleteFromCache] does remove the entry. *)
Lemma DeleteFromCache_lookup (t : string) (tbls : Tables) :
  tm (DeleteFromCache [t] tbls) !! t = None.
Proof. unfold DeleteFromCache. cbn. apply lookup_delete_eq. Qed.

(** C2: [ClearTableCache(db, t)] changes nothing: the entry of [t] stays,
    and the next [FindTable] returns it without a column load. *)
Theorem ClearTableCache_keeps_entry (db t : string) (c : Canal) (tbl : Table) :
  tm (tables c) !! t = Some tbl ->
  let c' := snd (ClearTableCache db t c) in
  ClearTableCache db t c = (Ok tt, c) /\
  tm (tables c') !! t = Some tbl /\
  FindTable t c' = (Ok tbl, c') /\
  loadCount (snd (FindTable t c')) = loadCount c.
Proof.
  intros H c'. subst c'. unfold ClearTableCache. mrun. cbn [snd].
  rewrite (FindTable_hit t c tbl H). auto.
Qed.

(** C3: when the load on a miss fails after the name was accepted, that is
    in the statement for the CREATE syntax or in the column load,
    [FindTable] returns the error but the half-built entry stays in the
    map, and the next [FindTable] returns that entry, without columns,
    with a nil error and without a load. *)
Theorem FindTable_failed_load_stays_cached (t : string) (c : Canal) (p : dml.ConnPool)
    (e : error) :
  dbcp c = Some p ->
  tm (tables c) !! t = None ->
  IsValidIdentifier t = None ->
  (showCreateTable (dml.DB p) t = inl e \/
   exists stmt, showCreateTable (dml.DB p) t = inr stmt /\
                informationSchemaColumns (dml.DB p) [t] = inl e) ->
  let c' := snd (FindTable t c) in
  fst (FindTable t c) = Fail e /\
  exists partial,
    tm (tables c') !! t = Some partial /\
    Columns partial = [] /\
    FindTable t c' = (Ok partial, c') /\
    loadCount (snd (FindTable t c')) = loadCount c'.
Proof.
  intros Hp Hmiss Hv Hfail c'. subst c'.
  rewrite (FindTable_miss t c Hmiss), (loadTable_run t c p Hp), WithCreateTable_single, Hv.
  destruct Hfail as [Hs|(stmt & Hs & Hl)].
  - rewrite Hs. cbn [fst snd]. split; [reflexivity|].
    exists (NewTable t).
    assert (L : tm (tables (set_tables (setTm (<[t:=NewTable t]> (tm (tables c))) (tables c))
                 (set_dbcp (Some (dml.setDB (logQuery (QShowCreateTable t) (dml.DB p)) p)) c)))
                !! t = Some (NewTable t)) by (cbn; apply lookup_insert_eq).
    split; [exact L|]. split; [reflexivity|].
    rewrite (FindTable_hit _ _ _ L). auto.
  - rewrite Hs, Hl. cbn [fst snd]. split; [reflexivity|].
    exists (setCreateSyntax stmt (NewTable t)).
    match goal with |- tm (tables ?c1) !! t = _ /\ _ =>
      assert (L : tm (tables c1) !! t = Some (setCreateSyntax stmt (NewTable t)))
    end.
    { cbn. rewrite lookup_alter_eq, lookup_insert_eq. reflexivity. }
    split; [exact L|]. split; [reflexivity|].
    rewrite (FindTable_hit _ _ _ L). auto.
Qed.

(** *** Shutdown *)

Lemma finishCheck_Close c : finishCheck c = Close c.
Proof.
  unfold finishCheck, finishStore, finishSyncer, finishPool, finishWait, closeSyncer, Close.
  mrun. destruct c as [d cp cb ms mt sy sc db tb cl lg w]. unfold isClosed. cbn.
  destruct (cl =? 1); [reflexivity|].
  destruct sy, db as [pool|]; cbn; try reflexivity;
    match goal with |- context [closeError ?x] => destruct (closeError x) end; reflexivity.
Qed.

Lemma Close_closed c : isClosed c = true -> Close c = (Ok tt, c).
Proof. intros H. unfold Close. mrun. rewrite H. reflexivity. Qed.

Lemma Close_sets_closed c : isClosed (snd (Close c)) = true.
Proof.
  destruct (isClosed c) eqn:E; [rewrite Close_closed; assumption|].
  rewrite <- finishCheck_Close.
  unfold finishCheck, finishStore, finishSyncer, finishPool, finishWait, closeSyncer.
  rewrite E. destruct c as [d cp cb ms mt sy sc db tb cl lg w]. unfold isClosed. cbn.
  destruct sy, db as [pool|]; cbn; try reflexivity;
    match goal with |- context [closeError ?x] => destruct (closeError x) end; reflexivity.
Qed.

(** A call after the first returns nil and changes nothing. *)
Lemma Close_twice c : Close (snd (Close c)) = (Ok tt, snd (Close c)).
Proof. apply Close_closed, Close_sets_closed. Qed.

(** What the first call does. *)
Lemma Close_first c pool :
  isClosed c = false -> dbcp c = Some pool ->
  let c1 := set_dbcp (Some (snd (dml.Close pool))) (closeSyncer (set_closed 1 c)) in
  Close c = match closeError (dml.DB pool) with
            | Some err => (Fail (WithStack err), c1)
            | None => (Ok tt, set_wg (sync.Wait (wg c1)) c1)
            end.
Proof.
  intros E Hp. rewrite <- finishCheck_Close.
  unfold finishCheck, finishStore, finishSyncer, finishPool, finishWait, closeSyncer.
  rewrite E. destruct c as [d cp cb ms mt sy sc db tb cl lg w]. cbn in Hp. subst db. cbn.
  destruct sy; cbn; destruct (closeError (dml.DB pool)); reflexivity.
Qed.

Lemma finish_closeStep p c :
  inBody p -> (forall r, p <> AtUnlock r) ->
  finish (fst (closeStep p c)) (snd (closeStep p c)) = finish p c /\
  inBody (fst (closeStep p c)).
Proof.
  intros Hb Hu. destruct p; cbn in Hb; try contradiction.
  - cbn. unfold finishCheck. destruct (isClosed c); cbn; auto.
  - cbn. auto.
  - cbn. auto.
  - cbn. unfold finishPool. destruct (dbcp c) as [pool|]; cbn; [|auto].
    destruct (closeError (dml.DB pool)); cbn; auto.
  - cbn. auto.
  - exfalso. apply (Hu r). reflexivity.
Qed.

Lemma Inv_start n c0 : Inv c0 (start n c0).
Proof.
  exists None. split; [discriminate|]. cbn. split; [reflexivity|].
  intros j q H _. apply lookup_replicate in H as [-> _]. left. reflexivity.
Qed.

Lemma waiting_not_inBody win p : waiting win p -> ~ inBody p.
Proof. intros [->|[_ ->]]; cbn; auto. Qed.

Lemma Inv_step c0 i w : Inv c0 w -> Inv c0 (step i w).
Proof.
  intros (win & Hwin & H). unfold step.
  destruct (goroutines w !! i) as [p|] eqn:Hi; [|exists win; auto].
  assert (Hlen : (i < length (goroutines w))%nat) by (eapply lookup_lt_Some; eassumption).
  (* who holds the mutex when goroutine [i] is inside the body *)
  assert (Hin : inBody p -> mclose w = Some i /\ win <> Some i /\
                finish p (canal w) =
                  match win with None => Close c0 | Some _ => (Ok tt, snd (Close c0)) end /\
                forall j q, goroutines w !! j = Some q -> j <> i -> win <> Some j ->
                            waiting win q).
  { intros Hb. destruct (mclose w) as [h|] eqn:Hm.
    - destruct H as (Hne & p' & Hh & Hb' & Hf & Hrest).
      destruct (decide (h = i)) as [->|Hhi].
      + rewrite Hi in Hh. injection Hh as <-. auto.
      + exfalso. destruct (decide (win = Some i)) as [Hw|Hw].
        * rewrite (Hwin i Hw) in Hi. injection Hi as <-. exact Hb.
        * exact (waiting_not_inBody _ _ (Hrest i p Hi (not_eq_sym Hhi) Hw) Hb).
    - exfalso. destruct H as (_ & Hrest).
      destruct (decide (win = Some i)) as [Hw|Hw].
      + rewrite (Hwin i Hw) in Hi. injection Hi as <-. exact Hb.
      + exact (waiting_not_inBody _ _ (Hrest i p Hi Hw) Hb). }
  assert (Hmove : forall p' c', inBody p -> (forall r, p <> AtUnlock r) ->
            closeStep p (canal w) = (p', c') ->
            Inv c0 {| canal := c'; mclose := mclose w;
                      goroutines := <[i := p']> (goroutines w) |}).
  { intros p' c' Hb Hu Hp'. destruct (Hin Hb) as (Hm & Hne & Hf & Hrest).
    destruct (finish_closeStep p (canal w) Hb Hu) as [Hf' Hb''].
    rewrite Hp' in Hf', Hb''. cbn [fst snd] in Hf', Hb''.
    exists win. cbn [canal mclose goroutines]. split.
    - intros k Hk. rewrite list_lookup_insert_ne by congruence. auto.
    - rewrite Hm. split; [assumption|]. exists p'.
      rewrite list_lookup_insert_eq by assumption.
      split; [reflexivity|]. split; [assumption|]. split; [congruence|].
      intros j q Hj Hji. rewrite list_lookup_insert_ne in Hj by congruence. eauto. }
  destruct p.
  - (* Lock *)
    destruct (mclose w) as [h|] eqn:Hm.
    + exists win. rewrite Hm. auto.
    + destruct H as (Hc & Hrest).
      assert (Hne : win <> Some i).
      { intros Hw. rewrite (Hwin i Hw) in Hi. discriminate. }
      exists win. cbn [canal mclose goroutines]. split.
      * intros k Hk. rewrite list_lookup_insert_ne by congruence. auto.
      * split; [assumption|]. exists AtCheck.
        rewrite list_lookup_insert_eq by assumption.
        split; [reflexivity|]. split; [exact I|]. split.
        -- cbn [finish canal]. rewrite Hc, finishCheck_Close. destruct win; [apply Close_twice|reflexivity].
        -- intros j q Hj Hji. rewrite list_lookup_insert_ne in Hj by congruence. eauto.
  - destruct (closeStep AtCheck (canal w)) as [p' c'] eqn:E.
    apply (Hmove p' c' I); [discriminate|reflexivity].
  - destruct (closeStep AtStore (canal w)) as [p' c'] eqn:E.
    apply (Hmove p' c' I); [discriminate|reflexivity].
  - destruct (closeStep AtSyncer (canal w)) as [p' c'] eqn:E.
    apply (Hmove p' c' I); [discriminate|reflexivity].
  - destruct (closeStep AtPool (canal w)) as [p' c'] eqn:E.
    apply (Hmove p' c' I); [discriminate|reflexivity].
  - destruct (closeStep AtWait (canal w)) as [p' c'] eqn:E.
    apply (Hmove p' c' I); [discriminate|reflexivity].
  - (* Unlock *)
    destruct (Hin I) as (Hm & Hne & Hf & Hrest). cbn [finish] in Hf.
    destruct win as [k|].
    + injection Hf as -> Hc. exists (Some k). cbn [canal mclose goroutines]. split.
      * intros k' Hk. injection Hk as <-.
        rewrite list_lookup_insert_ne by congruence. auto.
      * split; [assumption|]. intros j q Hj Hjk.
        destruct (decide (j = i)) as [->|Hji].
        -- rewrite list_lookup_insert_eq in Hj by assumption. injection Hj as <-.
           right. split; [eexists; reflexivity|reflexivity].
        -- rewrite list_lookup_insert_ne in Hj by congruence. eauto.
    + exists (Some i). cbn [canal mclose goroutines]. split.
      * intros k Hk. injection Hk as <-.
        rewrite list_lookup_insert_eq by assumption. rewrite <- Hf. reflexivity.
      * split; [rewrite <- Hf; reflexivity|]. intros j q Hj Hji.
        assert (Hji' : j <> i) by congruence.
        rewrite list_lookup_insert_ne in Hj by congruence.
        destruct (Hrest j q Hj Hji') as [->|[[x Hx] _]]; [discriminate| |discriminate].
        left. reflexivity.
  - exists win. auto.
Qed.

Lemma Inv_run c0 schedule : forall w, Inv c0 w -> Inv c0 (run schedule w).
Proof.
  induction schedule as [|i r IH]; intros w H; [exact H|].
  apply IH, Inv_step, H.
Qed.

Lemma step_length i w : length (goroutines (step i w)) = length (goroutines w).
Proof.
  unfold step. destruct (goroutines w !! i) as [p|]; [|reflexivity].
  destruct p; try (destruct (closeStep _ _)); cbn; rewrite ?length_insert; try reflexivity.
  destruct (mclose w); cbn; rewrite ?length_insert; reflexivity.
Qed.

Lemma run_length schedule : forall w,
  length (goroutines (run schedule w)) = length (goroutines w).
Proof.
  induction schedule as [|i r IH]; intros w; [reflexivity|].
  change (run (i :: r) w) with (run r (step i w)). rewrite IH. apply step_length.
Qed.

(** Once all goroutines have returned, one of them has done what a single
    [Close] does and got its result; the others got nil and changed
    nothing. *)
Lemma run_all_returned (c0 : Canal) (n : nat) (schedule : list nat) :
  (1 <= n)%nat ->
  let w := run schedule (start n c0) in
  allReturned w ->
  canal w = snd (Close c0) /\
  exists k, goroutines w !! k = Some (Returned (fst (Close c0))) /\
            forall j, j <> k -> (j < n)%nat ->
                      goroutines w !! j = Some (Returned (Ok tt)).
Proof.
  intros Hn w Hall.
  assert (Hlen : length (goroutines w) = n).
  { subst w. rewrite run_length. cbn. apply length_replicate. }
  destruct (Inv_run c0 schedule _ (Inv_start n c0)) as (win & Hwin & H). fold w in Hwin, H.
  unfold allReturned in Hall. rewrite Forall_lookup in Hall.
  destruct (mclose w) as [i|].
  - exfalso. destruct H as (_ & p & Hi & Hb & _).
    destruct (Hall i p Hi) as [r ->]. exact Hb.
  - destruct H as (Hc & Hrest). destruct win as [k|].
    + split; [exact Hc|]. exists k. split; [auto|].
      intros j Hjk Hj.
      destruct (lookup_lt_is_Some_2 (goroutines w) j) as [q Hq]; [lia|].
      destruct (Hrest j q Hq) as [->|[_ ->]]; [congruence| |exact Hq].
      destruct (Hall j AtLock Hq) as [r Hr]. discriminate.
    + exfalso.
      destruct (lookup_lt_is_Some_2 (goroutines w) 0) as [q Hq]; [lia|].
      destruct (Hrest 0%nat q Hq) as [->|[[x Hx] _]]; [discriminate| |discriminate].
      destruct (Hall 0%nat AtLock Hq) as [r Hr]. discriminate.
Qed.

(** C6: the first [Close] sets the flag, closes the syncer and the pool
    once each, and waits for the worker exactly when the pool closed
    without error; a later call returns nil and changes nothing; and when
    [n] goroutines race, one of them does what the first call does and every
    other one returns nil, so nothing is closed twice. *)
Theorem Close_idempotent (c : Canal) (pool : dml.ConnPool) (n : nat) (schedule : list nat) :
  isClosed c = false -> dbcp c = Some pool -> (1 <= n)%nat ->
  let c1 := snd (Close c) in
  let w := run schedule (start n c) in
  closed c1 = 1 /\
  syncer c1 = None /\
  syncerCloses c1 = (syncerCloses c + match syncer c with Some _ => 1 | None => 0 end)%nat /\
  poolCloses c1 = S (poolCloses c) /\
  fst (Close c) = match closeError (dml.DB pool) with
                  | Some e => Fail (WithStack e)
                  | None => Ok tt
                  end /\
  wg c1 = match closeError (dml.DB pool) with
          | Some _ => wg c
          | None => sync.Wait (wg c)
          end /\
  Close c1 = (Ok tt, c1) /\
  (allReturned w ->
   canal w = c1 /\
   exists k, goroutines w !! k = Some (Returned (fst (Close c))) /\
             forall j, j <> k -> (j < n)%nat ->
                       goroutines w !! j = Some (Returned (Ok tt))).
Proof.
  intros E Hp Hn c1 w. subst c1 w.
  pose proof (Close_twice c) as Htwice.
  pose proof (run_all_returned c n schedule Hn) as Hrace.
  split; [|split; [|split; [|split; [|split; [|split; [|split]]]]]];
    [..|exact Htwice|exact Hrace];
    rewrite (Close_first c pool E Hp); unfold poolCloses, closeSyncer;
    destruct c as [d cp cb ms mt sy sc db tb cl lg wg0];
    cbn in Hp; subst db; cbn;
    destruct sy; destruct (closeError (dml.DB pool)); cbn; (reflexivity || lia).
Qed.

(** C7: when closing the pool fails, [Close] returns that error and does not
    call [wg.Wait]: the wait group is as before, a worker that was pending
    is still pending, and a later [Close] returns nil without waiting. *)
Theorem Close_error_skips_Wait (c : Canal) (pool : dml.ConnPool) (e : error) :
  isClosed c = false -> dbcp c = Some pool -> closeError (dml.DB pool) = Some e ->
  let c1 := snd (Close c) in
  fst (Close c) = Fail (WithStack e) /\
  wg c1 = wg c /\
  sync.waits (wg c1) = sync.waits (wg c) /\
  sync.pending (wg c1) = sync.pending (wg c) /\
  Close c1 = (Ok tt, c1) /\
  wg (snd (Close c1)) = wg c.
Proof.
  intros E Hp He c1. subst c1.
  rewrite Close_twice. cbn [snd].
  rewrite (Close_first c pool E Hp), He. cbn [fst snd].
  assert (Hw : wg (set_dbcp (Some (dml.Close pool).2) (closeSyncer (set_closed 1 c))) = wg c).
  { unfold closeSyncer. destruct c as [d cp cb ms mt sy sc db tb cl lg wg0]. cbn.
    destruct sy; reflexivity. }
  rewrite Hw. repeat split; reflexivity.
Qed.

(** *** Binlog preconditions *)

Lemma loadVariable_ok (varName : string) (c : Canal) (p : dml.ConnPool) data :
  dbcp c = Some p -> showVariables (dml.DB p) varName = inr data ->
  loadVariable varName c =
    (Ok {| Data := data |},
     set_tables (tables c)
       (set_dbcp (Some (dml.setDB (logQuery (QShowVariables varName) (dml.DB p)) p)) c)).
Proof.
  intros Hp Hv. unfold loadVariable, onPool. mrun. rewrite Hp. cbn. rewrite Hv. reflexivity.
Qed.

Lemma withCheckBinlogRowFormat_spec (c : Canal) (p : dml.ConnPool) data :
  dbcp c = Some p -> showVariables (dml.DB p) "binlog_format" = inr data ->
  fst (withCheckBinlogRowFormat c) =
    if strings.EqualFold (default "" (data !! "binlog_format")) "ROW" then Ok tt
    else Fail (Newf NotSupported
                 "[binlogsync] binlog variable must have the configured ROW format").
Proof.
  intros Hp Hv. unfold withCheckBinlogRowFormat, bind.
  rewrite (loadVariable_ok _ c p data Hp Hv). unfold EqualFold. cbn [Data].
  destruct (strings.EqualFold _ _); reflexivity.
Qed.

Lemma CheckBinlogRowImage_spec (image : string) (c : Canal) (p : dml.ConnPool) data :
  flavor c = MySQLFlavor ->
  dbcp c = Some p -> showVariables (dml.DB p) "binlog_row_image" = inr data ->
  fst (CheckBinlogRowImage image c) =
    if strings.EqualFold (default "" (data !! "binlog_row_image")) image
    then Fail (Newf NotSupported
                 "[binlogsync] MySQL uses another binlog row image than we want")
    else Ok tt.
Proof.
  intros Hf Hp Hv. unfold CheckBinlogRowImage, bind, get. rewrite Hf.
  rewrite bool_decide_eq_true_2 by reflexivity.
  rewrite (loadVariable_ok _ c p data Hp Hv). unfold EqualFold. cbn [Data].
  destruct (strings.EqualFold _ _); reflexivity.
Qed.

(** C9: the check of the row format fails with NotSupported exactly when
    [binlog_format] is not ROW, as the claim says; but
    [CheckBinlogRowImage] fails with NotSupported exactly when the row image
    of the server EQUALS the requested one, and returns nil when they
    differ: the opposite of the claim. *)
Theorem CheckBinlogRowImage_inverted (image : string) (c : Canal) (p : dml.ConnPool)
    (format rowImage : gmap string string) :
  flavor c = MySQLFlavor ->
  dbcp c = Some p ->
  showVariables (dml.DB p) "binlog_format" = inr format ->
  showVariables (dml.DB p) "binlog_row_image" = inr rowImage ->
  let isROW := strings.EqualFold (default "" (format !! "binlog_format")) "ROW" in
  let same := strings.EqualFold (default "" (rowImage !! "binlog_row_image")) image in
  (isROW = false ->
   exists e, fst (withCheckBinlogRowFormat c) = Fail e /\ kind e = NotSupported) /\
  (isROW = true -> fst (withCheckBinlogRowFormat c) = Ok tt) /\
  (same = true ->
   exists e, fst (CheckBinlogRowImage image c) = Fail e /\ kind e = NotSupported) /\
  (same = false -> fst (CheckBinlogRowImage image c) = Ok tt).
Proof.
  intros Hf Hp Hfmt Himg isROW same. subst isROW same.
  rewrite (withCheckBinlogRowFormat_spec c p format Hp Hfmt).
  rewrite (CheckBinlogRowImage_spec image c p rowImage Hf Hp Himg).
  repeat split; intros ->; eauto.
Qed.

(** *** Construction *)

Lemma applyOpts_cons_ok opt r c c' :
  opt c = (Ok tt, c') -> applyOpts (opt :: r) c = applyOpts r c'.
Proof. intros H. cbn [applyOpts]. unfold bind, withStack. rewrite H. reflexivity. Qed.

Lemma applyOpts_cons_fail opt r c c' e :
  opt c = (Fail e, c') -> applyOpts (opt :: r) c = (Fail (WithStack e), c').
Proof. intros H. cbn [applyOpts]. unfold bind, withStack. rewrite H. reflexivity. Qed.

Lemma WithMySQL_ok c d :
  Dial (FormatDSN (dsn c)) = inr d ->
  WithMySQL c =
    (Ok tt, set_dbcp (Some {| dml.DB := d; dml.poolDSN := FormatDSN (dsn c) |}) c).
Proof. intros H. unfold WithMySQL. mrun. rewrite H. reflexivity. Qed.

Lemma withUpdateBinlogStart_ok c p ms :
  dbcp c = Some p -> showMasterStatus (dml.DB p) = inr ms ->
  withUpdateBinlogStart c =
    (Ok tt,
     set_masterStatus (seededStatus (canalParams c) ms)
       (set_tables (tables c)
          (set_dbcp (Some (dml.setDB (logQuery QShowMasterStatus (dml.DB p)) p)) c))).
Proof.
  intros Hp Hms. unfold withUpdateBinlogStart, seededStatus, onPool. mrun.
  rewrite Hp. cbn. rewrite Hms. cbn.
  destruct (canalParams c !! "BinlogStartFile") as [v|]; cbn;
    [destruct (bool_decide (v = "")); cbn|];
    (destruct (canalParams c !! "BinlogStartPosition") as [v'|]; cbn;
     [destruct (bool_decide (v' = "")); cbn; [|destruct (4 <=? ToUint v')%N; cbn]|]);
    reflexivity.
Qed.

Lemma withPrepareSyncer_ok c host port :
  SplitHostPort (mysql.Addr (dsn c)) = inr (host, port) ->
  withPrepareSyncer c =
    (Ok tt,
     set_syncer
       (Some (myreplicator.NewBinlogSyncer
                {| myreplicator.ServerID :=
                     match canalParams c !! "BinlogSlaveId" with
                     | Some v => if bool_decide (v = "") then 100 else ToInt v
                     | None => 100
                     end mod 2 ^ 32;
                   myreplicator.Flavor := flavor c;
                   myreplicator.Host := host;
                   myreplicator.Port := ToInt port mod 2 ^ 16;
                   myreplicator.User := mysql.User (dsn c);
                   myreplicator.Password := mysql.Passwd (dsn c) |}))
       (syncerCloses c) c).
Proof. intros H. unfold withPrepareSyncer. mrun. rewrite H. reflexivity. Qed.

Lemma withCheckBinlogRowFormat_ok c p data :
  dbcp c = Some p -> showVariables (dml.DB p) "binlog_format" = inr data ->
  strings.EqualFold (default "" (data !! "binlog_format")) "ROW" = true ->
  withCheckBinlogRowFormat c =
    (Ok tt,
     set_tables (tables c)
       (set_dbcp (Some (dml.setDB (logQuery (QShowVariables "binlog_format") (dml.DB p)) p)) c)).
Proof.
  intros Hp Hv Hrow. unfold withCheckBinlogRowFormat, bind.
  rewrite (loadVariable_ok _ c p data Hp Hv). unfold EqualFold. cbn [Data].
  rewrite Hrow. reflexivity.
Qed.

(** A start position below 4 leaves the offset of the server. *)
Lemma withUpdateBinlogStart_below_four c p ms v :
  dbcp c = Some p -> showMasterStatus (dml.DB p) = inr ms ->
  canalParams c !! "BinlogStartPosition" = Some v -> (ToUint v < 4)%N ->
  Position (masterStatus (snd (withUpdateBinlogStart c))) = Position ms.
Proof.
  intros Hp Hms Hv Hlt. rewrite (withUpdateBinlogStart_ok c p ms Hp Hms).
  cbn [snd]. unfold seededStatus. rewrite Hv.
  destruct (N.leb_spec 4 (ToUint v)); [lia|].
  destruct (canalParams c !! "BinlogStartFile") as [f|];
    [destruct (bool_decide (f = ""))|]; destruct (bool_decide (v = "")); reflexivity.
Qed.

(** Without the parameter [BinlogSlaveId] the server ID is 100. *)
Lemma withPrepareSyncer_default c host port :
  SplitHostPort (mysql.Addr (dsn c)) = inr (host, port) ->
  canalParams c !! "BinlogSlaveId" = None ->
  exists sy, syncer (snd (withPrepareSyncer c)) = Some sy /\
             myreplicator.ServerID (myreplicator.cfg sy) = 100.
Proof.
  intros H Hn. rewrite (withPrepareSyncer_ok c host port H), Hn. cbn.
  eexists. split; reflexivity.
Qed.

Lemma stripParams_scenario :
  stripParams (set_closed 0 (set_dsn sample.scenarioConfig newCanal)) =
  set_canalParams sample.scenarioParams
    (set_dsn (mysql.setParams (Some ∅) sample.scenarioConfig)
       (set_closed 0 (set_dsn sample.scenarioConfig newCanal))).
Proof. vm_compute. reflexivity. Qed.

(** C10: the client built from the DSN of the scenario hands the connector
    a DSN without any custom parameter, starts at file bin.000005 and
    offset 4, and gives the syncer the server ID 101.  A start position
    below 4 leaves the offset of the server, and without [BinlogSlaveId] the
    server ID is 100. *)
Theorem NewCanal_scenario (d : DB) (ms : MasterStatus) (format : gmap string string) :
  ParseDSN sample.scenarioDSN = inr sample.scenarioConfig ->
  SplitHostPort "host:3306" = inr ("host", "3306") ->
  ToUint "4" = 4%N ->
  ToInt "101" = 101 ->
  Dial (FormatDSN (mysql.setParams (Some ∅) sample.scenarioConfig)) = inr d ->
  showMasterStatus d = inr ms ->
  showVariables d "binlog_format" = inr format ->
  strings.EqualFold (default "" (format !! "binlog_format")) "ROW" = true ->
  (exists c,
     NewCanal sample.scenarioDSN WithMySQL [] = Ok c /\
     mysql.Params (dsn c) = Some ∅ /\
     Forall (fun k => forall m, mysql.Params (dsn c) = Some m -> m !! k = None)
            customMySQLParams /\
     (exists pool, dbcp c = Some pool /\ dml.poolDSN pool = FormatDSN (dsn c)) /\
     canalParams c = sample.scenarioParams /\
     File (SyncedPosition c) = "bin.000005" /\
     Position (SyncedPosition c) = 4%N /\
     exists sy, syncer c = Some sy /\
                myreplicator.ServerID (myreplicator.cfg sy) = 101) /\
  (forall c p ms' v,
     dbcp c = Some p -> showMasterStatus (dml.DB p) = inr ms' ->
     canalParams c !! "BinlogStartPosition" = Some v -> (ToUint v < 4)%N ->
     Position (masterStatus (snd (withUpdateBinlogStart c))) = Position ms') /\
  (forall c host port,
     SplitHostPort (mysql.Addr (dsn c)) = inr (host, port) ->
     canalParams c !! "BinlogSlaveId" = None ->
     exists sy, syncer (snd (withPrepareSyncer c)) = Some sy /\
                myreplicator.ServerID (myreplicator.cfg sy) = 100).
Proof.
  intros Hparse Hsplit Hpos Hid Hdial Hms Hfmt Hrow.
  split; [|split; [apply withUpdateBinlogStart_below_four|apply withPrepareSyncer_default]].
  unfold NewCanal. rewrite Hparse. cbn zeta. rewrite stripParams_scenario.
  cbn [app].
  match goal with |- context [applyOpts _ ?c] => set (c0 := c) end.
  rewrite (applyOpts_cons_ok _ _ c0 _ (WithMySQL_ok c0 d Hdial)).
  match goal with |- context [applyOpts _ ?c] => set (c1 := c) end.
  rewrite (applyOpts_cons_ok _ _ c1 _ (withUpdateBinlogStart_ok c1 _ ms eq_refl Hms)).
  match goal with |- context [applyOpts _ ?c] => set (c2 := c) end.
  rewrite (applyOpts_cons_ok _ _ c2 _ (withPrepareSyncer_ok c2 "host" "3306" Hsplit)).
  match goal with |- context [applyOpts _ ?c] => set (c3 := c) end.
  rewrite (applyOpts_cons_ok _ _ c3 _ (withCheckBinlogRowFormat_ok c3 _ format eq_refl Hfmt Hrow)).
  cbn [applyOpts ret].
  eexists. split; [reflexivity|].
  split; [reflexivity|].
  split; [repeat constructor; intros m Hm; injection Hm as <-; apply lookup_empty|].
  split; [eexists; split; reflexivity|].
  split; [reflexivity|].
  assert (Hseed : seededStatus sample.scenarioParams ms = setPosition 4 (setFile "bin.000005" ms)).
  { unfold seededStatus.
    change (sample.scenarioParams !! "BinlogStartFile") with (Some "bin.000005").
    change (sample.scenarioParams !! "BinlogStartPosition") with (Some "4").
    cbn [bool_decide]. rewrite !bool_decide_eq_false_2 by discriminate.
    rewrite Hpos. reflexivity. }
  split; [unfold SyncedPosition; cbn; rewrite Hseed; reflexivity|].
  split; [unfold SyncedPosition; cbn; rewrite Hseed; reflexivity|].
  eexists. split; [reflexivity|]. cbn.
  change (sample.scenarioParams !! "BinlogSlaveId") with (Some "101").
  cbv beta iota. rewrite bool_decide_eq_false_2 by discriminate. rewrite Hid. reflexivity.
Qed.

Lemma applyOpts_app a b c :
  applyOpts (a ++ b)%list c =
  match applyOpts a c with
  | (Ok _, c') => applyOpts b c'
  | r => r
  end.
Proof.
  revert c. induction a as [|opt a IH]; intros c; [reflexivity|].
  cbn [app applyOpts]. unfold bind, withStack.
  destruct (opt c) as [[u|e|] c']; [apply IH|reflexivity..].
Qed.

(** The constructor fails with NotSupported when everything before the
    check of the row format went well and [binlog_format] is not ROW. *)
Lemma NewCanal_requires_ROW dsn0 pDSN (db : Option) (opts : list Option) c1 p data :
  ParseDSN dsn0 = inr pDSN ->
  (let c := stripParams (set_closed 0 (set_dsn pDSN newCanal)) in
   let c := set_tables (setSchema (mysql.DBName (dsn c)) MustNewTables) c in
   applyOpts ([db] ++ opts ++ [withUpdateBinlogStart; withPrepareSyncer])%list
             (set_log log.BlackHole c) = (Ok tt, c1)) ->
  dbcp c1 = Some p ->
  showVariables (dml.DB p) "binlog_format" = inr data ->
  strings.EqualFold (default "" (data !! "binlog_format")) "ROW" = false ->
  exists e, NewCanal dsn0 db opts = Fail e /\ kind e = NotSupported.
Proof.
  intros Hparse Hopts Hp Hv Hrow. cbn zeta in Hopts.
  unfold NewCanal. rewrite Hparse. cbn zeta.
  replace ([db] ++ opts ++ [withUpdateBinlogStart; withPrepareSyncer; withCheckBinlogRowFormat])%list
    with (([db] ++ opts ++ [withUpdateBinlogStart; withPrepareSyncer]) ++
          [withCheckBinlogRowFormat])%list
    by (rewrite <- !app_assoc; reflexivity).
  rewrite applyOpts_app, Hopts.
  pose proof (withCheckBinlogRowFormat_spec c1 p data Hp Hv) as Hc. rewrite Hrow in Hc.
  cbn [applyOpts]. unfold bind, withStack.
  destruct (withCheckBinlogRowFormat c1) as [r c']. cbn [fst] in Hc. subst r.
  eexists. split; reflexivity.
Qed.

(** *** Single flight *)

Lemma sum_insert (f : fpc -> nat) (l : list fpc) : forall i q q',
  l !! i = Some q ->
  (sum_list (f <$> <[i := q']> l) + f q = sum_list (f <$> l) + f q')%nat.
Proof.
  induction l as [|x l IH]; intros i q q' H; [discriminate|].
  destruct i as [|i]; cbn in *.
  - injection H as ->.
    generalize (sum_list (f <$> l)) (f q) (f q'). intros a b d. lia.
  - specialize (IH i q q' H).
    match goal with
    | |- (?h + ?A + ?d = ?h + ?B + ?e)%nat =>
        assert (E : (A + d = B + e)%nat) by exact IH;
        revert E; generalize A B d e h; intros; lia
    end.
Qed.

Lemma past_le_length (l : list fpc) : (sum_list (past <$> l) <= length l)%nat.
Proof.
  induction l as [|x l IH]; cbn; [lia|].
  assert (Hx : (past x <= 1)%nat) by (destruct x; cbn; lia).
  revert IH Hx. generalize (sum_list (past <$> l)) (past x). intros a b IH Hx. lia.
Qed.

Lemma fstep_length t i w : length (callers (fstep t i w)) = length (callers w).
Proof.
  unfold fstep. destruct (callers w !! i) as [q|]; [|reflexivity].
  destruct q; cbn; rewrite ?length_insert; try reflexivity.
  - destruct (inflight w); cbn; rewrite length_insert; reflexivity.
  - destruct (loadTable t (client w)). cbn. rewrite length_insert. reflexivity.
  - destruct (flights w !! call) as [[r|]|]; cbn; rewrite ?length_insert; reflexivity.
Qed.

Lemma frun_length t schedule : forall w,
  length (callers (frun t schedule w)) = length (callers w).
Proof.
  induction schedule as [|i r IH]; intros w; [reflexivity|].
  change (frun t (i :: r) w) with (frun t r (fstep t i w)). rewrite IH. apply fstep_length.
Qed.

Section SingleFlight.

(** A table [t] with an accepted name, and a server that answers both
    statements of the load. *)
Variable t : string.
Variable c0 : Canal.
Variable stmt : string.
Variable tc : gmap string (list Column).

Hypothesis Hvalid : IsValidIdentifier t = None.

Local Abbreviation loaded := (loadedOf t c0 stmt tc).
Local Abbreviation good := (goodOf t c0 stmt tc).
Local Abbreviation callerOk := (callerOkOf t c0 stmt tc).
Local Abbreviation FInv := (FInvOf t c0 stmt tc).

Lemma loadTable_good x :
  good x ->
  exists x', loadTable t x = (Ok loaded, x') /\ good x' /\
             tm (tables x') !! t = Some loaded /\
             loadCount x' = S (loadCount x).
Proof.
  intros (pool & Hp & Hs & Hc & Hsch).
  rewrite (loadTable_run t x pool Hp), WithCreateTable_single, Hvalid, Hs, Hc.
  cbn [fst snd tm setTm]. rewrite !lookup_alter_eq, lookup_insert_eq.
  cbn [fmap option_fmap option_map]. rewrite Hsch.
  eexists. split; [reflexivity|]. split; [|split].
  - eexists. split; [reflexivity|]. cbn. auto.
  - cbn. rewrite !lookup_alter_eq, lookup_insert_eq. reflexivity.
  - unfold loadCount. rewrite Hp. cbn [dbcp set_tables set_dbcp dml.DB dml.setDB].
    rewrite !loads_logQuery. cbn [isLoad]. lia.
Qed.

Lemma sum_starting_replicate n : sum_list (starting <$> replicate n FLookup) = 0%nat.
Proof. induction n as [|n IH]; cbn; [reflexivity|exact IH]. Qed.

Lemma sum_past_replicate n : sum_list (past <$> replicate n FLookup) = 0%nat.
Proof. induction n as [|n IH]; cbn; [reflexivity|exact IH]. Qed.

Lemma FInv_start n :
  good c0 -> tm (tables c0) !! t = None -> FInv (fstart n c0).
Proof.
  intros Hg Hmiss. unfold FInvOf, fstart. cbn [client inflight flights callers].
  split; [exact Hg|]. split; [lia|]. split; [left; exact Hmiss|].
  split; [intros k r H; destruct k; discriminate|].
  split; [intros j q H; apply lookup_replicate in H as [-> _]; exact I|].
  split; [|split; [lia|rewrite sum_starting_replicate; cbn; lia]].
  intros j j' q q' H _ Hl. apply lookup_replicate in H as [-> _]. destruct Hl.
Qed.

(** A goroutine moves on without touching the client or the group. *)
Lemma FInv_move w i q q' :
  FInv w -> callers w !! i = Some q ->
  ~ leading q -> ~ leading q' -> (past q <= past q')%nat -> callerOk w q' ->
  FInv {| client := client w; inflight := inflight w; flights := flights w;
          callers := <[i := q']> (callers w) |}.
Proof.
  clear ToUint ToInt ParseDSN FormatDSN SplitHostPort Dial WriteTo.
  intros (Hg & Hmono & Hcache & Hfl & Hth & Huniq & Hcount & Hflights) Hi Hnq Hnl Hpast Hok.
  unfold FInvOf. cbn [client inflight flights callers].
  split; [exact Hg|]. split; [exact Hmono|]. split; [exact Hcache|]. split; [exact Hfl|].
  split; [|split; [|split]].
  - intros j x Hj. apply list_lookup_insert_Some in Hj as [(<- & <- & _)|(Hne & Hj)].
    + destruct q'; exact Hok.
    + specialize (Hth j x Hj). destruct x; exact Hth.
  - intros j j' x x' Hj Hj' Hl Hl'.
    apply list_lookup_insert_Some in Hj as [(<- & <- & _)|(Hne & Hj)]; [contradiction|].
    apply list_lookup_insert_Some in Hj' as [(<- & <- & _)|(Hne' & Hj')]; [contradiction|].
    eauto.
  - pose proof (sum_insert past (callers w) i q q' Hi) as E. revert E Hcount Hpast.
    generalize (sum_list (past <$> <[i := q']> (callers w)))
               (sum_list (past <$> callers w)) (past q) (past q')
               (loadCount (client w)) (loadCount c0).
    intros. lia.
  - pose proof (sum_insert starting (callers w) i q q' Hi) as E.
    assert (Hs : starting q = 0%nat) by (destruct q; cbn in *; tauto).
    assert (Hs' : starting q' = 0%nat) by (destruct q'; cbn in *; tauto).
    rewrite Hs, Hs' in E. revert E Hflights.
    generalize (sum_list (starting <$> <[i := q']> (callers w)))
               (sum_list (starting <$> callers w))
               (loadCount (client w)) (loadCount c0) (length (flights w)).
    intros. lia.
Qed.

Lemma FInv_step i w : FInv w -> FInv (fstep t i w).
Proof.
  clear ToUint ToInt ParseDSN FormatDSN SplitHostPort Dial WriteTo.
  intros HI.
  pose proof HI as (Hg & Hmono & Hcache & Hfl & Hth & Huniq & Hcount & Hflights).
  unfold fstep. destruct (callers w !! i) as [q|] eqn:Hi; [|exact HI].
  pose proof (Hth i q Hi) as Hq.
  assert (Hlen : (i < length (callers w))%nat) by (eapply lookup_lt_Some; eassumption).
  destruct q as [| |k|k r|k|r]; cbn [callerOkOf] in Hq.
  - (* the lookup *)
    apply (FInv_move w i FLookup); [exact HI|exact Hi|cbn; auto|..].
    + unfold Tables_Table. destruct (tm (tables (client w)) !! t); cbn; auto.
    + cbn. lia.
    + unfold Tables_Table.
      destruct Hcache as [->|[-> Hlt]]; cbn; auto.
  - (* the entry into Do *)
    destruct (inflight w) as [k|] eqn:Hin.
    + rewrite <- Hin. apply (FInv_move w i FDo); [exact HI|exact Hi|cbn; auto..].
    + assert (Hnone : forall j x, callers w !! j = Some x -> ~ leading x).
      { intros j x Hj Hl. specialize (Hth j x Hj).
        destruct x; cbn in Hl, Hth; try contradiction; [|destruct Hth as [Hth _]];
          rewrite Hin in Hth; discriminate. }
      unfold FInvOf. cbn [client inflight flights callers].
      split; [exact Hg|]. split; [exact Hmono|]. split; [exact Hcache|].
      split; [|split; [|split; [|split]]].
      * intros k r Hk. apply lookup_app_Some in Hk as [Hk|[_ Hk]]; [eauto|].
        destruct (k - length (flights w))%nat; discriminate.
      * intros j x Hj. apply list_lookup_insert_Some in Hj as [(<- & <- & _)|(Hne & Hj)].
        -- reflexivity.
        -- pose proof (Hnone j x Hj) as Hn. specialize (Hth j x Hj).
           destruct x; cbn in Hn; try (exfalso; apply Hn; exact I); exact Hth.
      * intros j j' x x' Hj Hj' Hl Hl'.
        apply list_lookup_insert_Some in Hj as [(<- & <- & _)|(Hne & Hj)];
          apply list_lookup_insert_Some in Hj' as [(<- & <- & _)|(Hne' & Hj')];
          try reflexivity.
        -- exfalso. exact (Hnone _ _ Hj' Hl').
        -- exfalso. exact (Hnone _ _ Hj Hl).
        -- exfalso. exact (Hnone _ _ Hj Hl).
      * pose proof (sum_insert past (callers w) i FDo (FLeading (length (flights w))) Hi) as E.
        cbn [past] in E. revert E Hcount.
        generalize (sum_list (past <$> <[i := FLeading (length (flights w))]> (callers w)))
                   (sum_list (past <$> callers w)) (loadCount (client w)) (loadCount c0).
        intros. lia.
      * pose proof (sum_insert starting (callers w) i FDo (FLeading (length (flights w))) Hi)
          as E.
        cbn [starting] in E. rewrite length_app. cbn [length]. revert E Hflights.
        generalize (sum_list (starting <$> <[i := FLeading (length (flights w))]> (callers w)))
                   (sum_list (starting <$> callers w)) (loadCount (client w))
                   (loadCount c0) (length (flights w)).
        intros. lia.
  - (* the function of the call *)
    destruct (loadTable_good (client w) Hg) as (cl' & -> & Hg' & Htm' & Hload').
    unfold FInvOf. cbn [client inflight flights callers].
    split; [exact Hg'|]. split; [lia|]. split; [right; split; [exact Htm'|lia]|].
    split; [|split; [|split; [|split]]].
    + intros k' r Hk. destruct (Hfl k' r Hk). split; [assumption|lia].
    + intros j x Hj. apply list_lookup_insert_Some in Hj as [(<- & <- & _)|(Hne & Hj)].
      * cbn. split; [exact Hq|]. split; [reflexivity|lia].
      * specialize (Hth j x Hj). destruct x; cbn in *; try exact Hth.
        -- destruct Hth as (? & ? & ?). repeat split; try assumption. lia.
        -- destruct Hth. split; [assumption|lia].
    + intros j j' x x' Hj Hj' Hl Hl'.
      apply list_lookup_insert_Some in Hj as [(<- & <- & _)|(Hne & Hj)];
        apply list_lookup_insert_Some in Hj' as [(<- & <- & _)|(Hne' & Hj')];
        try reflexivity.
      * exact (Huniq i j' (FLeading k) x' Hi Hj' I Hl').
      * exact (Huniq j i x (FLeading k) Hj Hi Hl I).
      * eauto.
    + pose proof (sum_insert past (callers w) i (FLeading k) (FPublishing k (Ok loaded)) Hi)
        as E.
      cbn [past] in E. revert E Hcount Hload'.
      generalize (sum_list (past <$> <[i := FPublishing k (Ok loaded)]> (callers w)))
                 (sum_list (past <$> callers w)) (loadCount (client w)) (loadCount c0)
                 (loadCount cl').
      intros. lia.
    + pose proof (sum_insert starting (callers w) i (FLeading k) (FPublishing k (Ok loaded)) Hi)
        as E.
      cbn [starting] in E. revert E Hflights Hload'.
      generalize (sum_list (starting <$> <[i := FPublishing k (Ok loaded)]> (callers w)))
                 (sum_list (starting <$> callers w)) (loadCount (client w)) (loadCount c0)
                 (loadCount cl') (length (flights w)).
      intros. lia.
  - (* the hand-over *)
    destruct Hq as (Hin & -> & Hlt).
    assert (Hnone : forall j x, callers w !! j = Some x -> j <> i -> ~ leading x).
    { intros j x Hj Hne Hl. apply Hne. exact (Huniq j i x _ Hj Hi Hl I). }
    unfold FInvOf. cbn [client inflight flights callers afterDo].
    split; [exact Hg|]. split; [exact Hmono|]. split; [exact Hcache|].
    split; [|split; [|split; [|split]]].
    + intros k' r Hk. apply list_lookup_insert_Some in Hk as [(<- & Hr & _)|(Hne & Hk)].
      * injection Hr as <-. auto.
      * eauto.
    + intros j x Hj. apply list_lookup_insert_Some in Hj as [(<- & <- & _)|(Hne & Hj)].
      * cbn. auto.
      * pose proof (Hnone j x Hj (not_eq_sym Hne)) as Hn. specialize (Hth j x Hj).
        destruct x; cbn in Hn; try (exfalso; apply Hn; exact I); exact Hth.
    + intros j j' x x' Hj Hj' Hl Hl'.
      apply list_lookup_insert_Some in Hj as [(<- & <- & _)|(Hne & Hj)]; [destruct Hl|].
      apply list_lookup_insert_Some in Hj' as [(<- & <- & _)|(Hne' & Hj')]; [destruct Hl'|].
      eauto.
    + pose proof (sum_insert past (callers w) i (FPublishing k (Ok loaded))
                    (FReturned (Ok loaded)) Hi) as E.
      cbn [past] in E. revert E Hcount.
      generalize (sum_list (past <$> <[i := FReturned (Ok loaded)]> (callers w)))
                 (sum_list (past <$> callers w)) (loadCount (client w)) (loadCount c0).
      intros. lia.
    + pose proof (sum_insert starting (callers w) i (FPublishing k (Ok loaded))
                    (FReturned (Ok loaded)) Hi) as E.
      cbn [starting] in E. rewrite length_insert. revert E Hflights.
      generalize (sum_list (starting <$> <[i := FReturned (Ok loaded)]> (callers w)))
                 (sum_list (starting <$> callers w)) (loadCount (client w)) (loadCount c0)
                 (length (flights w)).
      intros. lia.
  - (* the wait *)
    destruct (flights w !! k) as [[r|]|] eqn:Hk; [|exact HI..].
    destruct (Hfl k r Hk) as [-> Hlt].
    apply (FInv_move w i (FWaiting k)); [exact HI|exact Hi|cbn; auto..].
  - exact HI.
Qed.

Lemma FInv_run schedule : forall w, FInv w -> FInv (frun t schedule w).
Proof.
  clear ToUint ToInt ParseDSN FormatDSN SplitHostPort Dial WriteTo.
  induction schedule as [|i r IH]; intros w H; [exact H|].
  apply IH, FInv_step, H.
Qed.

Lemma sum_starting_allFound (l : list fpc) :
  Forall (fun q => exists r, q = FReturned r) l -> sum_list (starting <$> l) = 0%nat.
Proof.
  induction 1 as [|q l [r ->] _ IH]; [reflexivity|]. cbn. exact IH.
Qed.


End SingleFlight.

(** *** Further properties of the client *)

(** X1: [flavor] answers mariadb exactly when the parameter [flavor] is the
    text mariadb, and mysql in every other case (no parameter, an empty one,
    another spelling). *)
Theorem flavor_mysql_or_mariadb (c : Canal) :
  (canalParams c !! "flavor" = Some MariaDBFlavor /\ flavor c = MariaDBFlavor) \/
  (canalParams c !! "flavor" <> Some MariaDBFlavor /\ flavor c = MySQLFlavor).
Proof.
  unfold flavor. destruct (canalParams c !! "flavor") as [v|]; [|right; split; [discriminate|reflexivity]].
  destruct (decide (v = MariaDBFlavor)) as [->|Hne].
  - left. split; reflexivity.
  - right. split; [congruence|].
    destruct (bool_decide (v = "")) eqn:E; [reflexivity|].
    rewrite E. rewrite (bool_decide_eq_false_2 (v = MariaDBFlavor) Hne). reflexivity.
Qed.

(** The loop over the custom parameters, for any list of names. *)
Lemma foldl_moveParam (ks : list string) : forall (params own : gmap string string) k,
  let st := foldl (fun st p => moveParam p st) (params, own) ks in
  match params !! k with
  | Some v =>
      if decide (k ∈ ks /\ v <> "")
      then fst st !! k = None /\ snd st !! k = Some v
      else fst st !! k = Some v /\ snd st !! k = own !! k
  | None => fst st !! k = None /\ snd st !! k = own !! k
  end.
Proof.
  clear. induction ks as [|p r IH]; intros params own k; cbn [foldl]; cbn zeta.
  - cbn [fst snd]. destruct (params !! k) as [v|]; [|auto].
    case_decide as Hd; [|auto]. destruct Hd as [Hin _]. inversion Hin.
  - assert (Hstay : moveParam p (params, own) = (params, own) ->
              (forall v, params !! p = Some v -> v = "") ->
              match params !! k with
              | Some v =>
                  if decide (k ∈ p :: r /\ v <> "")
                  then fst (foldl (fun st p => moveParam p st) (moveParam p (params, own)) r) !! k = None /\
                       snd (foldl (fun st p => moveParam p st) (moveParam p (params, own)) r) !! k = Some v
                  else fst (foldl (fun st p => moveParam p st) (moveParam p (params, own)) r) !! k = Some v /\
                       snd (foldl (fun st p => moveParam p st) (moveParam p (params, own)) r) !! k = own !! k
              | None =>
                  fst (foldl (fun st p => moveParam p st) (moveParam p (params, own)) r) !! k = None /\
                  snd (foldl (fun st p => moveParam p st) (moveParam p (params, own)) r) !! k = own !! k
              end).
    { intros -> Hempty. specialize (IH params own k). cbn zeta in IH.
      destruct (params !! k) as [v|] eqn:Hk; [|exact IH].
      repeat case_decide; try exact IH.
      - exfalso. destruct H as [Hin Hv]. apply H0. split; [right; exact Hin|exact Hv].
      - exfalso. destruct H0 as [Hin Hv]. apply elem_of_cons in Hin as [->|Hin].
        + apply Hv. eapply Hempty. exact Hk.
        + apply H. auto. }
    destruct (params !! p) as [vp|] eqn:Hp.
    + destruct (decide (vp = "")) as [->|Hb].
      * apply Hstay.
        -- unfold moveParam. rewrite Hp. reflexivity.
        -- intros v Hv. congruence.
      * clear Hstay.
        assert (Hm : moveParam p (params, own) = (delete p params, <[p := vp]> own)).
        { unfold moveParam. rewrite Hp. rewrite bool_decide_eq_false_2 by exact Hb. reflexivity. }
        rewrite Hm.
        specialize (IH (delete p params) (<[p := vp]> own) k). cbn zeta in IH.
        destruct (decide (k = p)) as [->|Hne].
        -- rewrite Hp. rewrite lookup_delete_eq in IH. rewrite lookup_insert_eq in IH.
           case_decide as Hn; [exact IH|].
           exfalso. apply Hn. split; [left|exact Hb].
        -- rewrite lookup_delete_ne in IH by congruence.
           rewrite lookup_insert_ne in IH by congruence.
           destruct (params !! k) as [v|] eqn:Hk; [|exact IH].
           repeat case_decide; try exact IH.
           ++ exfalso. destruct H as [Hin Hv]. apply H0. split; [right; exact Hin|exact Hv].
           ++ exfalso. destruct H0 as [Hin Hv]. apply elem_of_cons in Hin as [->|Hin]; [congruence|].
              apply H. auto.
    + apply Hstay.
      * unfold moveParam. rewrite Hp. reflexivity.
      * intros v Hv. congruence.
Qed.

(** X2: [NewCanal] moves a DSN parameter into its own map exactly when the
    name is one of the four custom names and the value is not empty; a
    custom parameter with an empty value stays in the DSN, every other
    parameter is untouched, and a name that was absent is absent from
    both. *)
Theorem stripParams_spec (c : Canal) (params : gmap string string) (k : string) :
  mysql.Params (dsn c) = Some params ->
  let c' := stripParams c in
  exists params',
    mysql.Params (dsn c') = Some params' /\
    match params !! k with
    | Some v =>
        if decide (k ∈ customMySQLParams /\ v <> "")
        then params' !! k = None /\ canalParams c' !! k = Some v
        else params' !! k = Some v /\ canalParams c' !! k = None
    | None => params' !! k = None /\ canalParams c' !! k = None
    end.
Proof.
  intros Hp c'. subst c'. unfold stripParams. rewrite Hp.
  pose proof (foldl_moveParam customMySQLParams params ∅ k) as H. cbn zeta in H.
  destruct (foldl _ _ _) as [params' own]. cbn [fst snd] in H.
  exists params'. split; [reflexivity|]. cbn [canalParams set_canalParams].
  rewrite lookup_empty in H. exact H.
Qed.

(** X3: a client built without an option that opens the pool panics, as the
    comment of [NewCanal] says: the options of the caller ran, none set
    [dbcp], and the first internal option dereferences it. *)
Theorem NewCanal_without_pool_panics (dsn0 : string) (pDSN : mysql.Config)
    (db : Option) (opts : list Option) (c1 : Canal) :
  ParseDSN dsn0 = inr pDSN ->
  applyOpts (db :: opts) (prepared pDSN) = (Ok tt, c1) ->
  dbcp c1 = None ->
  NewCanal dsn0 db opts = Panicked.
Proof.
  intros Hparse Hopts Hnil. unfold NewCanal. rewrite Hparse. cbn zeta.
  fold (prepared pDSN).
  change ([db] ++ opts ++ [withUpdateBinlogStart; withPrepareSyncer; withCheckBinlogRowFormat])%list
    with ((db :: opts) ++ [withUpdateBinlogStart; withPrepareSyncer; withCheckBinlogRowFormat])%list.
  rewrite applyOpts_app, Hopts. cbn [applyOpts].
  unfold withUpdateBinlogStart. unfold bind, withStack, onPool. rewrite Hnil. reflexivity.
Qed.

(** X4: for the mariadb flavor [CheckBinlogRowImage] returns nil without
    asking the server anything: the client is left as it was. *)
Theorem CheckBinlogRowImage_mariadb (image : string) (c : Canal) :
  flavor c = MariaDBFlavor ->
  CheckBinlogRowImage image c = (Ok tt, c).
Proof.
  intros Hf. unfold CheckBinlogRowImage, bind, get. rewrite Hf. reflexivity.
Qed.

(** X5: the syncer gets a server ID that fits uint32 and a port that fits
    uint16 whatever the parameters say, the host of the DSN address and the
    credentials of the DSN; nothing else of the client changes. *)
Theorem withPrepareSyncer_bounds (c : Canal) (host port : string) :
  SplitHostPort (mysql.Addr (dsn c)) = inr (host, port) ->
  exists sy,
    withPrepareSyncer c = (Ok tt, set_syncer (Some sy) (syncerCloses c) c) /\
    0 <= myreplicator.ServerID (myreplicator.cfg sy) < 2 ^ 32 /\
    0 <= myreplicator.Port (myreplicator.cfg sy) < 2 ^ 16 /\
    myreplicator.Host (myreplicator.cfg sy) = host /\
    myreplicator.Flavor (myreplicator.cfg sy) = flavor c /\
    myreplicator.User (myreplicator.cfg sy) = mysql.User (dsn c) /\
    myreplicator.Password (myreplicator.cfg sy) = mysql.Passwd (dsn c).
Proof.
  intros H. rewrite (withPrepareSyncer_ok c host port H).
  eexists. split; [reflexivity|]. cbn.
  split; [apply Z.mod_pos_bound; reflexivity|].
  split; [apply Z.mod_pos_bound; reflexivity|]. auto.
Qed.

(** X6: without a sink [Save] never fails and never persists: the sink
    stays nil, the time of the last save stays, so the throttle never
    closes, and the only trace is a debug line when a second has passed
    and the logger has the debug level. *)
Theorem masterSave_without_sink (f : string) (p : N) (now : time.Time) (c : Canal) :
  cfgBackend c = None ->
  let c' := snd (masterSave f p now c) in
  fst (masterSave f p now c) = Ok tt /\
  cfgBackend c' = None /\
  masterLastSaveTime c' = masterLastSaveTime c /\
  SyncedPosition c' = setFilePosition f p (masterStatus c) /\
  log.entries (log c') =
    (if (time.Second <=? time.Sub now (masterLastSaveTime c)) && log.IsDebug (log c)
     then (log.entries (log c) ++
           [(log.LDebug,
             "[binlogsync] Warning: Master Status cannot be saved because config.Setter is nil")])%list
     else log.entries (log c)).
Proof.
  intros Hs c'. subst c'. unfold masterSave, SyncedPosition. mrun. cbn.
  destruct (Z.ltb_spec (time.Sub now (masterLastSaveTime c)) time.Second) as [Hlt|Hge].
  - destruct (Z.leb_spec time.Second (time.Sub now (masterLastSaveTime c))); [lia|].
    cbn. auto.
  - destruct (Z.leb_spec time.Second (time.Sub now (masterLastSaveTime c))); [|lia].
    rewrite Hs. destruct (log.IsDebug (log c)); cbn; auto.
Qed.

(** X7: a miss that loads well is followed by hits: the second
    [FindTable] returns the same table, leaves the client as it is and
    sends nothing. *)
Theorem FindTable_then_hit (t : string) (c : Canal) (p : dml.ConnPool) stmt tc :
  tm (tables c) !! t = None -> dbcp c = Some p ->
  IsValidIdentifier t = None ->
  showCreateTable (dml.DB p) t = inr stmt ->
  informationSchemaColumns (dml.DB p) [t] = inr tc ->
  let c1 := snd (FindTable t c) in
  exists tbl,
    fst (FindTable t c) = Ok tbl /\
    Name tbl = t /\ Schema tbl = Tables_Schema (tables c) /\
    Columns tbl = default [] (tc !! t) /\ CreateSyntax tbl = stmt /\
    FindTable t c1 = (Ok tbl, c1) /\
    loadCount c1 = S (loadCount c).
Proof.
  intros Hmiss Hp Hv Hs Hl c1. subst c1.
  destruct (FindTable_miss_loads t c p stmt tc Hmiss Hp Hv Hs Hl) as (Hr & Hcached & Hloads).
  eexists. split; [exact Hr|].
  split; [reflexivity|]. split; [reflexivity|]. split; [reflexivity|]. split; [reflexivity|].
  split; [apply FindTable_hit; exact Hcached|exact Hloads].
Qed.

(** X8: a name that the identifier check refuses never reaches the
    server: [FindTable] returns that error, the registry gets no entry and
    no statement is sent. *)
Theorem FindTable_invalid_identifier (t : string) (c : Canal) (p : dml.ConnPool) (e : error) :
  tm (tables c) !! t = None -> dbcp c = Some p ->
  IsValidIdentifier t = Some e ->
  FindTable t c = (Fail e, c).
Proof.
  intros Hmiss Hp Hv.
  rewrite (FindTable_miss t c Hmiss), (loadTable_run t c p Hp), WithCreateTable_single, Hv.
  cbn [fst snd]. f_equal.
  destruct c as [d cp cb ms mt sy sc db tb cl lg w]. cbn in Hp. subst db.
  destruct p. reflexivity.
Qed.

(** X9: [Tables.DeleteFromCache] is what invalidates an entry: after it
    the next [FindTable] of that table asks the server again and returns
    what the server says now. *)
Theorem DeleteFromCache_then_FindTable (t : string) (c : Canal) (p : dml.ConnPool) stmt tc :
  dbcp c = Some p ->
  IsValidIdentifier t = None ->
  showCreateTable (dml.DB p) t = inr stmt ->
  informationSchemaColumns (dml.DB p) [t] = inr tc ->
  let c1 := set_tables (DeleteFromCache [t] (tables c)) c in
  exists tbl,
    fst (FindTable t c1) = Ok tbl /\
    Columns tbl = default [] (tc !! t) /\ CreateSyntax tbl = stmt /\
    tm (tables (snd (FindTable t c1))) !! t = Some tbl /\
    loadCount (snd (FindTable t c1)) = S (loadCount c).
Proof.
  intros Hp Hv Hs Hl c1. subst c1.
  assert (Hmiss : tm (tables (set_tables (DeleteFromCache [t] (tables c)) c)) !! t = None).
  { destruct c; cbn [tables set_tables]. apply DeleteFromCache_lookup. }
  assert (Hp' : dbcp (set_tables (DeleteFromCache [t] (tables c)) c) = Some p).
  { destruct c; exact Hp. }
  destruct (FindTable_miss_loads t _ p stmt tc Hmiss Hp' Hv Hs Hl) as (Hr & Hcached & Hloads).
  eexists. split; [exact Hr|]. split; [reflexivity|]. split; [reflexivity|].
  split; [exact Hcached|]. rewrite Hloads. unfold loadCount.
  destruct c; cbn in *. rewrite Hp. reflexivity.
Qed.

(** X10: what a [Save] hands to the sink is the encoding of the position
    that [SyncedPosition] reports after the call, under the path of the
    master position; this holds when the sink stores it and when it fails. *)
Theorem masterSave_writes_synced_position (f : string) (p : N) (now : time.Time)
    (c : Canal) (s : config.Setter) :
  cfgBackend c = Some s ->
  time.Second <= time.Sub now (masterLastSaveTime c) ->
  let c' := snd (masterSave f p now c) in
  exists k,
    cfgBackend c' = Some {| config.setResult := config.setResult s;
                            config.calls := (config.calls s ++ [k])%list |} /\
    config.path k = ConfigPathBackendPosition /\
    config.value k = WriteTo (SyncedPosition c') /\
    File (SyncedPosition c') = f /\ Position (SyncedPosition c') = p /\
    (config.stored k = true <-> fst (masterSave f p now c) = Ok tt).
Proof.
  intros Hs Hge c'. subst c'.
  destruct (config.setResult s (config.calls s) ConfigPathBackendPosition
              (WriteTo (masterStatus (set_masterStatus (setFilePosition f p (masterStatus c)) c))))
    as [err|] eqn:Hr.
  - rewrite (masterSave_failed f p now c s err Hge Hs Hr).
    unfold config.Setter_Set, SyncedPosition. cbn in *. rewrite Hr. cbn.
    eexists. split; [destruct (log.IsInfo (log c)); reflexivity|]. cbn.
    destruct (log.IsInfo (log c)); cbn; repeat split; try reflexivity; discriminate.
  - rewrite (masterSave_stored f p now c s Hge Hs Hr).
    unfold config.Setter_Set, SyncedPosition. cbn in *. rewrite Hr. cbn.
    eexists. split; [reflexivity|]. cbn. repeat split; reflexivity.
Qed.

(** X11: while the saves come less than a second after the last stored
    write, the position in memory runs ahead of the sink: [SyncedPosition]
    is the position of the last save, and the sink has not been called. *)
Theorem saveAll_position_ahead (saves : list (string * N * time.Time))
    (f : string) (p : N) (now : time.Time) (c : Canal) :
  Forall (fun x => snd x - masterLastSaveTime c < time.Second) (saves ++ [(f, p, now)]) ->
  let c' := saveAll (saves ++ [(f, p, now)]) c in
  File (SyncedPosition c') = f /\ Position (SyncedPosition c') = p /\
  cfgBackend c' = cfgBackend c /\
  masterLastSaveTime c' = masterLastSaveTime c.
Proof.
  intros H c'. subst c'.
  destruct (saveAll_quiet _ c H) as [Hb Ht].
  split; [|split; [|split; assumption]].
  - clear Hb Ht. revert c H. induction saves as [|[[f0 p0] n0] r IH]; intros c H.
    + cbn [app saveAll]. apply Forall_cons in H as [H _]. cbn in H.
      rewrite masterSave_skipped by (apply Sub_lt_Second; assumption). reflexivity.
    + cbn [app saveAll]. apply Forall_cons in H as [H1 H2]. cbn in H1.
      rewrite masterSave_skipped by (apply Sub_lt_Second; assumption). cbn [snd].
      apply IH. exact H2.
  - clear Hb Ht. revert c H. induction saves as [|[[f0 p0] n0] r IH]; intros c H.
    + cbn [app saveAll]. apply Forall_cons in H as [H _]. cbn in H.
      rewrite masterSave_skipped by (apply Sub_lt_Second; assumption). reflexivity.
    + cbn [app saveAll]. apply Forall_cons in H as [H1 H2]. cbn in H1.
      rewrite masterSave_skipped by (apply Sub_lt_Second; assumption). cbn [snd].
      apply IH. exact H2.
Qed.

End WithHelpers.

(** *** Runs on the sample collaborators *)

(** The ten sample saves fall within 100ms. *)
Lemma tenSaves_window :
  Forall (fun x => sample.T0 <= snd x <= sample.T0 + 100 * time.Millisecond) sample.tenSaves.
Proof.
  unfold sample.tenSaves. cbn [seq map].
  repeat constructor; vm_compute; discriminate.
Defined.

(** The throttle on a sink that accepts every write. *)
Lemma masterSave_throttle_witness :
  cfgBackend (withSink sample.goodSink) = Some sample.goodSink /\
  Forall (fun x => sample.T0 <= snd x <= sample.T0 + 100 * time.Millisecond) sample.tenSaves /\
  (sinkStored (saveAll sample.WriteTo sample.tenSaves (withSink sample.goodSink))
     <= S (sinkStored (withSink sample.goodSink)))%nat.
Proof.
  split; [reflexivity|]. split; [exact tenSaves_window|].
  exact (proj1 (proj2 (proj2 (proj2
    (masterSave_throttle sample.WriteTo (withSink sample.goodSink) sample.goodSink
       "bin.000001" 4%N sample.T0 sample.T0 sample.tenSaves eq_refl tenSaves_window))))).
Defined.

(** C4 as stated fails: with a sink that refuses every write, ten saves
    within 100ms make ten [Set] calls. *)
Lemma masterSave_throttle_counterexample :
  cfgBackend (withSink sample.failingSink) = Some sample.failingSink /\
  Forall (fun x => sample.T0 <= snd x <= sample.T0 + 100 * time.Millisecond) sample.tenSaves /\
  length sample.tenSaves = 10%nat /\
  sinkWrites (saveAll sample.WriteTo sample.tenSaves (withSink sample.failingSink)) = 10%nat /\
  ~ (sinkWrites (saveAll sample.WriteTo sample.tenSaves (withSink sample.failingSink)) <= 1)%nat.
Proof.
  split; [reflexivity|]. split; [exact tenSaves_window|]. split; [reflexivity|].
  assert (E : sinkWrites (saveAll sample.WriteTo sample.tenSaves (withSink sample.failingSink)) = 10%nat)
    by (vm_compute; reflexivity).
  split; [exact E|]. rewrite E. lia.
Qed.

(** A save on a sink that refuses every write. *)
Lemma masterSave_sink_error_witness :
  cfgBackend (withSink sample.failingSink) = Some sample.failingSink /\
  time.Second <= time.Sub sample.T0 (masterLastSaveTime (withSink sample.failingSink)) /\
  fst (masterSave sample.WriteTo "bin.000001" 4%N sample.T0 (withSink sample.failingSink))
    = Fail (WithStack sample.sinkDown).
Proof.
  split; [reflexivity|]. split; [vm_compute; discriminate|].
  exact (proj1 (masterSave_sink_error sample.WriteTo (withSink sample.failingSink)
                  sample.failingSink "bin.000001" 4%N sample.T0 sample.sinkDown
                  eq_refl ltac:(vm_compute; discriminate) eq_refl)).
Defined.

(** C8 as stated fails: the error of the sink comes back from [Save]. *)
Lemma masterSave_sink_error_counterexample :
  fst (masterSave sample.WriteTo "bin.000001" 4%N sample.T0 (withSink sample.failingSink))
    = Fail sample.sinkDown /\
  fst (masterSave sample.WriteTo "bin.000001" 4%N sample.T0 (withSink sample.failingSink))
    <> Ok tt.
Proof.
  assert (E : fst (masterSave sample.WriteTo "bin.000001" 4%N sample.T0 (withSink sample.failingSink))
              = Fail sample.sinkDown) by (vm_compute; reflexivity).
  split; [exact E|]. rewrite E. discriminate.
Qed.

(** Load [t] once, clear the cache, find [t] again: still one load. *)
Lemma ClearTableCache_keeps_entry_witness :
  let c1 := snd (FindTable sample.IsValidIdentifier "t" (onServer sample.server)) in
  tm (tables c1) !! "t" = Some sample.tableT /\
  loadCount c1 = 1%nat /\
  loadCount (snd (FindTable sample.IsValidIdentifier "t"
                    (snd (ClearTableCache "shop" "t" c1)))) = 1%nat.
Proof.
  cbn zeta.
  assert (H : tm (tables (snd (FindTable sample.IsValidIdentifier "t" (onServer sample.server))))
              !! "t" = Some sample.tableT) by (vm_compute; reflexivity).
  split; [exact H|]. split; [vm_compute; reflexivity|].
  destruct (ClearTableCache_keeps_entry sample.IsValidIdentifier "shop" "t" _ _ H)
    as (_ & _ & _ & E).
  rewrite E. vm_compute. reflexivity.
Defined.

(** A miss on a server that loses the connection during the column load. *)
Lemma FindTable_failed_load_stays_cached_witness :
  let c := onServer sample.serverLosingConnection in
  dbcp c = Some {| dml.DB := sample.serverLosingConnection; dml.poolDSN := "" |} /\
  tm (tables c) !! "t" = None /\
  sample.IsValidIdentifier "t" = None /\
  ddl.informationSchemaColumns sample.serverLosingConnection ["t"] = inl sample.connectionLost /\
  fst (FindTable sample.IsValidIdentifier "t" c) = Fail sample.connectionLost.
Proof.
  cbn zeta.
  split; [reflexivity|]. split; [reflexivity|]. split; [reflexivity|]. split; [reflexivity|].
  exact (proj1 (FindTable_failed_load_stays_cached sample.IsValidIdentifier "t"
                  (onServer sample.serverLosingConnection)
                  {| dml.DB := sample.serverLosingConnection; dml.poolDSN := "" |}
                  sample.connectionLost eq_refl eq_refl eq_refl
                  (or_intror (ex_intro _ _ (conj eq_refl eq_refl))))).
Defined.

(** C3 at the failing input: the first call fails, the second returns the
    entry without columns and sends nothing. *)
Lemma FindTable_failed_load_run :
  let c := onServer sample.serverLosingConnection in
  let c1 := snd (FindTable sample.IsValidIdentifier "t" c) in
  fst (FindTable sample.IsValidIdentifier "t" c) = Fail sample.connectionLost /\
  fst (FindTable sample.IsValidIdentifier "t" c1) =
    Ok (setCreateSyntax (CreateSyntax sample.tableT) (NewTable "t")) /\
  loadCount c1 = 1%nat /\
  loadCount (snd (FindTable sample.IsValidIdentifier "t" c1)) = 1%nat.
Proof. vm_compute. repeat split; reflexivity. Qed.

(** Under the sample schedule both goroutines return. *)
Lemma race_allReturned d : allReturned (run sample.raceSchedule (start 2 (streaming d))).
Proof.
  unfold allReturned.
  assert (H : exists r1 r2, goroutines (run sample.raceSchedule (start 2 (streaming d)))
                            = [Returned r1; Returned r2]).
  { unfold sample.raceSchedule, run, start, streaming. cbn.
    destruct (closeError d); cbn; eauto. }
  destruct H as (r1 & r2 & ->). repeat constructor; eexists; reflexivity.
Defined.

(** Two goroutines close a client whose pool fails to close. *)
Lemma Close_idempotent_witness :
  let c := streaming sample.serverLosingConnection in
  isClosed c = false /\
  dbcp c = Some {| dml.DB := sample.serverLosingConnection; dml.poolDSN := "" |} /\
  (1 <= 2)%nat /\
  allReturned (run sample.raceSchedule (start 2 c)) /\
  fst (Close c) = Fail sample.connectionLost /\
  wg (snd (Close c)) = wg c /\
  Close (snd (Close c)) = (Ok tt, snd (Close c)) /\
  canal (run sample.raceSchedule (start 2 c)) = snd (Close c).
Proof.
  cbn zeta.
  destruct (Close_idempotent (streaming sample.serverLosingConnection)
              {| dml.DB := sample.serverLosingConnection; dml.poolDSN := "" |}
              2 sample.raceSchedule eq_refl eq_refl (le_S 1 1 (le_n 1)))
    as (_ & _ & _ & _ & Hr & Hw & Htwice & Hrace).
  split; [reflexivity|]. split; [reflexivity|]. split; [repeat constructor|].
  split; [apply race_allReturned|]. split; [exact Hr|]. split; [exact Hw|].
  split; [exact Htwice|]. exact (proj1 (Hrace (race_allReturned _))).
Defined.

(** One worker is running and the pool fails to close: the worker stays
    pending. *)
Lemma Close_error_skips_Wait_witness :
  let c := streaming sample.serverLosingConnection in
  isClosed c = false /\
  dbcp c = Some {| dml.DB := sample.serverLosingConnection; dml.poolDSN := "" |} /\
  closeError sample.serverLosingConnection = Some sample.connectionLost /\
  sync.pending (wg c) = 1%nat /\
  fst (Close c) = Fail sample.connectionLost /\
  sync.pending (wg (snd (Close c))) = 1%nat /\
  sync.waits (wg (snd (Close c))) = 0%nat.
Proof.
  cbn zeta.
  destruct (Close_error_skips_Wait (streaming sample.serverLosingConnection)
              {| dml.DB := sample.serverLosingConnection; dml.poolDSN := "" |}
              sample.connectionLost eq_refl eq_refl eq_refl)
    as (Hr & _ & Hwaits & Hpending & _).
  split; [reflexivity|]. split; [reflexivity|]. split; [reflexivity|].
  split; [reflexivity|]. split; [exact Hr|].
  split; [rewrite Hpending; reflexivity|rewrite Hwaits; reflexivity].
Defined.

(** A server with the FULL row image, asked for FULL and for MINIMAL. *)
Lemma CheckBinlogRowImage_inverted_witness :
  let c := onServer sample.server in
  flavor c = MySQLFlavor /\
  ddl.showVariables sample.server "binlog_row_image" = inr {[ "binlog_row_image" := "FULL" ]} /\
  (exists e, fst (CheckBinlogRowImage "FULL" c) = Fail e /\ kind e = NotSupported) /\
  fst (CheckBinlogRowImage "MINIMAL" c) = Ok tt.
Proof.
  cbn zeta. split; [reflexivity|]. split; [reflexivity|]. split.
  - exact (proj1 (proj2 (proj2
      (CheckBinlogRowImage_inverted "FULL" (onServer sample.server)
         {| dml.DB := sample.server; dml.poolDSN := "" |}
         {[ "binlog_format" := "ROW" ]} {[ "binlog_row_image" := "FULL" ]}
         eq_refl eq_refl eq_refl eq_refl))) eq_refl).
  - exact (proj2 (proj2 (proj2
      (CheckBinlogRowImage_inverted "MINIMAL" (onServer sample.server)
         {| dml.DB := sample.server; dml.poolDSN := "" |}
         {[ "binlog_format" := "ROW" ]} {[ "binlog_row_image" := "FULL" ]}
         eq_refl eq_refl eq_refl eq_refl))) eq_refl).
Defined.

(** The scenario with the sample helpers and the sample server. *)
Lemma NewCanal_scenario_witness :
  sample.ParseDSN sample.scenarioDSN = inr sample.scenarioConfig /\
  sample.SplitHostPort "host:3306" = inr ("host", "3306") /\
  sample.ToUint "4" = 4%N /\
  sample.ToInt "101" = 101 /\
  sample.Dial (sample.FormatDSN (mysql.setParams (Some ∅) sample.scenarioConfig))
    = inr sample.server /\
  (exists c,
     NewCanal sample.ToUint sample.ToInt sample.ParseDSN sample.SplitHostPort
       sample.scenarioDSN (WithMySQL sample.FormatDSN sample.Dial) [] = Ok c /\
     mysql.Params (dsn c) = Some ∅ /\
     File (SyncedPosition c) = "bin.000005" /\
     Position (SyncedPosition c) = 4%N /\
     exists sy, syncer c = Some sy /\
                myreplicator.ServerID (myreplicator.cfg sy) = 101).
Proof.
  split; [vm_compute; reflexivity|]. split; [reflexivity|]. split; [reflexivity|].
  split; [reflexivity|]. split; [reflexivity|].
  destruct (NewCanal_scenario sample.ToUint sample.ToInt sample.ParseDSN sample.FormatDSN
              sample.SplitHostPort sample.Dial sample.server
              {| File := "bin.000009"; Position := 1234%N; ExecutedGTIDSet := "" |}
              {[ "binlog_format" := "ROW" ]}
              ltac:(vm_compute; reflexivity) eq_refl eq_refl eq_refl eq_refl eq_refl eq_refl
              eq_refl)
    as [(c & Hc & Hparams & _ & _ & _ & Hfile & Hposition & Hsyncer) _].
  exists c. auto.
Defined.



(** With a server that fails the load, the defect of [WithCreateTable]
    shows in a race too: the first call returns the error, the second, which
    looks into the map after the failed load, returns the half-built entry
    and no error. *)
Lemma FindTable_race_after_failed_load :
  let c := onServer sample.serverLosingConnection in
  let w := frun sample.IsValidIdentifier "t" [0; 0; 0; 1; 0]%nat (fstart 2 c) in
  callers w = [FReturned (Fail sample.connectionLost);
               FReturned (Ok (setCreateSyntax (CreateSyntax sample.tableT) (NewTable "t")))].
Proof. vm_compute. reflexivity. Qed.

(** The DSN of the scenario: the slave ID moves into the map of the client. *)
Lemma stripParams_spec_witness :
  let c := set_dsn sample.scenarioConfig newCanal in
  mysql.Params (dsn c) = Some sample.scenarioParams /\
  exists params',
    mysql.Params (dsn (stripParams c)) = Some params' /\
    params' !! "BinlogSlaveId" = None /\
    canalParams (stripParams c) !! "BinlogSlaveId" = Some "101".
Proof.
  cbn zeta. split; [reflexivity|].
  destruct (stripParams_spec (set_dsn sample.scenarioConfig newCanal) sample.scenarioParams
              "BinlogSlaveId" eq_refl) as (params' & Hp & H).
  exists params'. split; [exact Hp|].
  change (sample.scenarioParams !! "BinlogSlaveId") with (Some "101") in H.
  cbv beta iota in H. case_decide as Hd; [exact H|].
  exfalso. apply Hd. split; [|discriminate].
  unfold customMySQLParams. do 2 (apply elem_of_cons; right). apply elem_of_cons; left; reflexivity.
Defined.

(** The scenario DSN with a logger as the only option: no pool, a panic. *)
Lemma NewCanal_without_pool_panics_witness :
  sample.ParseDSN sample.scenarioDSN = inr sample.scenarioConfig /\
  dbcp (snd (applyOpts [WithLogger log.BlackHole] (prepared sample.scenarioConfig))) = None /\
  NewCanal sample.ToUint sample.ToInt sample.ParseDSN sample.SplitHostPort
    sample.scenarioDSN (WithLogger log.BlackHole) [] = Panicked.
Proof.
  split; [vm_compute; reflexivity|]. split; [reflexivity|].
  exact (NewCanal_without_pool_panics sample.ToUint sample.ToInt sample.ParseDSN
           sample.SplitHostPort sample.scenarioDSN sample.scenarioConfig
           (WithLogger log.BlackHole) []
           (snd (applyOpts [WithLogger log.BlackHole] (prepared sample.scenarioConfig)))
           ltac:(vm_compute; reflexivity) eq_refl eq_refl).
Defined.

(** A mariadb client, asked for the FULL image. *)
Lemma CheckBinlogRowImage_mariadb_witness :
  let c := set_canalParams {[ "flavor" := "mariadb" ]} (onServer sample.server) in
  flavor c = MariaDBFlavor /\
  CheckBinlogRowImage "FULL" c = (Ok tt, c).
Proof.
  cbn zeta. split; [reflexivity|].
  exact (CheckBinlogRowImage_mariadb "FULL"
           (set_canalParams {[ "flavor" := "mariadb" ]} (onServer sample.server)) eq_refl).
Defined.

(** A slave ID beyond uint32 and a port beyond uint16 wrap around. *)
Lemma withPrepareSyncer_bounds_witness :
  let c := set_canalParams {[ "BinlogSlaveId" := "4294967397" ]}
             (set_dsn (sample.configAt "host:65537") newCanal) in
  sample.SplitHostPort (mysql.Addr (dsn c)) = inr ("host", "65537") /\
  exists sy,
    syncer (snd (withPrepareSyncer sample.ToInt sample.SplitHostPort c)) = Some sy /\
    myreplicator.ServerID (myreplicator.cfg sy) = 101 /\
    myreplicator.Port (myreplicator.cfg sy) = 1.
Proof.
  cbn zeta. split; [reflexivity|].
  destruct (withPrepareSyncer_bounds sample.ToInt sample.SplitHostPort
              (set_canalParams {[ "BinlogSlaveId" := "4294967397" ]}
                 (set_dsn (sample.configAt "host:65537") newCanal))
              "host" "65537" eq_refl) as (sy & Hrun & _).
  exists sy. rewrite Hrun. split; [reflexivity|].
  apply (f_equal snd) in Hrun. apply (f_equal syncer) in Hrun.
  vm_compute in Hrun. injection Hrun as <-. split; reflexivity.
Defined.

(** A save on a client without a sink. *)
Lemma masterSave_without_sink_witness :
  let c := onServer sample.server in
  cfgBackend c = None /\
  fst (masterSave sample.WriteTo "bin.000001" 4%N sample.T0 c) = Ok tt /\
  masterLastSaveTime (snd (masterSave sample.WriteTo "bin.000001" 4%N sample.T0 c))
    = masterLastSaveTime c.
Proof.
  cbn zeta. split; [reflexivity|].
  destruct (masterSave_without_sink sample.WriteTo "bin.000001" 4%N sample.T0
              (onServer sample.server) eq_refl) as (Hr & _ & Ht & _).
  split; [exact Hr|exact Ht].
Defined.

(** The table [t] of the sample server, found twice. *)
Lemma FindTable_then_hit_witness :
  let c := onServer sample.server in
  let c1 := snd (FindTable sample.IsValidIdentifier "t" c) in
  tm (tables c) !! "t" = None /\
  sample.IsValidIdentifier "t" = None /\
  FindTable sample.IsValidIdentifier "t" c1 = (Ok sample.tableT, c1) /\
  loadCount c1 = 1%nat.
Proof.
  cbn zeta. split; [reflexivity|]. split; [reflexivity|].
  destruct (FindTable_then_hit sample.IsValidIdentifier "t" (onServer sample.server)
              {| dml.DB := sample.server; dml.poolDSN := "" |}
              "CREATE TABLE `t` (`id` int(10) unsigned NOT NULL, `name` varchar(64))"
              {[ "t" := sample.columnsOfT ]} eq_refl eq_refl eq_refl eq_refl eq_refl)
    as (tbl & Hr & _ & _ & _ & _ & Hhit & Hloads).
  split; [|rewrite Hloads; reflexivity].
  rewrite Hhit. f_equal. f_equal.
  assert (E : fst (FindTable sample.IsValidIdentifier "t" (onServer sample.server))
              = Ok sample.tableT) by (vm_compute; reflexivity).
  rewrite E in Hr. injection Hr as <-. reflexivity.
Defined.

(** The empty name is refused before any statement is sent. *)
Lemma FindTable_invalid_identifier_witness :
  let c := onServer sample.server in
  tm (tables c) !! "" = None /\
  (exists e, sample.IsValidIdentifier "" = Some e /\
             FindTable sample.IsValidIdentifier "" c = (Fail e, c)).
Proof.
  cbn zeta. split; [reflexivity|].
  exists (Newf NotValid "[dml] Incorrect identifier. Too long or empty").
  split; [reflexivity|].
  exact (FindTable_invalid_identifier sample.IsValidIdentifier "" (onServer sample.server)
           {| dml.DB := sample.server; dml.poolDSN := "" |}
           (Newf NotValid "[dml] Incorrect identifier. Too long or empty")
           eq_refl eq_refl eq_refl).
Defined.

(** Load [t], delete it from the cache, find it again: two loads. *)
Lemma DeleteFromCache_then_FindTable_witness :
  let c := snd (FindTable sample.IsValidIdentifier "t" (onServer sample.server)) in
  let c1 := set_tables (DeleteFromCache ["t"] (tables c)) c in
  tm (tables c) !! "t" = Some sample.tableT /\
  loadCount c = 1%nat /\
  loadCount (snd (FindTable sample.IsValidIdentifier "t" c1)) = 2%nat.
Proof.
  cbn zeta. split; [vm_compute; reflexivity|]. split; [vm_compute; reflexivity|].
  destruct (DeleteFromCache_then_FindTable sample.IsValidIdentifier "t"
              (snd (FindTable sample.IsValidIdentifier "t" (onServer sample.server)))
              (dml.setDB (logQuery (QLoadColumns ["t"])
                            (logQuery (QShowCreateTable "t") sample.server))
                 {| dml.DB := sample.server; dml.poolDSN := "" |})
              "CREATE TABLE `t` (`id` int(10) unsigned NOT NULL, `name` varchar(64))"
              {[ "t" := sample.columnsOfT ]}
              ltac:(vm_compute; reflexivity) eq_refl eq_refl eq_refl)
    as (tbl & _ & _ & _ & _ & Hloads).
  rewrite Hloads. vm_compute. reflexivity.
Defined.

(** A save on a sink that fails: the bytes it was handed are the new
    position. *)
Lemma masterSave_writes_synced_position_witness :
  let c := withSink sample.failingSink in
  let c' := snd (masterSave sample.WriteTo "bin.000001" 4%N sample.T0 c) in
  cfgBackend c = Some sample.failingSink /\
  time.Second <= time.Sub sample.T0 (masterLastSaveTime c) /\
  exists k, cfgBackend c' = Some {| config.setResult := config.setResult sample.failingSink;
                                    config.calls := [k] |} /\
            config.value k = sample.WriteTo (SyncedPosition c').
Proof.
  cbn zeta. split; [reflexivity|]. split; [vm_compute; discriminate|].
  destruct (masterSave_writes_synced_position sample.WriteTo "bin.000001" 4%N sample.T0
              (withSink sample.failingSink) sample.failingSink eq_refl
              ltac:(vm_compute; discriminate)) as (k & Hb & _ & Hv & _).
  exists k. split; [exact Hb|exact Hv].
Defined.

(** The ten saves of the sample after a stored write at [T0]. *)
Lemma saveAll_position_ahead_witness :
  let c := set_masterLastSaveTime sample.T0 (withSink sample.goodSink) in
  let c' := saveAll sample.WriteTo
              (removelast sample.tenSaves ++
               [("bin.000001", 904%N, sample.T0 + 90 * time.Millisecond)]) c in
  Position (SyncedPosition c') = 904%N /\ cfgBackend c' = Some sample.goodSink.
Proof.
  cbn zeta.
  destruct (saveAll_position_ahead sample.WriteTo (removelast sample.tenSaves)
              "bin.000001" 904%N (sample.T0 + 90 * time.Millisecond)
              (set_masterLastSaveTime sample.T0 (withSink sample.goodSink)))
    as (_ & Hp & Hb & _).
  - repeat constructor; vm_compute; reflexivity.
  - split; [exact Hp|exact Hb].
Defined.

End binlogsync.

(** ** Properties of the table registry *)
Module ddl_properties.
Import ddl.

(** *** The order of the options *)

Lemma insertOption_comm (a b : TableOption) (l : list TableOption) :
  sortOrder a <> sortOrder b ->
  insertOption a (insertOption b l) = insertOption b (insertOption a l).
Proof.
  intros Hne. induction l as [|x r IH]; cbn [insertOption].
  - destruct (Nat.leb_spec (sortOrder a) (sortOrder b));
      destruct (Nat.leb_spec (sortOrder b) (sortOrder a)); try reflexivity; lia.
  - destruct (Nat.leb_spec (sortOrder b) (sortOrder x)) as [Hb|Hb];
      destruct (Nat.leb_spec (sortOrder a) (sortOrder x)) as [Ha|Ha]; cbn [insertOption].
    + destruct (Nat.leb_spec (sortOrder a) (sortOrder b));
        destruct (Nat.leb_spec (sortOrder b) (sortOrder a)); try lia.
      * destruct (Nat.leb_spec (sortOrder b) (sortOrder x)); [reflexivity|lia].
      * destruct (Nat.leb_spec (sortOrder a) (sortOrder x)); [reflexivity|lia].
    + destruct (Nat.leb_spec (sortOrder a) (sortOrder b)); [lia|].
      destruct (Nat.leb_spec (sortOrder b) (sortOrder x)); [|lia].
      destruct (Nat.leb_spec (sortOrder a) (sortOrder x)); [lia|]. reflexivity.
    + destruct (Nat.leb_spec (sortOrder b) (sortOrder a)); [lia|].
      destruct (Nat.leb_spec (sortOrder a) (sortOrder x)); [|lia].
      destruct (Nat.leb_spec (sortOrder b) (sortOrder x)); [lia|]. reflexivity.
    + destruct (Nat.leb_spec (sortOrder a) (sortOrder x)); [lia|].
      destruct (Nat.leb_spec (sortOrder b) (sortOrder x)); [lia|].
      rewrite IH. reflexivity.
Qed.

Lemma sortStable_Permutation (l l' : list TableOption) :
  Permutation l l' -> NoDup (sortOrder <$> l) -> sortStable l = sortStable l'.
Proof.
  unfold sortStable. induction 1 as [|x l l' Hp IH|x y l|l l' l'' H1 IH1 H2 IH2]; intros Hnd.
  - reflexivity.
  - cbn [foldr]. rewrite fmap_cons in Hnd. apply NoDup_cons in Hnd as [_ Hnd].
    rewrite (IH Hnd). reflexivity.
  - cbn [foldr]. rewrite !fmap_cons in Hnd.
    apply NoDup_cons in Hnd as [Hy _].
    apply insertOption_comm. intros E. apply Hy. rewrite E. left.
  - rewrite (IH1 Hnd). apply IH2.
    assert (Hp : sortOrder <$> l ≡ₚ sortOrder <$> l') by (apply fmap_Permutation; exact H1).
    rewrite <- Hp. exact Hnd.
Qed.

(** X12: Options of pairwise different sort orders may be passed in any order:
    [Options] runs them the same way, so it ends in the same state with the
    same result. *)
Theorem Options_argument_order (opts opts' : list TableOption) (s : St) :
  Permutation opts opts' ->
  NoDup (sortOrder <$> opts) ->
  Options opts s = Options opts' s.
Proof.
  intros Hp Hnd. unfold Options. rewrite (sortStable_Permutation opts opts' Hp Hnd).
  reflexivity.
Qed.

Lemma insertOption_head (a : TableOption) (l : list TableOption) :
  Forall (fun x => (sortOrder a <= sortOrder x)%nat) l ->
  insertOption a l = a :: l.
Proof.
  intros H. destruct l as [|x r]; [reflexivity|]. cbn [insertOption].
  apply Forall_cons in H as [H _].
  destruct (Nat.leb_spec (sortOrder a) (sortOrder x)); [reflexivity|lia].
Qed.

(** X13: Options that are passed in non-decreasing sort order run exactly in the
    order given: the sort is stable, options of equal order keep their
    places. *)
Theorem Options_sorted_arguments (opts : list TableOption) (s : St) :
  StronglySorted (fun a b => (sortOrder a <= sortOrder b)%nat) opts ->
  Options opts s = applyOptions opts s.
Proof.
  intros Hs. unfold Options. f_equal. unfold sortStable.
  induction Hs as [|a l Hs IH Ha]; [reflexivity|].
  cbn [foldr]. rewrite IH. apply insertOption_head. exact Ha.
Qed.

Lemma applyOptions_app (a b : list TableOption) (s : St) :
  applyOptions (a ++ b) s =
  match applyOptions a s with
  | (Ok _, s') => applyOptions b s'
  | r => r
  end.
Proof.
  revert s. induction a as [|o a IH]; intros s; [reflexivity|].
  cbn [app applyOptions]. unfold bind, withStack.
  destruct (fn o s) as [[u|e|] s']; [apply IH|reflexivity..].
Qed.

(** *** The cache *)

Lemma foldl_delete_lookup (names : list string) : forall (m : gmap string Table) (k : string),
  foldl (fun m tn => delete tn m) m names !! k =
  if decide (k ∈ names) then None else m !! k.
Proof.
  induction names as [|n r IH]; intros m k; cbn [foldl].
  - case_decide as H; [inversion H|reflexivity].
  - rewrite IH. destruct (decide (k = n)) as [->|Hne].
    + rewrite lookup_delete_eq. rewrite (decide_True (P := n ∈ n :: r)) by left.
      case_decide; reflexivity.
    + rewrite lookup_delete_ne by congruence.
      destruct (decide (k ∈ r)) as [Hin|Hin].
      * rewrite decide_True by (right; exact Hin). reflexivity.
      * rewrite decide_False; [reflexivity|].
        intros H. apply elem_of_cons in H as [H|H]; [congruence|exact (Hin H)].
Qed.

(** X14: [DeleteFromCache] removes the named tables and no other: a lookup of a
    named table fails with NotFound afterwards, every other lookup answers
    as before.  With no name at all nothing is removed. *)
Theorem DeleteFromCache_spec (tableNames : list string) (t : Tables) (name : string) :
  Tables_Table name (DeleteFromCache tableNames t) =
  if decide (name ∈ tableNames) then inl (errTableNotFound name) else Tables_Table name t.
Proof.
  unfold Tables_Table, DeleteFromCache. cbn [tm setTm].
  rewrite foldl_delete_lookup. case_decide; reflexivity.
Qed.

Lemma foldl_append (names ret : list string) :
  foldl (fun ret tn => (ret ++ [tn])%list) ret names = (ret ++ names)%list.
Proof.
  revert ret. induction names as [|n r IH]; intros ret; cbn [foldl].
  - rewrite app_nil_r. reflexivity.
  - rewrite IH, <- app_assoc. reflexivity.
Qed.

Lemma Tables_Tables_app (ret : list string) (t : Tables) :
  Tables_Tables ret t = (ret ++ rangeNames t)%list.
Proof.
  unfold Tables_Tables. destruct (Nat.eqb_spec (size (tm t)) 0) as [H|H].
  - apply map_size_empty_iff in H. unfold rangeNames, rangeTables. rewrite H.
    rewrite map_to_list_empty. cbn. rewrite app_nil_r. reflexivity.
  - apply foldl_append.
Qed.

(** X15: [Tables.Tables] keeps the names it was given in front, and appends every
    table of the registry exactly once: the result is [ret] followed by
    [Len] different names, the names that [Table] finds. *)
Theorem Tables_Tables_spec (ret : list string) (t : Tables) :
  take (length ret) (Tables_Tables ret t) = ret /\
  length (Tables_Tables ret t) = (length ret + Len t)%nat /\
  NoDup (drop (length ret) (Tables_Tables ret t)) /\
  forall name, name ∈ drop (length ret) (Tables_Tables ret t) <->
               exists tbl, Tables_Table name t = inr tbl.
Proof.
  rewrite Tables_Tables_app. rewrite take_app_length, drop_app_length.
  unfold rangeNames, rangeTables, Len.
  split; [reflexivity|]. split.
  { rewrite length_app, length_fmap, length_map_to_list. reflexivity. }
  split; [apply NoDup_fst_map_to_list|].
  intros name. unfold Tables_Table. rewrite list_elem_of_fmap. split.
  - intros ([k v] & -> & Hin). apply elem_of_map_to_list in Hin. cbn.
    rewrite Hin. eauto.
  - intros (tbl & H). destruct (tm t !! name) as [v|] eqn:E; [|discriminate].
    exists (name, v). split; [reflexivity|]. apply elem_of_map_to_list. exact E.
Qed.

(** *** Validation against the database *)

Lemma validateColumns_run (tn : string) (columns : list Column) :
  forall (idx : nat) (dbTblCols : list Column) (s : St),
    snd (validateColumns tn idx columns dbTblCols s) = s /\
    (fst (validateColumns tn idx columns dbTblCols s) = Ok tt <->
     forall i c, columns !! i = Some c ->
       exists dbCol, dbTblCols !! (idx + i)%nat = Some dbCol /\ sameColumn c dbCol) /\
    ((idx + length columns <= length dbTblCols)%nat ->
     fst (validateColumns tn idx columns dbTblCols s) <> Panicked).
Proof.
  induction columns as [|c r IH]; intros idx dbTblCols s; cbn [validateColumns].
  - split; [reflexivity|]. split; [|discriminate].
    split; [intros _ i c H; discriminate H|reflexivity].
  - destruct (dbTblCols !! idx) as [dbCol|] eqn:E.
    + assert (Hhead : forall P : Prop,
                (forall i c0, (c :: r) !! i = Some c0 ->
                   exists d, dbTblCols !! (idx + i)%nat = Some d /\ sameColumn c0 d) ->
                (sameColumn c dbCol -> P) -> P).
      { intros P H HP. destruct (H 0%nat c eq_refl) as (d & Hd & Hs).
        rewrite Nat.add_0_r, E in Hd. injection Hd as <-. exact (HP Hs). }
      destruct (decide (Field c = Field dbCol)) as [Hf|Hf].
      2:{ rewrite (bool_decide_eq_false_2 _ Hf). cbn.
          split; [reflexivity|]. split; [|discriminate].
          split; [discriminate|]. intros H. apply (Hhead _ H). intros (? & _). contradiction. }
      rewrite (bool_decide_eq_true_2 _ Hf). cbn [negb].
      destruct (decide (ColumnType c = ColumnType dbCol)) as [Ht|Ht].
      2:{ rewrite (bool_decide_eq_false_2 _ Ht). cbn.
          split; [reflexivity|]. split; [|discriminate].
          split; [discriminate|]. intros H. apply (Hhead _ H). intros (_ & ? & _). contradiction. }
      rewrite (bool_decide_eq_true_2 _ Ht). cbn [negb].
      destruct (decide (Null c = Null dbCol)) as [Hn|Hn].
      2:{ rewrite (bool_decide_eq_false_2 _ Hn). cbn.
          split; [reflexivity|]. split; [|discriminate].
          split; [discriminate|]. intros H. apply (Hhead _ H). intros (_ & _ & ?). contradiction. }
      rewrite (bool_decide_eq_true_2 _ Hn). cbn [negb].
      destruct (IH (S idx) dbTblCols s) as (Hs & Hok & Hp).
      split; [exact Hs|]. split.
      * rewrite Hok. split.
        -- intros H [|i] c0 Hi.
           ++ injection Hi as <-. exists dbCol. rewrite Nat.add_0_r. repeat split; assumption.
           ++ specialize (H i c0 Hi). rewrite Nat.add_succ_r. exact H.
        -- intros H i c0 Hi. specialize (H (S i) c0 Hi). rewrite Nat.add_succ_r in H. exact H.
      * intros Hlen. apply Hp. cbn [length] in Hlen. lia.
    + cbn. split; [reflexivity|]. split.
      * split; [discriminate|]. intros H.
        destruct (H 0%nat c eq_refl) as (d & Hd & _). rewrite Nat.add_0_r, E in Hd. discriminate.
      * intros Hlen. apply lookup_ge_None in E. cbn [length] in Hlen. lia.
Qed.

Lemma columnsAgree_length (columns dbTblCols : list Column) :
  columnsAgree columns dbTblCols -> (length columns <= length dbTblCols)%nat.
Proof.
  intros H.
  destruct (Nat.le_gt_cases (length columns) (length dbTblCols)) as [Hle|Hgt]; [exact Hle|].
  destruct (lookup_lt_is_Some_2 columns (length dbTblCols) Hgt) as [c Hc].
  destruct (H _ _ Hc) as (d & Hd & _). apply lookup_lt_Some in Hd. lia.
Qed.

Lemma validateTables_run (entries : list (string * Table)) (tMap : gmap string (list Column))
    (s : St) :
  snd (validateTables entries tMap s) = s /\
  (fst (validateTables entries tMap s) = Ok tt <->
   Forall (fun e => exists dbTblCols, tMap !! fst e = Some dbTblCols /\
                                      columnsAgree (Columns (snd e)) dbTblCols) entries) /\
  fst (validateTables entries tMap s) <> Panicked.
Proof.
  induction entries as [|[tn tbl] r IH]; cbn [validateTables].
  - split; [reflexivity|]. split; [|discriminate]. split; [constructor|reflexivity].
  - destruct (tMap !! tn) as [dbTblCols|] eqn:E.
    + destruct (Nat.ltb_spec (length dbTblCols) (length (Columns tbl))) as [Hlt|Hge].
      * cbn. split; [reflexivity|]. split; [|discriminate]. split; [discriminate|].
        intros H. apply Forall_cons in H as [(d & Hd & Hag) _]. cbn [fst snd] in Hd, Hag.
        rewrite E in Hd. injection Hd as <-. apply columnsAgree_length in Hag. lia.
      * destruct (validateColumns_run tn (Columns tbl) 0 dbTblCols s) as (Hs & Hok & Hp).
        specialize (Hp Hge). unfold bind.
        destruct (validateColumns tn 0 (Columns tbl) dbTblCols s) as [[[]|e|] s'];
          cbn [fst snd] in *; subst s'.
        -- destruct IH as (IHs & IHok & IHp). split; [exact IHs|]. split; [|exact IHp].
           rewrite IHok. split.
           ++ intros H. constructor; [|exact H]. exists dbTblCols. split; [exact E|].
              exact (proj1 Hok eq_refl).
           ++ intros H. apply Forall_cons in H as [_ H]. exact H.
        -- split; [reflexivity|]. split; [|discriminate]. split; [discriminate|].
           intros H. apply Forall_cons in H as [(d & Hd & Hag) _]. cbn [fst snd] in Hd, Hag.
           rewrite E in Hd. injection Hd as <-.
           assert (Hno : Fail e = Ok tt) by exact (proj2 Hok Hag). discriminate.
        -- contradiction.
    + cbn. split; [reflexivity|]. split; [|discriminate]. split; [discriminate|].
      intros H. apply Forall_cons in H as [(d & Hd & _) _]. cbn [fst snd] in Hd.
      rewrite E in Hd. discriminate.
Qed.

(** X16: [Validate] accepts exactly when the database answers the column query,
    reports as many tables as the registry holds, and for every table of
    the registry the columns are a prefix of the columns of the database,
    compared by name, type and null flag.  Further columns of the database
    and the key of a column are not looked at. *)
Theorem Validate_accepts (s : St) :
  fst (Validate s) = Ok tt <->
  exists tMap,
    informationSchemaColumns (snd s) (rangeNames (fst s)) = inr tMap /\
    size tMap = Len (fst s) /\
    forall tn tbl, Tables_Table tn (fst s) = inr tbl ->
      exists dbTblCols, tMap !! tn = Some dbTblCols /\ columnsAgree (Columns tbl) dbTblCols.
Proof.
  unfold Validate, LoadColumns, bind, get, withStack, send, answer, modify, Len.
  cbn [fst snd informationSchemaColumns logQuery].
  assert (Hall : forall tMap : gmap string (list Column),
            Forall (fun e => exists dbTblCols, tMap !! fst e = Some dbTblCols /\
                                               columnsAgree (Columns (snd e)) dbTblCols)
                   (rangeTables (fst s)) <->
            forall tn tbl, Tables_Table tn (fst s) = inr tbl ->
              exists dbTblCols, tMap !! tn = Some dbTblCols /\
                                columnsAgree (Columns tbl) dbTblCols).
  { intros tMap. rewrite Forall_forall. unfold rangeTables, Tables_Table. split.
    - intros H tn tbl Ht. destruct (tm (fst s) !! tn) as [v|] eqn:E; [|discriminate].
      injection Ht as <-. apply (H (tn, v)). apply elem_of_map_to_list. exact E.
    - intros H [tn tbl] Hin. apply elem_of_map_to_list in Hin. cbn [fst snd].
      apply H. rewrite Hin. reflexivity. }
  destruct (informationSchemaColumns (snd s) (rangeNames (fst s))) as [e|tMap] eqn:E.
  - cbn. split; [discriminate|]. intros (tMap & H & _). discriminate.
  - cbn [fst snd]. destruct (Nat.eqb_spec (size tMap) (size (tm (fst s)))) as [Hsz|Hsz]; cbn [negb].
    + destruct (validateTables_run (rangeTables (fst s)) tMap
                  (fst s, logQuery (QLoadColumns (rangeNames (fst s))) (snd s)))
        as (_ & Hok & _).
      rewrite Hok, Hall. split.
      * intros H. exists tMap. auto.
      * intros (tMap' & HtMap & _ & H). injection HtMap as <-. exact H.
    + cbn. split; [discriminate|]. intros (tMap' & HtMap & Hsz' & _).
      injection HtMap as <-. contradiction.
Qed.

(** X17: [Validate] only reads: whatever it returns, the registry is the one it
    started from, the server has received the one column query for the
    names of the registry, and no index runs out of range. *)
Theorem Validate_read_only (s : St) :
  snd (Validate s) = (fst s, logQuery (QLoadColumns (rangeNames (fst s))) (snd s)) /\
  fst (Validate s) <> Panicked.
Proof.
  unfold Validate, LoadColumns, bind, get, withStack, send, answer, modify.
  cbn [fst snd informationSchemaColumns logQuery].
  destruct (informationSchemaColumns (snd s) (rangeNames (fst s))) as [e|tMap] eqn:E.
  - cbn. split; [reflexivity|discriminate].
  - cbn [fst snd]. destruct (size tMap =? size (tm (fst s)))%nat; cbn [negb].
    + destruct (validateTables_run (rangeTables (fst s)) tMap
                  (fst s, logQuery (QLoadColumns (rangeNames (fst s))) (snd s)))
        as (Hs & _ & Hp).
      split; [exact Hs|exact Hp].
    + cbn. split; [reflexivity|discriminate].
Qed.

(** *** Loading tables *)

Section CreateTable.

Variable IsValidIdentifier : string -> option error.

(** X18: An odd number of arguments is refused before anything is done: the
    error is NotValid, the registry and the server are as before. *)
Theorem WithCreateTable_unbalanced (db : bool) (identifierCreateSyntax : list string) (s : St) :
  (length identifierCreateSyntax mod 2 = 1)%nat ->
  exists e,
    Options [WithCreateTable IsValidIdentifier db identifierCreateSyntax] s = (Fail e, s) /\
    kind e = NotValid.
Proof.
  intros H. unfold Options, sortStable. cbn [foldr insertOption applyOptions].
  unfold bind, withStack, WithCreateTable. cbn [fn]. rewrite H. cbn.
  eexists. split; reflexivity.
Qed.

Lemma loadOnly_balanced (names : list string) :
  (length (loadOnly names) mod 2 =? 1)%nat = false.
Proof.
  assert (H : length (loadOnly names) = (length names * 2)%nat).
  { induction names as [|n r IH]; [reflexivity|]. cbn. unfold loadOnly in IH. rewrite IH. lia. }
  rewrite H, Nat.Div0.mod_mul. reflexivity.
Qed.

Lemma createEach_loadOnly (stmtOf : string -> string) (names : list string) :
  forall (acc : list string) (t : Tables) (d : DB),
    Forall (fun n => IsValidIdentifier n = None) names ->
    Forall (fun n => showCreateTable d n = inr (stmtOf n)) names ->
    createEach IsValidIdentifier true (loadOnly names) acc (t, d) =
    (Ok (acc ++ names)%list,
     (setTm (foldl (fun m n => <[n := setCreateSyntax (stmtOf n) (NewTable n)]> m) (tm t) names) t,
      foldl (fun d n => logQuery (QShowCreateTable n) d) d names)).
Proof.
  induction names as [|n r IH]; intros acc t d Hv Hs.
  - cbn. rewrite app_nil_r. destruct t; reflexivity.
  - apply Forall_cons in Hv as [Hn Hv]. apply Forall_cons in Hs as [Hsn Hs].
    change (loadOnly (n :: r)) with (n :: "" :: loadOnly r). cbn [createEach].
    change (isCreateStmt n "") with false. cbv iota.
    unfold bind at 1. unfold withStack at 1. rewrite Hn. cbn [check ret].
    unfold bind at 1. unfold onTables at 1. unfold modify at 1. cbn [fst snd].
    unfold bind at 1. cbn [ret].
    unfold bind at 1. unfold withStack at 1. unfold loadCreateSyntax.
    unfold bind at 1. unfold send, modify. cbn [fst snd].
    unfold bind at 1. unfold answer at 1. cbn [fst snd showCreateTable logQuery].
    rewrite Hsn. unfold onTables, modify. cbn [fst snd tm setTm].
    rewrite (IH (acc ++ [n])%list _ (logQuery (QShowCreateTable n) d) Hv Hs).
    rewrite <- app_assoc. cbn [app foldl tm setTm]. rewrite alter_insert_eq. reflexivity.
Qed.

Lemma foldl_logQuery (names : list string) : forall d : DB,
  informationSchemaColumns (foldl (fun d n => logQuery (QShowCreateTable n) d) d names)
    = informationSchemaColumns d /\
  queries (foldl (fun d n => logQuery (QShowCreateTable n) d) d names)
    = (queries d ++ (QShowCreateTable <$> names))%list.
Proof.
  induction names as [|n r IH]; intros d; cbn [foldl fmap list_fmap].
  - rewrite app_nil_r. auto.
  - destruct (IH (logQuery (QShowCreateTable n) d)) as [-> ->]. cbn [logQuery queries informationSchemaColumns].
    rewrite <- app_assoc. auto.
Qed.

Lemma foldl_insert_lookup (F : string -> Table) (names : list string) :
  forall (m : gmap string Table) (k : string),
    foldl (fun m n => <[n := F n]> m) m names !! k =
    if decide (k ∈ names) then Some (F k) else m !! k.
Proof.
  induction names as [|n r IH]; intros m k; cbn [foldl].
  - case_decide as H; [inversion H|reflexivity].
  - rewrite IH. destruct (decide (k ∈ r)) as [Hin|Hin].
    + rewrite decide_True by (right; exact Hin). reflexivity.
    + destruct (decide (k = n)) as [->|Hne].
      * rewrite lookup_insert_eq. rewrite decide_True by left. reflexivity.
      * rewrite lookup_insert_ne by congruence. rewrite decide_False; [reflexivity|].
        intros H. apply elem_of_cons in H as [H|H]; [congruence|exact (Hin H)].
Qed.

Lemma foldl_alter_lookup (G : string -> Table -> Table) (names : list string) :
  (forall n x, G n (G n x) = G n x) ->
  forall (m : gmap string Table) (k : string),
    foldl (fun m n => alter (G n) n m) m names !! k =
    if decide (k ∈ names) then G k <$> m !! k else m !! k.
Proof.
  intros Hidem. induction names as [|n r IH]; intros m k; cbn [foldl].
  - case_decide as H; [inversion H|reflexivity].
  - rewrite IH. destruct (decide (k = n)) as [->|Hne].
    + rewrite lookup_alter_eq. rewrite (decide_True (P := n ∈ n :: r)) by left.
      case_decide; [|reflexivity].
      destruct (m !! n); cbn; [rewrite Hidem|]; reflexivity.
    + rewrite lookup_alter_ne by congruence.
      destruct (decide (k ∈ r)) as [Hin|Hin].
      * rewrite decide_True by (right; exact Hin). reflexivity.
      * rewrite decide_False; [reflexivity|].
        intros H. apply elem_of_cons in H as [H|H]; [congruence|exact (Hin H)].
Qed.

Lemma foldl_setColumns (tc : gmap string (list Column)) (names : list string) :
  forall t : Tables,
    foldl (fun acc n =>
             setTm (alter (fun tbl => update (setSchemaColumns (Tables_Schema acc)
                                                (default [] (tc !! n)) tbl))
                          n (tm acc)) acc) t names =
    setTm (foldl (fun m n => alter (setSchemaColumns (Tables_Schema t) (default [] (tc !! n))) n m)
                 (tm t) names) t.
Proof.
  induction names as [|n r IH]; intros t; cbn [foldl].
  - destruct t; reflexivity.
  - rewrite IH. reflexivity.
Qed.

(** X19: [WithCreateTable] for tables that exist: one SHOW CREATE TABLE per
    name, in the order given, then a single column query for all the names.
    Afterwards every named table is in the registry with the schema of the
    registry, the columns and the CREATE statement the server reported;
    the other tables are untouched. *)
Theorem WithCreateTable_loads_all (names : list string) (t : Tables) (d : DB)
    (stmtOf : string -> string) (tc : gmap string (list Column)) :
  Forall (fun n => IsValidIdentifier n = None) names ->
  Forall (fun n => showCreateTable d n = inr (stmtOf n)) names ->
  informationSchemaColumns d names = inr tc ->
  let r := fn (WithCreateTable IsValidIdentifier true (loadOnly names)) (t, d) in
  fst r = Ok tt /\
  queries (snd (snd r)) = (queries d ++ (QShowCreateTable <$> names) ++ [QLoadColumns names])%list /\
  Tables_Schema (fst (snd r)) = Tables_Schema t /\
  forall name,
    Tables_Table name (fst (snd r)) =
    if decide (name ∈ names)
    then inr {| Schema := Tables_Schema t; Name := name;
                Columns := default [] (tc !! name);
                CreateSyntax := stmtOf name; IsView := false |}
    else Tables_Table name t.
Proof.
  intros Hv Hs Hc r.
  destruct (foldl_logQuery names d) as [Hinfo Hq].
  assert (Hrun : r =
            (Ok tt,
             (setTm (foldl (fun m n => alter (setSchemaColumns (Tables_Schema t)
                                                (default [] (tc !! n))) n m)
                           (foldl (fun m n => <[n := setCreateSyntax (stmtOf n) (NewTable n)]> m)
                                  (tm t) names) names) t,
              logQuery (QLoadColumns names)
                (foldl (fun d n => logQuery (QShowCreateTable n) d) d names)))).
  { subst r. unfold WithCreateTable. cbn [fn].
    rewrite loadOnly_balanced. unfold bind at 1.
    rewrite (createEach_loadOnly stmtOf names [] t d Hv Hs). cbn [app].
    cbv beta delta [bind withStack LoadColumns send answer modify onTables] iota.
    cbn [fst snd informationSchemaColumns logQuery]. rewrite Hinfo, Hc.
    rewrite foldl_setColumns. reflexivity. }
  rewrite Hrun. cbn [fst snd Tables_Schema setTm queries logQuery].
  split; [reflexivity|]. split; [rewrite Hq, <- app_assoc; reflexivity|].
  split; [reflexivity|]. intros name. unfold Tables_Table. cbn [tm setTm].
  rewrite (foldl_alter_lookup (fun n => setSchemaColumns (Tables_Schema t) (default [] (tc !! n))))
    by reflexivity.
  rewrite (foldl_insert_lookup (fun n => setCreateSyntax (stmtOf n) (NewTable n))).
  case_decide; reflexivity.
Qed.

End CreateTable.

(** *** Adding a table *)

(** X20: [Upsert] stores the new table under its name.  When the registry has
    a table of that name already, an empty schema and an empty column list
    of the new table are filled from the old one; the CREATE statement and
    the view flag are those of the new table.  No other entry changes, and
    the registry grows by one exactly when the name was new. *)
Theorem Upsert_spec (tNew : Table) (t : Tables) :
  Name tNew <> "" ->
  let t' := Upsert tNew t in
  let old := tm t !! Name tNew in
  (exists tbl,
     Tables_Table (Name tNew) t' = inr tbl /\
     Name tbl = Name tNew /\
     CreateSyntax tbl = CreateSyntax tNew /\ IsView tbl = IsView tNew /\
     Schema tbl = (if bool_decide (Schema tNew = "")
                   then match old with Some o => Schema o | None => "" end
                   else Schema tNew) /\
     Columns tbl = (if (length (Columns tNew) =? 0)%nat
                    then match old with Some o => Columns o | None => [] end
                    else Columns tNew)) /\
  (forall name, name <> Name tNew -> Tables_Table name t' = Tables_Table name t) /\
  Len t' = match old with Some _ => Len t | None => S (Len t) end.
Proof.
  intros Hname t' old. subst t' old. unfold Upsert, Tables_Table, Len.
  destruct (tm t !! Name tNew) as [tOld|] eqn:E.
  - rewrite (bool_decide_eq_false_2 (Name (if bool_decide (Schema tNew = "")
                                           then setSchemaColumns (Schema tOld) (Columns tNew) tNew
                                           else tNew) = ""))
      by (destruct (bool_decide (Schema tNew = "")); exact Hname).
    cbv zeta.
    assert (Hkey : forall x : Table,
              Name x = Name tNew ->
              Name (if (length (Columns x) =? 0)%nat
                    then setSchemaColumns (Schema x) (Columns tOld) x else x) = Name tNew).
    { intros x Hx. destruct (length (Columns x) =? 0)%nat; exact Hx. }
    rewrite Hkey by (destruct (bool_decide (Schema tNew = "")); reflexivity).
    cbn [tm setTm]. split; [|split].
    + rewrite lookup_insert_eq. eexists. split; [reflexivity|].
      unfold update.
      destruct (bool_decide (Schema tNew = "")) eqn:Es;
        [apply bool_decide_eq_true_1 in Es|];
        destruct (length (Columns tNew) =? 0)%nat eqn:Ec; cbn; rewrite ?Ec; cbn;
        try rewrite Es; auto 10.
    + intros name Hne. rewrite lookup_insert_ne by congruence. reflexivity.
    + apply map_size_insert_Some. rewrite E. eauto.
  - cbn [tm setTm]. split; [|split].
    + rewrite lookup_insert_eq. eexists. split; [reflexivity|].
      destruct (bool_decide (Schema tNew = "")) eqn:Es;
        [apply bool_decide_eq_true_1 in Es|];
        destruct (length (Columns tNew) =? 0)%nat eqn:Ec; auto 10.
      * apply Nat.eqb_eq in Ec. apply length_zero_iff_nil in Ec. auto 10.
      * apply Nat.eqb_eq in Ec. apply length_zero_iff_nil in Ec. auto 10.
    + intros name Hne. rewrite lookup_insert_ne by congruence. reflexivity.
    + apply map_size_insert_None. exact E.
Qed.

(** *** Sample runs *)

(** An option of sort order 10, next to [WithCreateTable] of order 5. *)
Lemma Options_argument_order_witness :
  let load := WithCreateTable sample.IsValidIdentifier true ["t"; ""] in
  let late := {| sortOrder := 10; fn := onTables DeleteAllFromCache |} in
  Permutation [late; load] [load; late] /\
  Options [late; load] (MustNewTables, sample.server) =
  Options [load; late] (MustNewTables, sample.server).
Proof.
  cbn zeta. split; [apply perm_swap|].
  apply Options_argument_order; [apply perm_swap|].
  apply (bool_decide_unpack _). vm_compute. exact I.
Defined.

(** Two [WithCreateTable] options, both of order 5, run as passed. *)
Lemma Options_sorted_arguments_witness :
  let first := WithCreateTable sample.IsValidIdentifier true ["t"; ""] in
  let second := WithCreateTable sample.IsValidIdentifier true ["u"; ""] in
  Options [first; second] (MustNewTables, sample.server) =
  applyOptions [first; second] (MustNewTables, sample.server).
Proof.
  cbn zeta. apply Options_sorted_arguments.
  repeat constructor.
Defined.

(** One name without its CREATE statement. *)
Lemma WithCreateTable_unbalanced_witness :
  exists e,
    Options [WithCreateTable sample.IsValidIdentifier true ["t"]] (MustNewTables, sample.server)
      = (Fail e, (MustNewTables, sample.server)) /\
    kind e = NotValid.
Proof.
  exact (WithCreateTable_unbalanced sample.IsValidIdentifier true ["t"]
           (MustNewTables, sample.server) eq_refl).
Defined.

(** The table [t] of the sample server. *)
Lemma WithCreateTable_loads_all_witness :
  let r := fn (WithCreateTable sample.IsValidIdentifier true (loadOnly ["t"]))
              (MustNewTables, sample.server) in
  fst r = Ok tt /\
  queries (snd (snd r)) = [QShowCreateTable "t"; QLoadColumns ["t"]] /\
  Tables_Table "t" (fst (snd r)) = inr sample.tableT.
Proof.
  cbn zeta.
  destruct (WithCreateTable_loads_all sample.IsValidIdentifier ["t"] MustNewTables sample.server
              (fun _ => "CREATE TABLE `t` (`id` int(10) unsigned NOT NULL, `name` varchar(64))")
              {[ "t" := sample.columnsOfT ]}
              ltac:(repeat constructor) ltac:(repeat constructor) eq_refl)
    as (Hr & Hq & _ & Ht).
  split; [exact Hr|]. split; [exact Hq|].
  rewrite (Ht "t"). rewrite decide_True by (apply elem_of_cons; left; reflexivity).
  reflexivity.
Defined.

(** A table [t] without columns, upserted over the loaded [t]. *)
Lemma Upsert_spec_witness :
  let t := setTm {[ "t" := sample.tableT ]} MustNewTables in
  Name (NewTable "t") <> "" /\
  Tables_Table "t" (Upsert (NewTable "t") t) =
    inr (setCreateSyntax "" sample.tableT) /\
  Len (Upsert (NewTable "t") t) = 1%nat.
Proof.
  cbn zeta. split; [discriminate|].
  destruct (Upsert_spec (NewTable "t") (setTm {[ "t" := sample.tableT ]} MustNewTables))
    as ((tbl & Ht & Hn & Hs & Hv & Hsch & Hcols) & _ & Hlen); [discriminate|].
  split; [|exact Hlen].
  change (Name (NewTable "t")) with "t" in Ht. rewrite Ht. f_equal. destruct tbl as [sc na co cs iv]. cbn in *. subst. reflexivity.
Defined.

End ddl_properties.

(** ** Properties of the place holder functions *)
Module interpolate_properties.
Import interpolate.

Lemma runeOf_placeHolder (b : byte) :
  (runeOf b =? placeHolderRune) = Byte.eqb b placeHolderByte.
Proof. destruct b; reflexivity. Qed.

Lemma wide_not_placeHolder (b : byte) :
  isASCII b = false -> Byte.eqb b placeHolderByte = false.
Proof. destruct b; (reflexivity || discriminate). Qed.

Lemma Count_app (s t : list byte) : Count (s ++ t) = (Count s + Count t)%nat.
Proof. induction s as [|b s IH]; cbn [app Count]; [reflexivity|]. rewrite IH. lia. Qed.

Lemma writeReps_loop_app (reps : nat) (l : list nat) : forall buf : list byte,
  foldl (fun buf r =>
           let buf := (buf ++ [placeHolderByte])%list in
           if (r <? reps - 1)%nat then (buf ++ [x2c])%list else buf) buf l =
  (buf ++ foldl (fun buf r =>
                   let buf := (buf ++ [placeHolderByte])%list in
                   if (r <? reps - 1)%nat then (buf ++ [x2c])%list else buf) [] l)%list.
Proof.
  induction l as [|r l IH]; intros buf; cbn [foldl].
  - rewrite app_nil_r. reflexivity.
  - rewrite IH. cbn zeta. rewrite (IH (if (r <? reps - 1)%nat then _ else _)).
    destruct (r <? reps - 1)%nat; cbn [app]; rewrite <- ?app_assoc; reflexivity.
Qed.

Lemma writeReps_app (reps : nat) (buf : list byte) :
  writeReps reps buf = (buf ++ writeReps reps [])%list.
Proof.
  unfold writeReps. cbn zeta.
  destruct (1 <? reps)%nat.
  - rewrite writeReps_loop_app. rewrite (writeReps_loop_app reps _ ([] ++ [x28])).
    cbn [app]. rewrite <- !app_assoc. reflexivity.
  - rewrite writeReps_loop_app. reflexivity.
Qed.

Lemma Count_writeReps_loop (reps : nat) (l : list nat) : forall buf : list byte,
  Count (foldl (fun buf r =>
                  let buf := (buf ++ [placeHolderByte])%list in
                  if (r <? reps - 1)%nat then (buf ++ [x2c])%list else buf) buf l) =
  (Count buf + length l)%nat.
Proof.
  induction l as [|r l IH]; intros buf; cbn [foldl length]; [lia|].
  rewrite IH. cbn zeta. destruct (r <? reps - 1)%nat; rewrite !Count_app; cbn; lia.
Qed.

Lemma Count_writeReps (reps : nat) : Count (writeReps reps []) = reps.
Proof.
  unfold writeReps. cbn zeta.
  destruct (1 <? reps)%nat; rewrite ?Count_app, Count_writeReps_loop, ?Count_app, length_seq;
    cbn; lia.
Qed.

Lemma expanded_wide (seg rest : list byte) (args : list nat) (i : nat) :
  Forall (fun x => isASCII x = false) seg ->
  expanded (seg ++ rest) args i = (seg ++ expanded rest args i)%list.
Proof.
  induction 1 as [|b seg Hb _ IH]; [reflexivity|].
  cbn [app expanded]. rewrite (wide_not_placeHolder b Hb), IH. reflexivity.
Qed.

Lemma expanded_scalars (sql : list byte) : forall (args : list nat) (i : nat),
  Forall (fun reps => reps = 1%nat) args ->
  (Count sql + i <= length args)%nat ->
  expanded sql args i = sql.
Proof.
  induction sql as [|b r IH]; intros args i Hone Hlen; [reflexivity|].
  cbn [expanded Count] in *. destruct (Byte.eqb b placeHolderByte) eqn:E.
  - destruct (lookup_lt_is_Some_2 args i ltac:(lia)) as [reps Hi].
    rewrite Hi. rewrite Forall_lookup in Hone. rewrite (Hone i reps Hi).
    apply Byte.byte_dec_bl in E. subst b.
    cbn [app]. change (writeReps 1 []) with [placeHolderByte]. cbn [app].
    rewrite IH by (rewrite ?Forall_lookup; auto; lia). reflexivity.
  - rewrite IH by (auto; lia). reflexivity.
Qed.

Lemma Count_expanded (sql : list byte) : forall (args : list nat) (i : nat),
  (Count sql + i <= length args)%nat ->
  Count (expanded sql args i) = sum_list (take (Count sql) (drop i args)).
Proof.
  induction sql as [|b r IH]; intros args i Hlen; [reflexivity|].
  cbn [expanded Count] in *. destruct (Byte.eqb b placeHolderByte) eqn:E.
  - destruct (lookup_lt_is_Some_2 args i ltac:(lia)) as [reps Hi].
    rewrite Hi, Count_app, Count_writeReps, IH by lia.
    rewrite (drop_S _ _ _ Hi). cbn. reflexivity.
  - cbn [Count]. rewrite E. cbn. apply IH. lia.
Qed.

Section WithUnicode.

Variable DecodeRune : list byte -> Z * nat.
Variable IsLetter IsDigit : Z -> bool.
Variable EncodeRune : Z -> list byte.
Variable argument : Type.
Variable writeTo : argument -> list byte -> error + list byte.
Variable EscapeIdent : list byte -> list byte.

(** What the functions below need of [utf8.DecodeRune]: an ASCII byte is
    its own rune of width one; any other sequence yields a rune outside
    ASCII and takes at least one byte, none of them ASCII. *)
Hypothesis DecodeRune_ascii : forall b rest,
  isASCII b = true -> DecodeRune (b :: rest) = (runeOf b, 1%nat).
Hypothesis DecodeRune_wide : forall b rest,
  isASCII b = false ->
  128 <= fst (DecodeRune (b :: rest)) /\
  (1 <= snd (DecodeRune (b :: rest)) <= length (b :: rest))%nat /\
  Forall (fun x => isASCII x = false) (take (snd (DecodeRune (b :: rest))) (b :: rest)).

Lemma slice_middle (front seg back : list byte) :
  slice (front ++ seg ++ back) (length front + length seg - length seg)
        (length front + length seg) = Some seg.
Proof.
  unfold slice. rewrite !length_app.
  replace (length front + length seg - length seg)%nat with (length front) by lia.
  destruct (Nat.leb_spec (length front) (length front + length seg)); [|lia].
  destruct (Nat.leb_spec (length front + length seg)
              (length front + (length seg + length back))); [|lia].
  cbn [andb]. rewrite drop_app_length.
  replace (length front + length seg - length front)%nat with (length seg) by lia.
  rewrite take_app_length. reflexivity.
Qed.

Lemma expandLoop_run (args : list nat) : forall (fuel : nat) (rest front : list byte)
    (i : nat) (buf : list byte),
  (length rest <= fuel)%nat ->
  expandLoop DecodeRune fuel (front ++ rest) args (length front) i buf =
  Some (Ok (buf ++ expanded rest args i)%list).
Proof.
  induction fuel as [|fuel IH]; intros rest front i buf Hfuel.
  - destruct rest; [|cbn in Hfuel; lia]. cbn [expandLoop].
    rewrite app_nil_r, Nat.ltb_irrefl. cbn. rewrite app_nil_r. reflexivity.
  - destruct rest as [|b rest].
    { cbn [expandLoop]. rewrite app_nil_r, Nat.ltb_irrefl. cbn. rewrite app_nil_r. reflexivity. }
    cbn [expandLoop].
    destruct (Nat.ltb_spec (length front) (length (front ++ b :: rest))) as [_|Hge];
      [|rewrite length_app in Hge; cbn in Hge; lia].
    rewrite drop_app_length.
    destruct (isASCII b) eqn:Hb.
    + rewrite (DecodeRune_ascii b rest Hb), runeOf_placeHolder.
      cbn [expanded]. destruct (Byte.eqb b placeHolderByte).
      * replace (front ++ b :: rest)%list with ((front ++ [b]) ++ rest)%list
          by (rewrite <- app_assoc; reflexivity).
        replace (length front + 1)%nat with (length (front ++ [b]))
          by (rewrite length_app; reflexivity).
        rewrite IH by (cbn in Hfuel; lia).
        destruct (args !! i) as [reps|]; [rewrite writeReps_app, <- app_assoc|]; reflexivity.
      * pose proof (slice_middle front [b] rest) as Hs. cbn [length app] in Hs.
        rewrite Hs.
        replace (front ++ b :: rest)%list with ((front ++ [b]) ++ rest)%list
          by (rewrite <- app_assoc; reflexivity).
        replace (length front + 1)%nat with (length (front ++ [b]))
          by (rewrite length_app; reflexivity).
        rewrite IH by (cbn in Hfuel; lia).
        rewrite <- app_assoc. reflexivity.
    + destruct (DecodeRune_wide b rest Hb) as (Hr & Hw & Hseg).
      destruct (DecodeRune (b :: rest)) as [r w]. cbn [fst snd] in *.
      destruct (Z.eqb_spec r placeHolderRune) as [E|_];
        [unfold placeHolderRune in E; lia|].
      pose proof (slice_middle front (take w (b :: rest)) (drop w (b :: rest))) as Hs.
      rewrite take_drop in Hs. rewrite length_take in Hs.
      replace (w `min` length (b :: rest))%nat with w in Hs by lia.
      rewrite Hs.
      rewrite <- (take_drop w (b :: rest)) at 1 3.
      rewrite (expanded_wide _ _ _ _ Hseg).
      rewrite (app_assoc front).
      replace (length front + w)%nat with (length (front ++ take w (b :: rest)))
        by (rewrite length_app, length_take; lia).
      rewrite IH by (rewrite length_drop; cbn [length] in *; lia).
      rewrite <- (app_assoc buf). reflexivity.
Qed.

Lemma ExpandPlaceHolders_ok (sql : list byte) (args : list nat) :
  Count sql = length args -> args <> [] ->
  ExpandPlaceHolders DecodeRune sql (Some args) = Some (Ok (expanded sql args 0)).
Proof.
  intros E Hne. unfold ExpandPlaceHolders, expandPlaceHolders. cbn zeta.
  rewrite E, Nat.eqb_refl. cbn [negb orb].
  destruct args as [|a args]; [contradiction|]. cbn [length Nat.eqb].
  apply (expandLoop_run (a :: args) (length sql) sql [] 0 []). lia.
Qed.

(** X21: [ExpandPlaceHolders] fails with Mismatch exactly when the number of
    question marks differs from the number of arguments or there is no
    argument at all, so also for a statement without question marks;
    otherwise it returns the statement with the i-th question mark replaced
    by the group of the i-th argument, every other byte kept, multi-byte
    runes included. *)
Theorem ExpandPlaceHolders_result (sql : list byte) (args : option (list nat)) :
  let a := match args with Some a => a | None => [] end in
  (Count sql <> length a \/ a = [] ->
   exists e, ExpandPlaceHolders DecodeRune sql args = Some (Fail e) /\ kind e = Mismatch) /\
  (Count sql = length a -> a <> [] ->
   ExpandPlaceHolders DecodeRune sql args = Some (Ok (expanded sql a 0))).
Proof.
  cbn zeta. split.
  - intros H. unfold ExpandPlaceHolders. cbn zeta.
    destruct (Nat.eqb_spec (Count sql) (length (match args with Some a => a | None => [] end)))
      as [E|E]; cbn [negb orb].
    + destruct H as [H|H]; [contradiction|]. rewrite H. cbn. eexists. split; reflexivity.
    + eexists. split; reflexivity.
  - intros E Hne. destruct args as [a|]; [|contradiction].
    apply ExpandPlaceHolders_ok; assumption.
Qed.

(** X22: When every argument has length one, the statement comes back
    unchanged. *)
Theorem ExpandPlaceHolders_scalars (sql : list byte) (args : list nat) :
  Count sql = length args -> args <> [] ->
  Forall (fun reps => reps = 1%nat) args ->
  ExpandPlaceHolders DecodeRune sql (Some args) = Some (Ok sql).
Proof.
  intros E Hne Hone. rewrite (ExpandPlaceHolders_ok sql args E Hne).
  rewrite expanded_scalars by (auto; lia). reflexivity.
Qed.

(** X23: The expanded statement has as many question marks as the arguments
    have values: an argument of length zero removes its question mark. *)
Theorem ExpandPlaceHolders_count (sql : list byte) (args : list nat) :
  Count sql = length args -> args <> [] ->
  exists out, ExpandPlaceHolders DecodeRune sql (Some args) = Some (Ok out) /\
              Count out = sum_list args.
Proof.
  intros E Hne. eexists. split; [exact (ExpandPlaceHolders_ok sql args E Hne)|].
  rewrite Count_expanded by lia. rewrite drop_0, E, firstn_all. reflexivity.
Qed.

(** *** Named arguments *)

Hypothesis EncodeRune_ascii : forall b, isASCII b = true -> EncodeRune (runeOf b) = [b].

Local Abbreviation step := (extractStep IsLetter IsDigit EncodeRune).
Local Abbreviation stepAll := (foldl (fun st b => step (runeOf b) st)).

Lemma extractLoop_ascii : forall (rest front : list byte) (st : extractState) (fuel : nat),
  Forall (fun b => isASCII b = true) rest ->
  (length rest <= fuel)%nat ->
  extractLoop DecodeRune IsLetter IsDigit EncodeRune fuel (front ++ rest) (length front) st =
  Some (stepAll st rest).
Proof.
  induction rest as [|b rest IH]; intros front st fuel Hascii Hfuel.
  - rewrite app_nil_r. destruct fuel; cbn [extractLoop]; rewrite Nat.ltb_irrefl; reflexivity.
  - destruct fuel as [|fuel]; [cbn in Hfuel; lia|].
    apply Forall_cons in Hascii as [Hb Hascii].
    cbn [extractLoop foldl].
    destruct (Nat.ltb_spec (length front) (length (front ++ b :: rest))) as [_|Hge];
      [|rewrite length_app in Hge; cbn in Hge; lia].
    rewrite drop_app_length, (DecodeRune_ascii b rest Hb).
    replace (front ++ b :: rest)%list with ((front ++ [b]) ++ rest)%list
      by (rewrite <- app_assoc; reflexivity).
    replace (length front + 1)%nat with (length (front ++ [b]))
      by (rewrite length_app; reflexivity).
    apply IH; [exact Hascii|cbn in Hfuel; lia].
Qed.

Lemma runeOf_inj (b c : byte) : runeOf b = runeOf c -> b = c.
Proof.
  unfold runeOf. intros H. apply N2Z.inj in H.
  assert (E : Byte.of_N (Byte.to_N b) = Byte.of_N (Byte.to_N c)) by (rewrite H; reflexivity).
  rewrite !Byte.of_to_N in E. congruence.
Qed.

Lemma runeOf_neq (b c : byte) : b <> c -> (runeOf b =? runeOf c) = false.
Proof. intros H. apply Z.eqb_neq. intros E. apply H, runeOf_inj, E. Qed.

Lemma step_quoted (b : byte) (st : extractState) :
  quoteStart st = true -> isASCII b = true ->
  step (runeOf b) st =
  {| newSQL := (newSQL st ++ [b])%list; nameBuf := nameBuf st;
     foundColon := foundColon st; quoteStart := true;
     qualifiedColumns := qualifiedColumns st; found := found st |}.
Proof.
  intros Hq Hb. unfold extractStep. rewrite Hq, (EncodeRune_ascii b Hb).
  rewrite andb_false_r. reflexivity.
Qed.

Lemma step_plain (b : byte) (st : extractState) :
  quoteStart st = false -> foundColon st = false -> plainByte b ->
  step (runeOf b) st =
  {| newSQL := (newSQL st ++ [b])%list; nameBuf := nameBuf st;
     foundColon := false; quoteStart := false;
     qualifiedColumns := qualifiedColumns st; found := found st |}.
Proof.
  intros Hq Hc (Hb & Hnq & Hnc). unfold extractStep.
  change 39 with (runeOf x27). rewrite (runeOf_neq b x27 Hnq).
  rewrite (runeOf_neq b namedArgStartByte Hnc), Hq, Hc, (EncodeRune_ascii b Hb).
  cbn [andb negb]. rewrite andb_false_r. reflexivity.
Qed.

Lemma step_name (b : byte) (st : extractState) :
  quoteStart st = false -> foundColon st = true -> nameByte IsLetter IsDigit b ->
  step (runeOf b) st =
  {| newSQL := newSQL st; nameBuf := (nameBuf st ++ [b])%list;
     foundColon := true; quoteStart := false;
     qualifiedColumns := qualifiedColumns st; found := found st |}.
Proof.
  intros Hq Hc ((Hb & Hnq & Hnc) & Hname). unfold extractStep.
  change 39 with (runeOf x27). rewrite (runeOf_neq b x27 Hnq).
  rewrite (runeOf_neq b namedArgStartByte Hnc), Hq, Hc, Hname, (EncodeRune_ascii b Hb).
  reflexivity.
Qed.

Lemma step_colon (st : extractState) :
  quoteStart st = false ->
  step (runeOf namedArgStartByte) st =
  {| newSQL := (newSQL st ++ [placeHolderByte])%list;
     nameBuf := (nameBuf st ++ [namedArgStartByte])%list;
     foundColon := true; quoteStart := false;
     qualifiedColumns := qualifiedColumns st; found := found st |}.
Proof. intros Hq. unfold extractStep. rewrite Hq. reflexivity. Qed.

Lemma step_quote (st : extractState) :
  quoteStart st = false ->
  step (runeOf x27) st =
  {| newSQL := (newSQL st ++ [x27])%list; nameBuf := nameBuf st;
     foundColon := foundColon st; quoteStart := true;
     qualifiedColumns := qualifiedColumns st; found := found st |}.
Proof.
  intros Hq. unfold extractStep. rewrite Hq.
  rewrite (EncodeRune_ascii x27 eq_refl). reflexivity.
Qed.

Lemma step_separator (b : byte) (st : extractState) :
  quoteStart st = false -> foundColon st = true -> plainByte b ->
  isNotNamedArgSeperator IsLetter IsDigit (runeOf b) = true ->
  step (runeOf b) st =
  {| newSQL := (newSQL st ++ [b])%list; nameBuf := [];
     foundColon := false; quoteStart := false;
     qualifiedColumns := if (1 <? length (nameBuf st))%nat
                         then (qualifiedColumns st ++ [nameBuf st])%list
                         else qualifiedColumns st;
     found := if (1 <? length (nameBuf st))%nat then true else found st |}.
Proof.
  intros Hq Hc (Hb & Hnq & Hnc) Hsep. unfold extractStep.
  change 39 with (runeOf x27). rewrite (runeOf_neq b x27 Hnq).
  rewrite (runeOf_neq b namedArgStartByte Hnc), Hq, Hc, Hsep, (EncodeRune_ascii b Hb).
  reflexivity.
Qed.

Lemma stepAll_quoted (seg : list byte) : forall st : extractState,
  quoteStart st = true -> Forall (fun b => isASCII b = true) seg ->
  stepAll st seg =
  {| newSQL := (newSQL st ++ seg)%list; nameBuf := nameBuf st;
     foundColon := foundColon st; quoteStart := true;
     qualifiedColumns := qualifiedColumns st; found := found st |}.
Proof.
  induction seg as [|b seg IH]; intros st Hq H; cbn [foldl].
  - rewrite app_nil_r. destruct st; cbn in *; subst; reflexivity.
  - apply Forall_cons in H as [Hb H]. rewrite (step_quoted b st Hq Hb).
    rewrite IH by (auto; reflexivity). cbn. rewrite <- app_assoc. reflexivity.
Qed.

Lemma stepAll_plain (seg : list byte) : forall st : extractState,
  quoteStart st = false -> foundColon st = false -> Forall plainByte seg ->
  stepAll st seg =
  {| newSQL := (newSQL st ++ seg)%list; nameBuf := nameBuf st;
     foundColon := false; quoteStart := false;
     qualifiedColumns := qualifiedColumns st; found := found st |}.
Proof.
  induction seg as [|b seg IH]; intros st Hq Hc H; cbn [foldl].
  - rewrite app_nil_r. destruct st; cbn in *; subst; reflexivity.
  - apply Forall_cons in H as [Hb H]. rewrite (step_plain b st Hq Hc Hb).
    rewrite IH by (auto; reflexivity). cbn. rewrite <- app_assoc. reflexivity.
Qed.

Lemma stepAll_name (seg : list byte) : forall st : extractState,
  quoteStart st = false -> foundColon st = true -> Forall (nameByte IsLetter IsDigit) seg ->
  stepAll st seg =
  {| newSQL := newSQL st; nameBuf := (nameBuf st ++ seg)%list;
     foundColon := true; quoteStart := false;
     qualifiedColumns := qualifiedColumns st; found := found st |}.
Proof.
  induction seg as [|b seg IH]; intros st Hq Hc H; cbn [foldl].
  - rewrite app_nil_r. destruct st; cbn in *; subst; reflexivity.
  - apply Forall_cons in H as [Hb H]. rewrite (step_name b st Hq Hc Hb).
    rewrite IH by (auto; reflexivity). cbn. rewrite <- app_assoc. reflexivity.
Qed.

(** Without a single quote in the bytes, the loop stays outside quotes. *)
Lemma stepAll_unquoted (seg : list byte) : forall st : extractState,
  quoteStart st = false -> Forall (fun b => b <> x27) seg ->
  quoteStart (stepAll st seg) = false.
Proof.
  induction seg as [|b seg IH]; intros st Hq H; cbn [foldl]; [exact Hq|].
  apply Forall_cons in H as [Hb H]. apply IH; [|exact H].
  unfold extractStep. change 39 with (runeOf x27). rewrite (runeOf_neq b x27 Hb), Hq.
  cbn [andb negb].
  repeat match goal with |- context [if ?c then _ else _] => destruct c end; reflexivity.
Qed.

Lemma IndexByte_app_Some (s t : list byte) (c : byte) :
  is_Some (IndexByte (s ++ c :: t) c).
Proof.
  induction s as [|b s IH]; cbn [app IndexByte].
  - rewrite (Byte.byte_dec_lb eq_refl). eauto.
  - destruct (Byte.eqb b c); [eauto|]. destruct IH as [i ->]. eauto.
Qed.

Lemma IndexByte_None (s : list byte) (c : byte) :
  IndexByte s c = None -> Forall (fun b => b <> c) s.
Proof.
  induction s as [|b s IH]; cbn [IndexByte]; [constructor|].
  destruct (Byte.eqb b c) eqn:E; [discriminate|].
  destruct (IndexByte s c); [discriminate|]. intros _.
  constructor; [|apply IH; reflexivity].
  intros ->. rewrite (Byte.byte_dec_lb eq_refl) in E. discriminate.
Qed.

Lemma extract_run (sql : list byte) (qc : list (list byte)) :
  Forall (fun b => isASCII b = true) sql ->
  is_Some (IndexByte sql namedArgStartByte) ->
  extractReplaceNamedArgs DecodeRune IsLetter IsDigit EncodeRune sql qc =
  let st := stepAll {| newSQL := []; nameBuf := []; foundColon := false; quoteStart := false;
                       qualifiedColumns := qc; found := false |} sql in
  Some (newSQL st, qualifiedColumns st, found st).
Proof.
  intros Hascii [i Hi]. unfold extractReplaceNamedArgs. rewrite Hi.
  rewrite (extractLoop_ascii sql [] _ (length sql) Hascii (le_n _)). reflexivity.
Qed.

Lemma plain_ascii (s : list byte) : Forall plainByte s -> Forall (fun b => isASCII b = true) s.
Proof. intros H. eapply Forall_impl; [exact H|]. intros b (Hb & _). exact Hb. Qed.

Lemma name_plain (s : list byte) : Forall (nameByte IsLetter IsDigit) s -> Forall plainByte s.
Proof. intros H. eapply Forall_impl; [exact H|]. intros b (Hb & _). exact Hb. Qed.

(** X24: A named argument between plain text is replaced by a question mark and
    reported with its colon. *)
Theorem extractReplaceNamedArgs_one (pre name post : list byte) (sep : byte)
    (qc : list (list byte)) :
  Forall plainByte pre -> Forall plainByte post ->
  Forall (nameByte IsLetter IsDigit) name -> name <> [] ->
  plainByte sep -> isNotNamedArgSeperator IsLetter IsDigit (runeOf sep) = true ->
  extractReplaceNamedArgs DecodeRune IsLetter IsDigit EncodeRune
    (pre ++ namedArgStartByte :: name ++ sep :: post) qc =
  Some ((pre ++ placeHolderByte :: sep :: post)%list,
        (qc ++ [namedArgStartByte :: name])%list, true).
Proof.
  intros Hpre Hpost Hname Hne Hsep Hsep'.
  rewrite extract_run.
  2:{ apply Forall_app. split; [apply plain_ascii, Hpre|].
      constructor; [reflexivity|]. apply Forall_app. split; [apply plain_ascii, name_plain, Hname|].
      constructor; [apply Hsep|apply plain_ascii, Hpost]. }
  2:{ apply IndexByte_app_Some. }
  cbn zeta. rewrite foldl_app. rewrite (stepAll_plain pre) by (auto; reflexivity).
  cbn [foldl]. rewrite step_colon by reflexivity.
  rewrite foldl_app. rewrite (stepAll_name name) by (auto; reflexivity).
  cbn [foldl]. rewrite step_separator by (auto; reflexivity).
  rewrite (stepAll_plain post) by (auto; reflexivity). cbn.
  destruct name as [|n name]; [contradiction|]. cbn.
  rewrite <- !app_assoc. reflexivity.
Qed.

(** X25: A named argument at the very end of the statement is replaced by a
    question mark but not reported. *)
Theorem extractReplaceNamedArgs_trailing (pre name : list byte) (qc : list (list byte)) :
  Forall plainByte pre -> Forall (nameByte IsLetter IsDigit) name ->
  extractReplaceNamedArgs DecodeRune IsLetter IsDigit EncodeRune
    (pre ++ namedArgStartByte :: name) qc =
  Some ((pre ++ [placeHolderByte])%list, qc, false).
Proof.
  intros Hpre Hname.
  rewrite extract_run.
  2:{ apply Forall_app. split; [apply plain_ascii, Hpre|].
      constructor; [reflexivity|]. apply plain_ascii, name_plain, Hname. }
  2:{ apply IndexByte_app_Some. }
  cbn zeta. rewrite foldl_app. rewrite (stepAll_plain pre) by (auto; reflexivity).
  cbn [foldl]. rewrite step_colon by reflexivity.
  rewrite (stepAll_name name) by (auto; reflexivity). reflexivity.
Qed.

(** X26: The closing quote is never seen: from the first single quote on, the
    statement is copied as it is, and a named argument behind a quoted text
    is neither replaced nor reported. *)
Theorem extractReplaceNamedArgs_after_quote (pre post : list byte) (qc : list (list byte)) :
  Forall (fun b => isASCII b = true) pre -> Forall (fun b => b <> x27) pre ->
  Forall (fun b => isASCII b = true) post ->
  extractReplaceNamedArgs DecodeRune IsLetter IsDigit EncodeRune (pre ++ x27 :: post) qc =
  match extractReplaceNamedArgs DecodeRune IsLetter IsDigit EncodeRune pre qc with
  | Some (new, names, fnd) => Some ((new ++ x27 :: post)%list, names, fnd)
  | None => None
  end.
Proof.
  intros Hpre Hnq Hpost.
  assert (Hall : Forall (fun b => isASCII b = true) (pre ++ x27 :: post)).
  { apply Forall_app. split; [exact Hpre|]. constructor; [reflexivity|exact Hpost]. }
  assert (Hloop : forall st0 : extractState, quoteStart st0 = false ->
            stepAll st0 (pre ++ x27 :: post) =
            {| newSQL := (newSQL (stepAll st0 pre) ++ x27 :: post)%list;
               nameBuf := nameBuf (stepAll st0 pre);
               foundColon := foundColon (stepAll st0 pre); quoteStart := true;
               qualifiedColumns := qualifiedColumns (stepAll st0 pre);
               found := found (stepAll st0 pre) |}).
  { intros st0 Hq. rewrite foldl_app. cbn [foldl].
    rewrite step_quote by (apply stepAll_unquoted; assumption).
    rewrite (stepAll_quoted post) by (auto; reflexivity). cbn. rewrite <- app_assoc. reflexivity. }
  destruct (IndexByte pre namedArgStartByte) as [i|] eqn:Hi.
  - rewrite (extract_run pre qc Hpre) by (rewrite Hi; eauto).
    rewrite (extract_run _ qc Hall).
    2:{ clear -Hi. revert i Hi. induction pre as [|b pre IH]; intros i Hi; [discriminate|].
        cbn [app IndexByte] in *. destruct (Byte.eqb b namedArgStartByte); [eauto|].
        destruct (IndexByte pre namedArgStartByte) as [j|]; [|discriminate].
        destruct (IH j eq_refl) as [k ->]. eauto. }
    cbn zeta. rewrite Hloop by reflexivity. reflexivity.
  - assert (Hplain : Forall plainByte pre).
    { apply IndexByte_None in Hi. rewrite Forall_forall in *. intros b Hb.
      repeat split; auto. }
    unfold extractReplaceNamedArgs at 2. rewrite Hi.
    destruct (IndexByte (pre ++ x27 :: post) namedArgStartByte) as [j|] eqn:Hj.
    + rewrite (extract_run _ qc Hall) by (rewrite Hj; eauto).
      cbn zeta. rewrite Hloop by reflexivity.
      rewrite (stepAll_plain pre) by (auto; reflexivity). reflexivity.
    + unfold extractReplaceNamedArgs. rewrite Hj. reflexivity.
Qed.

(** X27: Two named arguments without a separator between them give two
    question marks but one name, and [isNamedArg] refuses that name. *)
Theorem extractReplaceNamedArgs_adjacent (pre first second post : list byte) (sep : byte)
    (qc : list (list byte)) :
  Forall plainByte pre -> Forall plainByte post ->
  Forall (nameByte IsLetter IsDigit) first -> Forall (nameByte IsLetter IsDigit) second ->
  plainByte sep -> isNotNamedArgSeperator IsLetter IsDigit (runeOf sep) = true ->
  isNotNamedArgSeperator IsLetter IsDigit (runeOf namedArgStartByte) = true ->
  let name := (namedArgStartByte :: first ++ namedArgStartByte :: second)%list in
  extractReplaceNamedArgs DecodeRune IsLetter IsDigit EncodeRune
    (pre ++ name ++ sep :: post) qc =
  Some ((pre ++ placeHolderByte :: placeHolderByte :: sep :: post)%list,
        (qc ++ [name])%list, true) /\
  isNamedArg DecodeRune IsLetter IsDigit name = Some false.
Proof.
  intros Hpre Hpost Hfirst Hsecond Hsep Hsep' Hcolon name. subst name. split.
  - change (pre ++ (namedArgStartByte :: first ++ namedArgStartByte :: second) ++ sep :: post)%list
      with (pre ++ namedArgStartByte :: (first ++ namedArgStartByte :: second) ++ sep :: post)%list.
    rewrite <- (app_assoc first). cbn [app].
    rewrite extract_run.
    2:{ apply Forall_app. split; [apply plain_ascii, Hpre|].
        constructor; [reflexivity|].
        apply Forall_app. split; [apply plain_ascii, name_plain, Hfirst|].
        constructor; [reflexivity|].
        apply Forall_app. split; [apply plain_ascii, name_plain, Hsecond|].
        constructor; [apply Hsep|apply plain_ascii, Hpost]. }
    2:{ apply IndexByte_app_Some. }
    cbn zeta. rewrite foldl_app. rewrite (stepAll_plain pre) by (auto; reflexivity).
    cbn [foldl]. rewrite step_colon by reflexivity.
    rewrite foldl_app. rewrite (stepAll_name first) by (auto; reflexivity).
    cbn [foldl]. rewrite step_colon by reflexivity.
    rewrite foldl_app. rewrite (stepAll_name second) by (auto; reflexivity).
    cbn [foldl]. rewrite step_separator by (auto; reflexivity).
    rewrite (stepAll_plain post) by (auto; reflexivity).
    cbn [newSQL nameBuf qualifiedColumns found foundColon quoteStart app].
    match goal with
    | |- context [(1 <? ?n)%nat] =>
        destruct (Nat.ltb_spec 1 n) as [_|Hlen];
          [|cbn [length] in Hlen; rewrite !length_app in Hlen; cbn [length] in Hlen; lia]
    end.
    rewrite <- !app_assoc. reflexivity.
  - unfold isNamedArg. rewrite (Byte.byte_dec_lb eq_refl).
    assert (Hrange : forall fuel,
              (length (first ++ namedArgStartByte :: second) <= fuel)%nat ->
              rangeNamed DecodeRune IsLetter IsDigit fuel
                (first ++ namedArgStartByte :: second) = Some false).
    { clear Hpre Hpost Hsecond Hsep Hsep'.
      induction first as [|b first IH]; intros fuel Hfuel.
      - destruct fuel as [|fuel]; [cbn in Hfuel; lia|].
        cbn [app rangeNamed].
        rewrite (DecodeRune_ascii namedArgStartByte second eq_refl), Hcolon. reflexivity.
      - apply Forall_cons in Hfirst as [((Hb & _) & Hname) Hfirst].
        destruct fuel as [|fuel]; [cbn in Hfuel; lia|].
        cbn [app rangeNamed].
        rewrite (DecodeRune_ascii b _ Hb), Hname. cbn [drop].
        apply IH; [exact Hfirst|cbn in Hfuel; lia]. }
    apply Hrange. lia.
Qed.

(** *** Interpolation *)

Lemma runeOf_byte (b : byte) : Byte.of_N (Z.to_N (runeOf b)) = Some b.
Proof. unfold runeOf. rewrite N2Z.id. apply Byte.of_to_N. Qed.

Local Abbreviation iloop := (interpolateLoop DecodeRune EncodeRune argument writeTo EscapeIdent).

Lemma slice_one (front back : list byte) (b : byte) :
  slice (front ++ b :: back) (length front + 1 - 1) (length front + 1) = Some [b].
Proof. exact (slice_middle front [b] back). Qed.

Lemma interpolateLoop_literal (args : list argument) (ph : nat) :
  forall (seg front back buf : list byte) (fuel : nat),
    Forall literalByte seg ->
    (length seg <= fuel)%nat ->
    iloop fuel (front ++ seg ++ back) args (length front) ph buf =
    iloop (fuel - length seg) (front ++ seg ++ back) args (length (front ++ seg)) ph
          (buf ++ seg)%list.
Proof.
  induction seg as [|b seg IH]; intros front back buf fuel Hlit Hfuel.
  - cbn [length app]. rewrite !app_nil_r, Nat.sub_0_r. reflexivity.
  - apply Forall_cons in Hlit as [(Hb & Hph & Hbt & Hsq & Hdq & Hbr) Hlit].
    destruct fuel as [|fuel]; [cbn in Hfuel; lia|].
    cbn [interpolateLoop app].
    destruct (Nat.ltb_spec (length front) (length (front ++ b :: seg ++ back))) as [_|Hge];
      [|rewrite length_app in Hge; cbn in Hge; lia].
    rewrite drop_app_length, (DecodeRune_ascii b _ Hb), runeOf_placeHolder.
    destruct (Byte.eqb b placeHolderByte) eqn:E;
      [apply Byte.byte_dec_bl in E; contradiction|].
    cbn [andb].
    change 96 with (runeOf x60). change 39 with (runeOf x27). change 34 with (runeOf x22).
    change 91 with (runeOf x5b).
    rewrite !runeOf_neq by assumption. cbn [orb].
    rewrite slice_one.
    replace (front ++ b :: seg ++ back)%list with ((front ++ [b]) ++ seg ++ back)%list
      by (rewrite <- app_assoc; reflexivity).
    replace (length front + 1)%nat with (length (front ++ [b]))
      by (rewrite length_app; reflexivity).
    rewrite IH by (auto; cbn in Hfuel; lia).
    cbn [length]. rewrite <- !app_assoc. reflexivity.
Qed.

Lemma interpolateLoop_end (args : list argument) (ph fuel : nat) (sql buf : list byte) :
  iloop fuel sql args (length sql) ph buf = Some (Ok buf).
Proof. destruct fuel; cbn [interpolateLoop]; rewrite Nat.ltb_irrefl; reflexivity. Qed.

Lemma Count_literal (seg : list byte) : Forall literalByte seg -> Count seg = 0%nat.
Proof.
  induction 1 as [|b seg (_ & Hph & _) _ IH]; [reflexivity|].
  cbn [Count]. rewrite IH. destruct (Byte.eqb b placeHolderByte) eqn:E; [|reflexivity].
  apply Byte.byte_dec_bl in E. contradiction.
Qed.

(** X28: An opening bracket without a closing one makes [writeInterpolate]
    panic: the index -1 of the missing bracket is used as the end of a
    slice. *)
Theorem writeInterpolate_unclosed_bracket (buf pre post : list byte) (args : list argument) :
  Forall literalByte pre ->
  IndexByte post x5d = None ->
  args = [] \/ Count post = length args ->
  writeInterpolate DecodeRune EncodeRune argument writeTo EscapeIdent
    buf (pre ++ x5b :: post) args = Some Panicked.
Proof.
  intros Hpre Hclose Hargs. unfold writeInterpolate. cbn zeta.
  assert (Hcheck : ((0 <? length args)%nat &&
                    negb (Count (pre ++ x5b :: post) =? length args)%nat) = false).
  { destruct Hargs as [->|E]; [reflexivity|].
    rewrite Count_app, (Count_literal pre Hpre). cbn [Count]. cbn. rewrite E, Nat.eqb_refl.
    apply andb_false_r. }
  rewrite Hcheck.
  pose proof (interpolateLoop_literal args 0 pre [] (x5b :: post) buf
                (length (pre ++ x5b :: post)) Hpre) as Hrun.
  cbn [app length] in Hrun. rewrite Hrun by (rewrite length_app; lia). clear Hrun.
  rewrite length_app. cbn [length].
  replace (length pre + S (length post) - length pre)%nat with (S (length post)) by lia.
  cbn [interpolateLoop].
  rewrite drop_app_length, (DecodeRune_ascii x5b post eq_refl).
  change (runeOf x5b =? placeHolderRune) with false. cbn [andb].
  change ((runeOf x5b =? 96) || (runeOf x5b =? 39) || (runeOf x5b =? 34)) with false.
  change (runeOf x5b =? 91) with true. cbv iota.
  replace (pre ++ x5b :: post)%list with ((pre ++ [x5b]) ++ post)%list
    by (rewrite <- app_assoc; reflexivity).
  replace (length pre + 1)%nat with (length (pre ++ [x5b])) by (rewrite length_app; reflexivity).
  rewrite drop_app_length. unfold IndexRune. change (Byte.of_N (Z.to_N 93)) with (Some x5d).
  cbv iota. rewrite Hclose.
  match goal with
  | |- context [(?a <? ?b)%nat] =>
      destruct (Nat.ltb_spec a b) as [_|Hge];
        [reflexivity|exfalso; rewrite !length_app in Hge; cbn [length] in Hge; lia]
  end.
Qed.

Lemma IndexByte_first (body post : list byte) (q : byte) :
  Forall (fun b => isASCII b = true /\ b <> q) body ->
  IndexByte (body ++ q :: post) q = Some (length body).
Proof.
  induction 1 as [|b body [_ Hb] _ IH]; cbn [app IndexByte length].
  - rewrite (Byte.byte_dec_lb eq_refl). reflexivity.
  - destruct (Byte.eqb b q) eqn:E; [apply Byte.byte_dec_bl in E; contradiction|].
    rewrite IH. reflexivity.
Qed.

(** X29: A quoted text is copied as it stands, a double quote becoming a single
    one.  Its question marks are counted against the arguments but
    consume none: with as many arguments as question marks in the quoted
    text, the call succeeds and writes no argument. *)
Theorem writeInterpolate_quoted (buf pre body post : list byte) (q : byte)
    (args : list argument) :
  Forall literalByte pre -> Forall literalByte post ->
  q = x60 \/ q = x27 \/ q = x22 ->
  Forall (fun b => isASCII b = true /\ b <> q) body ->
  args = [] \/ Count body = length args ->
  let q' := if Byte.eqb q x22 then x27 else q in
  writeInterpolate DecodeRune EncodeRune argument writeTo EscapeIdent
    buf (pre ++ q :: body ++ q :: post) args =
  Some (Ok (buf ++ pre ++ q' :: body ++ q' :: post)%list).
Proof.
  intros Hpre Hpost Hq Hbody Hargs q'. subst q'.
  assert (Hq0 : isASCII q = true) by (destruct Hq as [-> | [-> | ->]]; reflexivity).
  assert (Hq1 : (runeOf q =? placeHolderRune) = false)
    by (destruct Hq as [-> | [-> | ->]]; reflexivity).
  assert (Hq2 : ((runeOf q =? 96) || (runeOf q =? 39) || (runeOf q =? 34)) = true)
    by (destruct Hq as [-> | [-> | ->]]; reflexivity).
  assert (Hq3 : EncodeRune (if runeOf q =? 34 then 39 else runeOf q) =
                [if Byte.eqb q x22 then x27 else q]).
  { destruct Hq as [-> | [-> | ->]].
    - exact (EncodeRune_ascii x60 eq_refl).
    - exact (EncodeRune_ascii x27 eq_refl).
    - exact (EncodeRune_ascii x27 eq_refl). }
  assert (Hq4 : Byte.eqb q placeHolderByte = false)
    by (destruct Hq as [-> | [-> | ->]]; reflexivity).
  unfold writeInterpolate. cbn zeta.
  assert (Hcheck : ((0 <? length args)%nat &&
                    negb (Count (pre ++ q :: body ++ q :: post) =? length args)%nat) = false).
  { destruct Hargs as [->|E]; [reflexivity|].
    rewrite Count_app, (Count_literal pre Hpre). cbn [Count]. rewrite Hq4.
    rewrite Count_app. cbn [Count]. rewrite Hq4, (Count_literal post Hpost).
    replace (0 + (0 + (Count body + (0 + 0))))%nat with (Count body) by lia.
    rewrite E, Nat.eqb_refl. apply andb_false_r. }
  rewrite Hcheck.
  pose proof (interpolateLoop_literal args 0 pre [] (q :: body ++ q :: post) buf
                (length (pre ++ q :: body ++ q :: post)) Hpre) as Hrun.
  cbn [app length] in Hrun. rewrite Hrun by (rewrite length_app; lia). clear Hrun.
  replace (length (pre ++ q :: body ++ q :: post) - length pre)%nat
    with (S (length (body ++ q :: post)))
    by (rewrite !length_app; cbn [length]; rewrite ?length_app; cbn [length]; lia).
  cbn [interpolateLoop].
  match goal with
  | |- context [(?a <? ?b)%nat] =>
      destruct (Nat.ltb_spec a b) as [_|Hge];
        [|exfalso; rewrite !length_app in Hge; cbn [length] in Hge; lia]
  end.
  rewrite drop_app_length, (DecodeRune_ascii q _ Hq0), Hq1, Hq2. cbn [andb].
  replace (pre ++ q :: body ++ q :: post)%list with ((pre ++ [q]) ++ body ++ q :: post)%list
    by (rewrite <- app_assoc; reflexivity).
  replace (length pre + 1)%nat with (length (pre ++ [q])) by (rewrite length_app; reflexivity).
  rewrite drop_app_length. unfold IndexRune. rewrite runeOf_byte.
  rewrite (IndexByte_first body post q Hbody), Hq3.
  pose proof (slice_middle (pre ++ [q]) body (q :: post)) as Hs.
  replace (length (pre ++ [q]) + length body - length body)%nat with (length (pre ++ [q]))
    in Hs by lia.
  rewrite Hs. clear Hs.
  replace ((pre ++ [q]) ++ body ++ q :: post)%list
    with (((pre ++ [q]) ++ body ++ [q]) ++ post ++ [])%list
    by (rewrite app_nil_r, <- !app_assoc; reflexivity).
  replace (length (pre ++ [q]) + length body + 1)%nat
    with (length ((pre ++ [q]) ++ body ++ [q]))
    by (rewrite !length_app; cbn [length]; lia).
  rewrite interpolateLoop_literal by (auto; rewrite length_app; cbn [length]; lia).
  rewrite (app_nil_r post), interpolateLoop_end. rewrite <- !app_assoc. reflexivity.
Qed.

Lemma Count_pairs (pairs : list (argument * list byte)) :
  Forall (fun p => Forall literalByte (snd p)) pairs ->
  Count (flat_map (fun p => placeHolderByte :: snd p) pairs) = length pairs.
Proof.
  induction 1 as [|[a seg] pairs Hseg _ IH]; [reflexivity|].
  cbn [flat_map app Count length snd]. rewrite Count_app, (Count_literal seg Hseg), IH.
  reflexivity.
Qed.

Lemma interpolateLoop_pairs (args : list argument) :
  forall (pairs : list (argument * list byte)) (done : list argument)
         (front buf : list byte) (fuel : nat),
    args = (done ++ (fst <$> pairs))%list ->
    (0 < length args)%nat ->
    Forall (fun p => Forall literalByte (snd p)) pairs ->
    (length (flat_map (fun p => placeHolderByte :: snd p) pairs) <= fuel)%nat ->
    iloop fuel (front ++ flat_map (fun p => placeHolderByte :: snd p) pairs) args
          (length front) (length done) buf =
    Some (writeAll argument writeTo pairs buf).
Proof.
  induction pairs as [|[a seg] pairs IH]; intros done front buf fuel Hargs Hpos Hlit Hfuel.
  - cbn [flat_map]. rewrite app_nil_r. apply interpolateLoop_end.
  - apply Forall_cons in Hlit as [Hseg Hlit]. cbn [snd] in Hseg.
    cbn [flat_map snd app writeAll] in *.
    destruct fuel as [|fuel]; [cbn in Hfuel; lia|].
    cbn [interpolateLoop].
    match goal with
    | |- context [(?x <? ?y)%nat] =>
        destruct (Nat.ltb_spec x y) as [_|Hge];
          [|exfalso; rewrite !length_app in Hge; cbn [length] in Hge; lia]
    end.
    rewrite drop_app_length, (DecodeRune_ascii placeHolderByte _ eq_refl).
    change (runeOf placeHolderByte =? placeHolderRune) with true.
    destruct (Nat.ltb_spec 0 (length args)) as [_|Hge]; [|lia]. cbn [andb].
    assert (Hlook : args !! length done = Some a).
    { rewrite Hargs. rewrite lookup_app_r by lia. rewrite Nat.sub_diag. reflexivity. }
    rewrite Hlook. destruct (writeTo a buf) as [err|buf']; [reflexivity|].
    replace (front ++ placeHolderByte :: seg ++ flat_map (fun p => placeHolderByte :: p.2) pairs)%list
      with ((front ++ [placeHolderByte]) ++ seg ++
            flat_map (fun p => placeHolderByte :: p.2) pairs)%list
      by (rewrite <- app_assoc; reflexivity).
    replace (length front + 1)%nat with (length (front ++ [placeHolderByte]))
      by (rewrite length_app; reflexivity).
    rewrite interpolateLoop_literal
      by (auto; cbn [length] in Hfuel; rewrite length_app in Hfuel; lia).
    rewrite (app_assoc (front ++ [placeHolderByte]) seg).
    replace (S (length done)) with (length (done ++ [a]))
      by (rewrite length_app; cbn; lia).
    apply IH.
    + rewrite Hargs, <- app_assoc. reflexivity.
    + exact Hpos.
    + exact Hlit.
    + cbn [length] in Hfuel. rewrite length_app in Hfuel. lia.
Qed.

(** X30: In a statement without quotes and brackets the i-th question mark is
    replaced by what the i-th argument writes and the text between is
    copied; the error of an argument ends the call and is returned. *)
Theorem writeInterpolate_plain (buf head : list byte)
    (pairs : list (argument * list byte)) :
  pairs <> [] ->
  Forall literalByte head ->
  Forall (fun p => Forall literalByte (snd p)) pairs ->
  writeInterpolate DecodeRune EncodeRune argument writeTo EscapeIdent
    buf (head ++ flat_map (fun p => placeHolderByte :: snd p) pairs) (fst <$> pairs) =
  Some (writeAll argument writeTo pairs (buf ++ head)%list).
Proof.
  intros Hne Hhead Hpairs. unfold writeInterpolate. cbn zeta.
  rewrite Count_app, (Count_literal head Hhead), (Count_pairs pairs Hpairs), length_fmap.
  cbn [Nat.add]. rewrite Nat.eqb_refl, andb_false_r.
  pose proof (interpolateLoop_literal (fst <$> pairs) 0 head []
                (flat_map (fun p => placeHolderByte :: snd p) pairs) buf
                (length (head ++ flat_map (fun p => placeHolderByte :: snd p) pairs)) Hhead)
    as Hrun.
  cbn [app length] in Hrun. rewrite Hrun by (rewrite length_app; lia). clear Hrun.
  apply (interpolateLoop_pairs (fst <$> pairs) pairs [] head).
  - reflexivity.
  - rewrite length_fmap. destruct pairs; [contradiction|cbn; lia].
  - exact Hpairs.
  - rewrite length_app. lia.
Qed.

End WithUnicode.

(** *** The decoder of the Go library meets the assumptions *)

Lemma sample_DecodeRune_ascii (b : byte) (rest : list byte) :
  isASCII b = true -> sample.DecodeRune (b :: rest) = (runeOf b, 1%nat).
Proof. unfold isASCII, sample.DecodeRune. intros ->. reflexivity. Qed.

Lemma between_wide (lo hi : N) (b : byte) :
  (128 <= lo)%N -> sample.between lo hi b = true -> isASCII b = false.
Proof.
  unfold sample.between, isASCII. intros Hlo H. apply andb_true_iff in H as [H _].
  apply N.leb_le in H. apply N.ltb_ge. lia.
Qed.

Lemma mod_lower (n c q k : N) :
  (c <> 0)%N -> (c * q + k <= n)%N -> (n < c * (q + 1))%N -> (k <= n mod c)%N.
Proof.
  intros Hc Hlo Hhi.
  pose proof (N.Div0.div_mod n c) as Hd. pose proof (N.mod_upper_bound n c Hc) as Hm.
  generalize dependent (n / c)%N. generalize dependent (n mod c)%N. intros m Hm d Hd.
  assert (d = q) by nia. subst d. lia.
Qed.

Lemma sample_DecodeRune_wide (b : byte) (rest : list byte) :
  isASCII b = false ->
  128 <= fst (sample.DecodeRune (b :: rest)) /\
  (1 <= snd (sample.DecodeRune (b :: rest)) <= length (b :: rest))%nat /\
  Forall (fun x => isASCII x = false)
         (take (snd (sample.DecodeRune (b :: rest))) (b :: rest)).
Proof.
  intros Hb.
  assert (Herr : 128 <= sample.RuneError /\
                 (1 <= 1 <= length (b :: rest))%nat /\
                 Forall (fun x => isASCII x = false) (take 1 (b :: rest))).
  { split; [unfold sample.RuneError; lia|]. split; [cbn; lia|].
    cbn. constructor; [exact Hb|constructor]. }
  unfold sample.DecodeRune. pose proof Hb as Hb'. unfold isASCII in Hb'. rewrite Hb'. clear Hb'.
  destruct (sample.between 194 223 b) eqn:H2.
  { destruct rest as [|b1 rest]; [exact Herr|].
    destruct (sample.between 128 191 b1) eqn:H21; [|exact Herr]. cbn [fst snd].
    split; [|split].
    - unfold sample.between in H2. apply andb_true_iff in H2 as [Hlo Hhi].
      apply N.leb_le in Hlo, Hhi.
      pose proof (mod_lower (Byte.to_N b) 32 6 2 ltac:(discriminate) ltac:(lia) ltac:(lia)).
      generalize dependent (Byte.to_N b mod 32)%N.
      generalize (Byte.to_N b1 mod 64)%N. intros. lia.
    - cbn. lia.
    - cbn. constructor; [exact Hb|].
      constructor; [apply (between_wide 128 191); [lia|exact H21]|constructor]. }
  destruct (sample.between 224 239 b) eqn:H3.
  { destruct rest as [|b1 [|b2 rest]]; [exact Herr..|].
    destruct (sample.between _ _ b1 && sample.between 128 191 b2) eqn:H31; [|exact Herr].
    apply andb_true_iff in H31 as [H31 H32]. cbn [fst snd].
    split; [|split].
    - unfold sample.between in H3, H31. apply andb_true_iff in H3 as [Hlo Hhi].
      apply N.leb_le in Hlo, Hhi. apply andb_true_iff in H31 as [Hlo1 Hhi1].
      apply N.leb_le in Hlo1, Hhi1.
      destruct (N.eqb_spec (Byte.to_N b) 224) as [E|E].
      + assert (Hhi1' : (Byte.to_N b1 <= 191)%N) by (destruct (Byte.to_N b =? 237)%N; lia).
        pose proof (mod_lower (Byte.to_N b1) 64 2 32 ltac:(discriminate) ltac:(lia) ltac:(lia)).
        generalize dependent (Byte.to_N b1 mod 64)%N.
        generalize (Byte.to_N b mod 16)%N (Byte.to_N b2 mod 64)%N. intros. lia.
      + pose proof (mod_lower (Byte.to_N b) 16 14 1 ltac:(discriminate) ltac:(lia) ltac:(lia)).
        generalize dependent (Byte.to_N b mod 16)%N.
        generalize (Byte.to_N b1 mod 64)%N (Byte.to_N b2 mod 64)%N. intros. lia.
    - cbn. lia.
    - cbn. constructor; [exact Hb|].
      constructor.
      { eapply between_wide; [|exact H31]. destruct (Byte.to_N b =? 224)%N; lia. }
      constructor; [apply (between_wide 128 191); [lia|exact H32]|constructor]. }
  destruct (sample.between 240 244 b) eqn:H4; [|exact Herr].
  destruct rest as [|b1 [|b2 [|b3 rest]]]; [exact Herr..|].
  destruct (sample.between _ _ b1 && sample.between 128 191 b2 && sample.between 128 191 b3)
    eqn:H41; [|exact Herr].
  apply andb_true_iff in H41 as [H41 H43]. apply andb_true_iff in H41 as [H41 H42].
  cbn [fst snd]. split; [|split].
  - unfold sample.between in H4, H41. apply andb_true_iff in H4 as [Hlo Hhi].
    apply N.leb_le in Hlo, Hhi. apply andb_true_iff in H41 as [Hlo1 Hhi1].
    apply N.leb_le in Hlo1, Hhi1.
    destruct (N.eqb_spec (Byte.to_N b) 240) as [E|E].
    + assert (Hhi1' : (Byte.to_N b1 <= 191)%N) by (destruct (Byte.to_N b =? 244)%N; lia).
      pose proof (mod_lower (Byte.to_N b1) 64 2 16 ltac:(discriminate) ltac:(lia) ltac:(lia)).
      generalize dependent (Byte.to_N b1 mod 64)%N.
      generalize (Byte.to_N b mod 8)%N (Byte.to_N b2 mod 64)%N (Byte.to_N b3 mod 64)%N.
      intros. lia.
    + pose proof (mod_lower (Byte.to_N b) 8 30 1 ltac:(discriminate) ltac:(lia) ltac:(lia)).
      generalize dependent (Byte.to_N b mod 8)%N.
      generalize (Byte.to_N b1 mod 64)%N (Byte.to_N b2 mod 64)%N (Byte.to_N b3 mod 64)%N.
      intros. lia.
  - cbn. lia.
  - cbn. constructor; [exact Hb|].
    constructor.
    { eapply between_wide; [|exact H41]. destruct (Byte.to_N b =? 240)%N; lia. }
    constructor; [apply (between_wide 128 191); [lia|exact H42]|].
    constructor; [apply (between_wide 128 191); [lia|exact H43]|constructor].
Qed.

Lemma sample_EncodeRune_ascii (b : byte) :
  isASCII b = true -> sample.EncodeRune (runeOf b) = [b].
Proof. destruct b; intros H; try discriminate H; reflexivity. Qed.

(** *** Sample runs *)

Ltac byte_ok :=
  unfold nameByte, plainByte, literalByte; repeat apply conj; solve [reflexivity | discriminate].
Ltac bytes_ok :=
  match goal with
  | |- Forall ?P ?l => let l' := eval vm_compute in l in change (Forall P l')
  end;
  repeat (apply List.Forall_cons; [byte_ok|]); apply List.Forall_nil.

(** The statement of the comment of [ExpandPlaceHolders], with two and
    three values: the groups come in parentheses of their own. *)
Lemma ExpandPlaceHolders_result_witness :
  let sql := list_byte_of_string "SELECT * FROM table WHERE id IN (?) AND status IN (?)" in
  Count sql = 2%nat /\
  ExpandPlaceHolders sample.DecodeRune sql (Some [2; 3]%nat) =
  Some (Ok (list_byte_of_string
              "SELECT * FROM table WHERE id IN ((?,?)) AND status IN ((?,?,?))")).
Proof.
  cbn zeta. split; [reflexivity|].
  destruct (ExpandPlaceHolders_result sample.DecodeRune
              sample_DecodeRune_ascii sample_DecodeRune_wide
              (list_byte_of_string "SELECT * FROM table WHERE id IN (?) AND status IN (?)")
              (Some [2; 3]%nat)) as [_ H].
  rewrite H; [reflexivity|reflexivity|discriminate].
Defined.

(** Two scalar arguments, and a two-byte rune in the statement. *)
Lemma ExpandPlaceHolders_scalars_witness :
  let sql := (list_byte_of_string "UPDATE t SET a = ? WHERE b = ? -- " ++ [xc3; xa9])%list in
  Count sql = 2%nat /\
  ExpandPlaceHolders sample.DecodeRune sql (Some [1; 1]%nat) = Some (Ok sql).
Proof.
  cbn zeta. split; [reflexivity|].
  apply (ExpandPlaceHolders_scalars sample.DecodeRune
           sample_DecodeRune_ascii sample_DecodeRune_wide);
    [reflexivity|discriminate|repeat constructor].
Defined.

(** An empty slice and a slice of two values. *)
Lemma ExpandPlaceHolders_count_witness :
  let sql := list_byte_of_string "a IN ? OR b IN ?" in
  Count sql = 2%nat /\
  exists out, ExpandPlaceHolders sample.DecodeRune sql (Some [0; 2]%nat) = Some (Ok out) /\
              out = list_byte_of_string "a IN  OR b IN (?,?)" /\ Count out = 2%nat.
Proof.
  cbn zeta. split; [reflexivity|].
  destruct (ExpandPlaceHolders_count sample.DecodeRune
              sample_DecodeRune_ascii sample_DecodeRune_wide
              (list_byte_of_string "a IN ? OR b IN ?") [0; 2]%nat eq_refl ltac:(discriminate))
    as (out & Hout & Hcount).
  exists out. split; [exact Hout|]. split; [|exact Hcount].
  assert (E : ExpandPlaceHolders sample.DecodeRune (list_byte_of_string "a IN ? OR b IN ?")
                (Some [0; 2]%nat) = Some (Ok (list_byte_of_string "a IN  OR b IN (?,?)")))
    by (vm_compute; reflexivity).
  rewrite E in Hout. congruence.
Defined.

(** One named argument in the middle of a statement. *)
Lemma extractReplaceNamedArgs_one_witness :
  extractReplaceNamedArgs sample.DecodeRune sample.IsLetter sample.IsDigit sample.EncodeRune
    (list_byte_of_string "WHERE id = :id LIMIT 1") [] =
  Some (list_byte_of_string "WHERE id = ? LIMIT 1", [list_byte_of_string ":id"], true).
Proof.
  exact (extractReplaceNamedArgs_one sample.DecodeRune sample.IsLetter sample.IsDigit
           sample.EncodeRune sample_DecodeRune_ascii sample_EncodeRune_ascii
           (list_byte_of_string "WHERE id = ") (list_byte_of_string "id")
           (list_byte_of_string "LIMIT 1") x20 []
           ltac:(bytes_ok) ltac:(bytes_ok) ltac:(bytes_ok) ltac:(discriminate)
           ltac:(byte_ok) eq_refl).
Defined.

(** The same named argument at the end of the statement. *)
Lemma extractReplaceNamedArgs_trailing_witness :
  extractReplaceNamedArgs sample.DecodeRune sample.IsLetter sample.IsDigit sample.EncodeRune
    (list_byte_of_string "WHERE id = :id") [] =
  Some (list_byte_of_string "WHERE id = ?", [], false).
Proof.
  exact (extractReplaceNamedArgs_trailing sample.DecodeRune sample.IsLetter sample.IsDigit
           sample.EncodeRune sample_DecodeRune_ascii sample_EncodeRune_ascii
           (list_byte_of_string "WHERE id = ") (list_byte_of_string "id") []
           ltac:(bytes_ok) ltac:(bytes_ok)).
Defined.

(** A named argument behind a quoted text. *)
Lemma extractReplaceNamedArgs_after_quote_witness :
  extractReplaceNamedArgs sample.DecodeRune sample.IsLetter sample.IsDigit sample.EncodeRune
    (list_byte_of_string "WHERE name = 'x' AND id = :id ") [] =
  Some (list_byte_of_string "WHERE name = 'x' AND id = :id ", [], false).
Proof.
  exact (extractReplaceNamedArgs_after_quote sample.DecodeRune sample.IsLetter sample.IsDigit
           sample.EncodeRune sample_DecodeRune_ascii sample_EncodeRune_ascii
           (list_byte_of_string "WHERE name = ") (list_byte_of_string "x' AND id = :id ") []
           ltac:(bytes_ok) ltac:(bytes_ok) ltac:(bytes_ok)).
Defined.

(** Two named arguments that touch. *)
Lemma extractReplaceNamedArgs_adjacent_witness :
  extractReplaceNamedArgs sample.DecodeRune sample.IsLetter sample.IsDigit sample.EncodeRune
    (list_byte_of_string "VALUES (:a:b)") [] =
  Some (list_byte_of_string "VALUES (??)", [list_byte_of_string ":a:b"], true) /\
  isNamedArg sample.DecodeRune sample.IsLetter sample.IsDigit (list_byte_of_string ":a:b")
    = Some false.
Proof.
  exact (extractReplaceNamedArgs_adjacent sample.DecodeRune sample.IsLetter sample.IsDigit
           sample.EncodeRune sample_DecodeRune_ascii sample_EncodeRune_ascii
           (list_byte_of_string "VALUES (") (list_byte_of_string "a")
           (list_byte_of_string "b") [] x29 []
           ltac:(bytes_ok) ltac:(bytes_ok) ltac:(bytes_ok) ltac:(bytes_ok)
           ltac:(byte_ok) eq_refl eq_refl).
Defined.

(** A bracket that is never closed, and no argument. *)
Lemma writeInterpolate_unclosed_bracket_witness :
  writeInterpolate sample.DecodeRune sample.EncodeRune sample.argument sample.writeTo
    sample.EscapeIdent [] (list_byte_of_string "SELECT [a FROM t") [] = Some Panicked.
Proof.
  exact (writeInterpolate_unclosed_bracket sample.DecodeRune sample.EncodeRune
           sample.argument sample.writeTo sample.EscapeIdent sample_DecodeRune_ascii
           [] (list_byte_of_string "SELECT ") (list_byte_of_string "a FROM t") []
           ltac:(bytes_ok) eq_refl (or_introl eq_refl)).
Defined.

(** A question mark in a quoted text, and one argument: the call
    succeeds and the argument is not written. *)
Lemma writeInterpolate_quoted_witness :
  writeInterpolate sample.DecodeRune sample.EncodeRune sample.argument sample.writeTo
    sample.EscapeIdent [] (list_byte_of_string "WHERE a = '?' LIMIT 1")
    [inl (list_byte_of_string "1")] =
  Some (Ok (list_byte_of_string "WHERE a = '?' LIMIT 1")).
Proof.
  exact (writeInterpolate_quoted sample.DecodeRune sample.EncodeRune
           sample.argument sample.writeTo sample.EscapeIdent
           sample_DecodeRune_ascii sample_EncodeRune_ascii
           [] (list_byte_of_string "WHERE a = ") (list_byte_of_string "?")
           (list_byte_of_string " LIMIT 1") x27 [inl (list_byte_of_string "1")]
           ltac:(bytes_ok) ltac:(bytes_ok) (or_intror (or_introl eq_refl))
           ltac:(bytes_ok) (or_intror eq_refl)).
Defined.

(** Two arguments in a plain statement. *)
Lemma writeInterpolate_plain_witness :
  writeInterpolate sample.DecodeRune sample.EncodeRune sample.argument sample.writeTo
    sample.EscapeIdent [] (list_byte_of_string "WHERE a = ? AND b = ?")
    [inl (list_byte_of_string "1"); inl (list_byte_of_string "2")] =
  Some (Ok (list_byte_of_string "WHERE a = 1 AND b = 2")).
Proof.
  exact (writeInterpolate_plain sample.DecodeRune sample.EncodeRune
           sample.argument sample.writeTo sample.EscapeIdent sample_DecodeRune_ascii
           [] (list_byte_of_string "WHERE a = ")
           [(inl (list_byte_of_string "1"), list_byte_of_string " AND b = ");
            (inl (list_byte_of_string "2"), [])]
           ltac:(discriminate) ltac:(bytes_ok)
           ltac:(repeat (apply List.Forall_cons; [cbn [snd]; bytes_ok|]); apply List.Forall_nil)).
Defined.

End interpolate_properties.
